(** * Workshop app: validation helpers, persistence adapter, theme generation
    and serverless proxies, embedded from the JavaScript sources.

  The development follows the source files: [Js] holds the fragment of
  the host language the code relies on (strings as UTF-16 code units),
  [Utils] the helpers of the utility object, [Store] the key-tree of the
  hosted realtime database, [Eff] the effects the code performs against
  its collaborators, [FirebaseService] the persistence adapter,
  [Workshop] the facilitator's theme generation, [Timers] the debounce
  wrapper and [Proxy] the two serverless functions.  Definitions come
  first; the properties follow in the modules whose names end in
  [Facts]. *)

From Stdlib Require Import ZArith NArith QArith Qround Lia Ascii String.
From stdpp Require Import base tactics option list numbers strings pretty gmap.

#[local] Open Scope N_scope.

(** ** Host language fragment *)

Module Js.

(** A JavaScript string is a sequence of UTF-16 code units. *)
Abbreviation jsstring := (list N).

(** Source literals are written as Rocq strings and converted. *)
Definition str (s : string) : jsstring :=
  (fun a => N_of_ascii a) <$> list_ascii_of_string s.

(** [!s] on a string: only the empty string is falsy. *)
Definition falsy (s : jsstring) : bool :=
  match s with [] => true | _ => false end.

(** WhiteSpace and LineTerminator code units, the set removed by
    [String.prototype.trim] and matched by [\s]. *)
Definition isWhiteSpace (c : N) : bool :=
  ((9 <=? c) && (c <=? 13)) || (c =? 32) || (c =? 160) || (c =? 5760)
  || ((8192 <=? c) && (c <=? 8202)) || (c =? 8232) || (c =? 8233)
  || (c =? 8239) || (c =? 8287) || (c =? 12288) || (c =? 65279).

Definition isUpper (c : N) : bool := (65 <=? c) && (c <=? 90).
Definition isLower (c : N) : bool := (97 <=? c) && (c <=? 122).
Definition isDigit (c : N) : bool := (48 <=? c) && (c <=? 57).

(** [\w] is [A-Za-z0-9_]. *)
Definition isWord (c : N) : bool :=
  isUpper c || isLower c || isDigit c || (c =? 95).

Fixpoint trimStart (s : jsstring) : jsstring :=
  match s with
  | [] => []
  | c :: s' => if isWhiteSpace c then trimStart s' else s
  end.

Definition trimEnd (s : jsstring) : jsstring :=
  reverse (trimStart (reverse s)).

Definition trim (s : jsstring) : jsstring := trimEnd (trimStart s).

(** [s.substring(0, n)] for a non-negative [n]. *)
Definition substring0 (n : nat) (s : jsstring) : jsstring := take n s.

(** [s.replace(/[...]/g, '')] deletes every code unit of the class:
    [keep] is the complement of the class. *)
Definition strip (keep : N → bool) (s : jsstring) : jsstring :=
  List.filter keep s.

(** [s.charAt(i)]: the unit at [i], or the empty string out of range. *)
Definition charAt (s : jsstring) (i : Z) : jsstring :=
  if (i <? 0)%Z then []
  else match s !! Z.to_nat i with Some c => [c] | None => [] end.

(** Upper-casing of the ASCII letters, unit by unit.  It agrees with
    [String.prototype.toUpperCase] on ASCII text and is the instance at
    which the properties parameterised by the host's case mapping are
    run. *)
Definition asciiUpper (s : jsstring) : jsstring :=
  (fun c => if isLower c then c - 32 else c) <$> s.

(** Decimal rendering of a natural number, as template literals do. *)
Definition decimal (n : N) : jsstring := str (pretty n).

(** Numbers: the integers, and [NaN] where [parseInt] finds no digits. *)
Inductive Number := Int (z : Z) | NaN.

Definition integer (z : Z) : jsstring := str (pretty z).

Definition numberToString (n : Number) : jsstring :=
  match n with Int z => integer z | NaN => str "NaN" end.

End Js.

(** ** config.js and the validation helpers of the utility object *)

Module CONFIG.
Module APP.
Definition MAX_PARTICIPANTS : nat := 50.
Definition SESSION_CODE_LENGTH : nat := 6.
Definition MAX_NAME_LENGTH : nat := 50.
Definition MIN_NAME_LENGTH : nat := 2.
End APP.
End CONFIG.

Module Utils.
Import Js.

(** A validator either returns the sanitized string or calls
    [showError message] and returns [null]. *)
Inductive Validation :=
| Accepted (sanitized : jsstring)
| Refused (message : jsstring).

Definition isCodeChar (c : N) : bool := isUpper c || isDigit c.

Definition notAngle (c : N) : bool := negb ((c =? 60) || (c =? 62)).

Definition isNameChar (c : N) : bool :=
  isWord c || isWhiteSpace c || (c =? 45) || (c =? 39).

Section Host.
  (** [String.prototype.toUpperCase], the host's Unicode case mapping. *)
Variable toUpperCase : jsstring → jsstring.

Definition validateRoomCode (code : jsstring) : Validation :=
    if falsy code then Refused (str "Room code is required")
    else
      let sanitized := strip isCodeChar (toUpperCase (trim code)) in
      if negb (length sanitized =? CONFIG.APP.SESSION_CODE_LENGTH)%nat
      then Refused (str "Room code must be exactly "
                      ++ decimal (N.of_nat CONFIG.APP.SESSION_CODE_LENGTH)
                      ++ str " characters")
      else Accepted sanitized.
End Host.

Definition validateParticipantName (name : jsstring) : Validation :=
  if falsy name then Refused (str "Name is required")
  else
    let sanitized := substring0 CONFIG.APP.MAX_NAME_LENGTH (trim name) in
    if (length sanitized <? CONFIG.APP.MIN_NAME_LENGTH)%nat
    then Refused (str "Name must be at least "
                    ++ decimal (N.of_nat CONFIG.APP.MIN_NAME_LENGTH)
                    ++ str " characters")
    else Accepted (strip isNameChar (strip notAngle sanitized)).

(** The alphabet of generated codes (ambiguous characters left out). *)
Definition chars : jsstring := str "ABCDEFGHJKLMNPQRSTUVWXYZ23456789".

(** [generateRoomCode]: [random i] is the value of the [i]-th call of
    [Math.random()], a number of the unit interval; multiplying a double
    by the alphabet length 32 is exact, so the rational product and its
    floor are the ones the code computes. *)
Fixpoint generateRoomCode_loop (random : nat → Q) (i n : nat) (code : jsstring)
  : jsstring :=
  match n with
  | O => code
  | S n' =>
      generateRoomCode_loop random (S i) n'
        (code ++ charAt chars
                   (Qfloor (random i * inject_Z (Z.of_nat (length chars)))))
  end.

Definition generateRoomCode (random : nat → Q) : jsstring :=
  generateRoomCode_loop random 0 CONFIG.APP.SESSION_CODE_LENGTH [].

End Utils.

(** ** The hosted key-tree store *)

Module Store.
Import Js.

(** Values of the realtime database: a tree whose inner nodes map keys to
    subtrees.  [JNull] is the absent value; the store never holds a null
    leaf or an empty object.  Numbers are the integers the code writes. *)
#[local] Unset Elimination Schemes.
Inductive Json :=
| JNull
| JBool (b : bool)
| JNum (z : Z)
| JStr (s : jsstring)
| JObj (entries : gmap jsstring Json).
#[local] Set Elimination Schemes.

Definition children (t : Json) : gmap jsstring Json :=
  match t with JObj m => m | _ => ∅ end.

Definition child (k : jsstring) (t : Json) : Json :=
  default JNull (children t !! k).

Definition isNull (t : Json) : bool :=
  match t with JNull => true | _ => false end.

(** An inner node without children is absent. *)
Definition node (m : gmap jsstring Json) : Json :=
  if (size m =? 0)%nat then JNull else JObj m.

Definition put (k : jsstring) (v : Json) (m : gmap jsstring Json)
  : gmap jsstring Json :=
  if isNull v then delete k m else <[k := v]> m.

(** An object literal; properties whose value is [null] are not stored. *)
Definition obj (fields : list (jsstring * Json)) : Json :=
  node (foldl (fun m kv => put kv.1 kv.2 m) ∅ fields).

(** The value at a path of keys, [snapshot.val()]. *)
Fixpoint get (path : list jsstring) (t : Json) : Json :=
  match path with
  | [] => t
  | k :: path' => get path' (child k t)
  end.

(** [ref.set(v)]: the subtree at the path is replaced by [v]. *)
Fixpoint set (path : list jsstring) (v : Json) (t : Json) : Json :=
  match path with
  | [] => v
  | k :: path' => node (put k (set path' v (child k t)) (children t))
  end.

(** [ref.update(fields)]: each named child is set, the others are kept. *)
Definition update (path : list jsstring) (fields : list (jsstring * Json))
    (t : Json) : Json :=
  foldl (fun t kv => set (path ++ [kv.1]) kv.2 t) t fields.

(** [snapshot.exists()]. *)
Definition exists_ (path : list jsstring) (t : Json) : bool :=
  negb (isNull (get path t)).

(** A path string is split at its slashes; empty pieces are dropped. *)
Definition slash : N := 47.

Definition pushPiece (piece : jsstring) (rest : list jsstring) : list jsstring :=
  if falsy piece then rest else piece :: rest.

Fixpoint pieces (s : jsstring) : jsstring * list jsstring :=
  match s with
  | [] => ([], [])
  | c :: s' =>
      let '(piece, rest) := pieces s' in
      if c =? slash then ([], pushPiece piece rest) else (c :: piece, rest)
  end.

Definition segments (s : jsstring) : list jsstring :=
  let '(piece, rest) := pieces s in pushPiece piece rest.

(** A key: a non-empty string without a slash. *)
Definition isKey (s : jsstring) : Prop := s ≠ [] ∧ slash ∉ s.

(** Two paths diverge when they differ at some key they both have. *)
Fixpoint diverge (p q : list jsstring) : Prop :=
  match p, q with
  | a :: p', b :: q' => a ≠ b ∨ (a = b ∧ diverge p' q')
  | _, _ => False
  end.

(** The client library refuses a path string that is empty or contains
    one of [. # $ [ ]] or an ASCII control character. *)
Definition invalidPathChar (c : N) : bool :=
  (c =? 46) || (c =? 35) || (c =? 36) || (c =? 91) || (c =? 93)
  || (c <=? 31) || (c =? 127).

Definition validPathString (s : jsstring) : bool :=
  negb (falsy s) && forallb (fun c => negb (invalidPathChar c)) s.

(** A JavaScript array is stored as the object of its indices. *)
Definition arr (items : list Json) : Json :=
  obj (imap (fun i v => (decimal (N.of_nat i), v)) items).

(** The order of the children in a snapshot is the order of their keys:
    the keys that read as 32-bit integers come first, by value and the
    shorter first among equal values; the other keys follow in the order
    of their code units. *)
Fixpoint digitsValue (acc : Z) (digits : jsstring) : Z :=
  match digits with
  | [] => acc
  | c :: digits' => digitsValue (10 * acc + Z.of_N (c - 48)) digits'
  end.

Fixpoint dropZeros (digits : jsstring) : jsstring :=
  match digits with
  | c :: digits' => if c =? 48 then dropZeros digits' else digits
  | [] => []
  end.

(** The key is an optional minus sign and digits, at most ten of them
    after the leading zeros, and its value is a 32-bit integer. *)
Definition tryParseInt (key : jsstring) : option Z :=
  let negative := match key with c :: _ => c =? 45 | [] => false end in
  let digits := if negative then tail key else key in
  if negb (falsy digits) && forallb isDigit digits
     && (length (dropZeros digits) <=? 10)%nat
  then
    let value := digitsValue 0 digits in
    let value := if negative then (- value)%Z else value in
    if ((-2147483648 <=? value) && (value <=? 2147483647))%Z
    then Some value else None
  else None.

(** [a < b] on strings. *)
Fixpoint unitsBefore (a b : jsstring) : bool :=
  match a, b with
  | _, [] => false
  | [], _ :: _ => true
  | x :: a', y :: b' => (x <? y) || ((x =? y) && unitsBefore a' b')
  end.

(** The key [a] is not listed after the key [b]. *)
Definition nameBefore (a b : jsstring) : bool :=
  match tryParseInt a, tryParseInt b with
  | Some x, Some y =>
      if (x =? y)%Z then (length a <=? length b)%nat else (x <? y)%Z
  | Some _, None => true
  | None, Some _ => false
  | None, None => negb (unitsBefore b a)
  end.

Fixpoint insertByKey (kv : jsstring * Json) (l : list (jsstring * Json))
  : list (jsstring * Json) :=
  match l with
  | [] => [kv]
  | kv' :: l' =>
      if nameBefore kv.1 kv'.1 then kv :: l else kv' :: insertByKey kv l'
  end.

Definition sortByKey (l : list (jsstring * Json)) : list (jsstring * Json) :=
  foldr insertByKey [] l.

(** The children of a node whose child [name] has the value [v], as
    [orderByChild(name).equalTo(v)] selects them; without a filter, all.
    Either way they are listed in the order of their keys. *)
Definition selected (equalTo : option (jsstring * Z)) (v : Json) : bool :=
  match equalTo with
  | None => true
  | Some (name, z) =>
      match child name v with JNum z' => (z =? z')%Z | _ => false end
  end.

Definition query (equalTo : option (jsstring * Z)) (t : Json)
  : list (jsstring * Json) :=
  List.filter (fun kv => selected equalTo kv.2)
    (sortByKey (map_to_list (children t))).

End Store.

(** ** Effects

    The code talks to three collaborators: the page (toasts, the loading
    overlay, the activity list, analytics), the realtime database and the
    network.  A computation runs on a [World] that holds the database, the
    outcomes the collaborators will give to the coming requests, and the
    trace of everything the code asked of them; it completes normally or
    by throwing.  Awaited calls run to completion one after the other;
    other clients of the store and console output are not part of the
    world. *)

Module Eff.
Import Js Store.

Inductive ToastKind := ErrorToast | SuccessToast.

Inductive StoreOp :=
| Once (path : jsstring) (equalTo : option (jsstring * Z))
| SetValue (path : jsstring) (value : Json)
| UpdateFields (path : jsstring) (fields : list (jsstring * Json)).

(** The body of a request to the theme proxy, before [JSON.stringify]. *)
Record ThemeRequest := { prompt : jsstring; maxTokens : Z }.

Inductive Event :=
| Toast (kind : ToastKind) (message : jsstring)
| Track (category action label : jsstring)
| Loading (show : bool) (message : jsstring)
| Activity (text : jsstring)
| StoreRequest (op : StoreOp) (accepted : bool)
| Fetch (url : jsstring) (body : ThemeRequest).

(** What a call of [fetch] on the theme proxy comes to: the promise
    rejects; the response is not [ok]; its body is not the expected JSON;
    or the body is read, and [themes] is [JSON.parse(data.themes)], [None]
    when that throws. *)
Inductive FetchOutcome :=
| NetworkError
| HttpError
| BadBody
| Body (themes : option Json).

Record World := mkWorld {
  database : option Json;        (* [None]: the module variable is still null *)
  rejections : list bool;        (* coming store requests: [true] fails *)
  responses : list FetchOutcome; (* coming calls of [fetch] *)
  clock : Z;                     (* the server's time stamp *)
  pushed : N;                    (* keys handed out by [push()] *)
  trace : list Event             (* oldest first *)
}.

Inductive Completion (A : Type) :=
| Normal (a : A)
| Throw (error : jsstring).
Arguments Normal {A} a.
Arguments Throw {A} error.

Definition M (A : Type) : Type := World → Completion A * World.

#[export] Instance M_ret : MRet M := fun A a w => (Normal a, w).

#[export] Instance M_bind : MBind M := fun A B f m w =>
  match m w with
  | (Normal a, w') => f a w'
  | (Throw e, w') => (Throw e, w')
  end.

Definition throw {A} (error : jsstring) : M A := fun w => (Throw error, w).

(** [try { body } catch (error) { handler }]. *)
Definition tryCatch {A} (body : M A) (handler : jsstring → M A) : M A :=
  fun w =>
    match body w with
    | (Normal a, w') => (Normal a, w')
    | (Throw e, w') => handler e w'
    end.

(** The world after some events, after a store request was sent, and
    after the store took a new value. *)
Definition logged (events : list Event) (w : World) : World :=
  mkWorld (database w) (rejections w) (responses w) (clock w) (pushed w)
    (trace w ++ events).

Definition sent (op : StoreOp) (accepted : bool) (w : World) : World :=
  mkWorld (database w) (tail (rejections w)) (responses w) (clock w) (pushed w)
    (trace w ++ [StoreRequest op accepted]).

Definition stored (db : Json) (w : World) : World :=
  mkWorld (Some db) (rejections w) (responses w) (clock w) (pushed w) (trace w).

Definition emit (e : Event) : M unit := fun w => (Normal (), logged [e] w).

(** The events a run added to the trace. *)
Definition newEvents (before after : World) : list Event :=
  drop (length (trace before)) (trace after).


Definition isWrite (e : Event) : bool :=
  match e with
  | StoreRequest (SetValue _ _) _ => true
  | StoreRequest (UpdateFields _ _) _ => true
  | _ => false
  end.

Definition isRead (e : Event) : bool :=
  match e with StoreRequest (Once _ _) _ => true | _ => false end.

Definition isStoreRequest (e : Event) : bool :=
  match e with StoreRequest _ _ => true | _ => false end.

Definition notFound : list Event :=
  [ Toast ErrorToast (str "Workshop session not found");
    Track (str "error") (str "user_error") (str "Workshop session not found") ].

Definition joinFailed : list Event :=
  [ Toast ErrorToast (str "Failed to join workshop session");
    Track (str "error") (str "user_error") (str "Failed to join workshop session") ].

Definition saveFailed : list Event :=
  [ Toast ErrorToast (str "Failed to save themes");
    Track (str "error") (str "user_error") (str "Failed to save themes") ].

(** The world after a call of [fetch]. *)
Definition fetched (url : jsstring) (body : ThemeRequest) (w : World) : World :=
  mkWorld (database w) (rejections w) (tail (responses w)) (clock w) (pushed w)
    (trace w ++ [Fetch url body]).

Definition isFetch (e : Event) : bool :=
  match e with Fetch _ _ => true | _ => false end.

(** The coming request on [path] is sent and the store accepts it. *)
Definition accepts (path : jsstring) (w : World) : bool :=
  match database w with
  | None => false
  | Some _ => validPathString path && negb (default false (head (rejections w)))
  end.

Definition timestamp : M Z := fun w => (Normal (clock w), w).

(** [database.ref(path)] and one request on it.  Dereferencing the null
    module variable throws; so does an invalid path string; otherwise the
    request is made, and it succeeds or fails (the client library refuses
    the value, or the server rejects the request) as the world says. *)
Definition request (path : jsstring) (op : StoreOp) : M Json := fun w =>
  match database w with
  | None => (Throw (str "TypeError: database is null"), w)
  | Some db =>
      if negb (validPathString path)
      then (Throw (str "Error: invalid path"), w)
      else if default false (head (rejections w))
      then (Throw (str "Error: request rejected"), sent op false w)
      else (Normal db, sent op true w)
  end.

Definition commit (db : Json) : M unit := fun w => (Normal (), stored db w).

(** [ref(path).once('value')]: the snapshot's value. *)
Definition once (path : jsstring) : M Json :=
  db ← request path (Once path None);
  mret (get (segments path) db).

(** [ref(path).orderByChild(name).equalTo(z).once('value')] followed by
    [snapshot.forEach]: the selected children with their keys, in the
    order of the keys. *)
Definition onceChildren (path : jsstring) (equalTo : option (jsstring * Z))
  : M (list (jsstring * Json)) :=
  db ← request path (Once path equalTo);
  mret (query equalTo (get (segments path) db)).

(** [ref(path).set(value)]. *)
Definition set (path : jsstring) (value : Json) : M unit :=
  db ← request path (SetValue path value);
  commit (Store.set (segments path) value db).

(** [ref(path).update(fields)]. *)
Definition update (path : jsstring) (fields : list (jsstring * Json)) : M unit :=
  db ← request path (UpdateFields path fields);
  commit (Store.update (segments path) fields db).

(** [ref(path).push()]: a reference to a fresh child; no request is sent.
    Keys are made from a counter. *)
Definition push (path : jsstring) : M jsstring := fun w =>
  match database w with
  | None => (Throw (str "TypeError: database is null"), w)
  | Some _ =>
      if negb (validPathString path)
      then (Throw (str "Error: invalid path"), w)
      else
        (Normal (str "-N" ++ decimal (pushed w)),
         mkWorld (database w) (rejections w) (responses w) (clock w)
           (pushed w + 1) (trace w))
  end.

(** [fetch(url, { method: 'POST', body })]. *)
Definition fetch (url : jsstring) (body : ThemeRequest) : M FetchOutcome :=
  fun w =>
    let outcome := default NetworkError (head (responses w)) in
    ((match outcome with
      | NetworkError => Throw (str "TypeError: Failed to fetch")
      | _ => Normal outcome
      end),
     fetched url body w).

(** Sequential [for ... of] loop with an awaited body. *)
Fixpoint forEach {A} (items : list A) (body : A → M unit) : M unit :=
  match items with
  | [] => mret ()
  | x :: rest => body x;; forEach rest body
  end.

(** The page side of the utility object. *)
Definition trackEvent (category action label : jsstring) : M unit :=
  emit (Track category action label).

Definition showToast (message : jsstring) (kind : ToastKind) : M unit :=
  emit (Toast kind message).

Definition showError (message : jsstring) : M unit :=
  showToast message ErrorToast;;
  trackEvent (str "error") (str "user_error") message.

Definition showSuccess (message : jsstring) : M unit :=
  showToast message SuccessToast.

Definition setLoading (show : bool) (message : jsstring) : M unit :=
  emit (Loading show message).

Definition addActivity (text : jsstring) : M unit := emit (Activity text).

End Eff.

(** ** firebase.js: the persistence adapter *)

Module FirebaseService.
Import Js Store Eff.

Definition createSession (sessionCode facilitatorId facilitatorName : jsstring)
  : M Json :=
  tryCatch
    (now ← timestamp;
     let sessionData := obj
       [ (str "code", JStr sessionCode);
         (str "facilitatorId", JStr facilitatorId);
         (str "facilitatorName", JStr facilitatorName);
         (str "createdAt", JNum now);
         (str "phase", JNum 0);
         (str "timerActive", JBool false);
         (str "timerDuration", JNum 0);
         (str "status", JStr (str "active")) ] in
     set (str "sessions/" ++ sessionCode) sessionData;;
     trackEvent (str "session") (str "create") sessionCode;;
     mret (JBool true))
    (fun error =>
       showError (str "Failed to create workshop session");;
       mret (JBool false)).

Definition sessionExists (sessionCode : jsstring) : M bool :=
  tryCatch
    (snapshot ← once (str "sessions/" ++ sessionCode);
     mret (negb (isNull snapshot)))
    (fun error => mret false).

Definition participantData (participantId participantName : jsstring) (now : Z)
  : Json :=
  obj [ (str "id", JStr participantId);
        (str "name", JStr participantName);
        (str "joinedAt", JNum now);
        (str "status", JStr (str "online"));
        (str "tableNumber", JNull) ].

Definition joinSession (sessionCode participantId participantName : jsstring)
  : M Json :=
  tryCatch
    (exists_ ← sessionExists sessionCode;
     if negb exists_
     then showError (str "Workshop session not found");; mret (JBool false)
     else
       now ← timestamp;
       set (str "sessions/" ++ sessionCode ++ str "/participants/" ++ participantId)
         (participantData participantId participantName now);;
       trackEvent (str "session") (str "join") sessionCode;;
       mret (JBool true))
    (fun error =>
       showError (str "Failed to join workshop session");;
       mret (JBool false)).

(** The function wrapped by [Utils.debounce(..., 500)]. *)
Definition writeParticipantStatus (sessionCode participantId status : jsstring)
  : M unit :=
  tryCatch
    (set (str "sessions/" ++ sessionCode ++ str "/participants/" ++ participantId
            ++ str "/status")
       (JStr status))
    (fun error => mret ()).

Definition saveTranscript (sessionCode : jsstring) (tableNumber phaseIndex : Z)
    (transcript : jsstring) (duration : Z) : M Json :=
  tryCatch
    (now ← timestamp;
     let transcriptData := obj
       [ (str "sessionCode", JStr sessionCode);
         (str "tableNumber", JNum tableNumber);
         (str "phaseIndex", JNum phaseIndex);
         (str "transcript", JStr transcript);
         (str "duration", JNum duration);
         (str "timestamp", JNum now) ] in
     key ← push (str "transcripts/" ++ sessionCode);
     set (str "transcripts/" ++ sessionCode ++ str "/" ++ key) transcriptData;;
     trackEvent (str "transcript") (str "save")
       (str "table" ++ integer tableNumber ++ str "_phase" ++ integer phaseIndex);;
     mret (JStr key))
    (fun error =>
       showError (str "Failed to save transcript");;
       mret JNull).

Definition getTranscripts (sessionCode : jsstring) (phaseIndex : option Z)
  : M (list (jsstring * Json)) :=
  tryCatch
    (onceChildren (str "transcripts/" ++ sessionCode)
       (match phaseIndex with
        | Some z => Some (str "phaseIndex", z)
        | None => None
        end))
    (fun error => mret []).

Definition themeData (sessionCode : jsstring) (tableNumber : Z)
    (themes synthesis : Json) (now : Z) : Json :=
  obj [ (str "sessionCode", JStr sessionCode);
        (str "tableNumber", JNum tableNumber);
        (str "themes", themes);
        (str "synthesis", synthesis);
        (str "timestamp", JNum now) ].

Definition themesPath (sessionCode : jsstring) (tableNumber : Number) : jsstring :=
  str "themes/" ++ sessionCode ++ str "/table" ++ numberToString tableNumber.

(** The store refuses to write [NaN]: [set] throws before it sends. *)
Definition saveThemes (sessionCode : jsstring) (tableNumber : Number)
    (themes synthesis : Json) : M Json :=
  tryCatch
    (now ← timestamp;
     match tableNumber with
     | NaN => throw (str "Error: set failed: value contains NaN")
     | Int z =>
         set (themesPath sessionCode tableNumber)
           (themeData sessionCode z themes synthesis now)
     end;;
     trackEvent (str "themes") (str "save")
       (str "table" ++ numberToString tableNumber);;
     mret (JBool true))
    (fun error =>
       showError (str "Failed to save themes");;
       mret (JBool false)).

Definition updatePhase (sessionCode : jsstring) (phaseIndex : Z) : M Json :=
  tryCatch
    (set (str "sessions/" ++ sessionCode ++ str "/phase") (JNum phaseIndex);;
     trackEvent (str "session") (str "phase_change")
       (str "phase" ++ integer phaseIndex);;
     mret (JBool true))
    (fun error => mret (JBool false)).

Definition updateTimer (sessionCode : jsstring) (active : bool) (duration : Z)
  : M Json :=
  tryCatch
    (update (str "sessions/" ++ sessionCode)
       [ (str "timerActive", JBool active);
         (str "timerDuration", JNum duration) ];;
     mret (JBool true))
    (fun error => mret (JBool false)).

Definition endSession (sessionCode : jsstring) : M Json :=
  tryCatch
    (set (str "sessions/" ++ sessionCode ++ str "/status") (JStr (str "ended"));;
     trackEvent (str "session") (str "end") sessionCode;;
     mret (JBool true))
    (fun error => mret (JBool false)).

(** The write operations of the adapter, as calls. *)
Inductive WriteOp :=
| CreateSession (sessionCode facilitatorId facilitatorName : jsstring)
| JoinSession (sessionCode participantId participantName : jsstring)
| UpdatePhase (sessionCode : jsstring) (phaseIndex : Z)
| UpdateTimer (sessionCode : jsstring) (active : bool) (duration : Z)
| EndSession (sessionCode : jsstring)
| SaveThemes (sessionCode : jsstring) (tableNumber : Number)
    (themes synthesis : Json)
| SaveTranscript (sessionCode : jsstring) (tableNumber phaseIndex : Z)
    (transcript : jsstring) (duration : Z).

Definition call (op : WriteOp) : M Json :=
  match op with
  | CreateSession c f n => createSession c f n
  | JoinSession c p n => joinSession c p n
  | UpdatePhase c i => updatePhase c i
  | UpdateTimer c a d => updateTimer c a d
  | EndSession c => endSession c
  | SaveThemes c t th sy => saveThemes c t th sy
  | SaveTranscript c t i tr d => saveTranscript c t i tr d
  end.

(** Calls awaited one after the other; the world after the last. *)
Definition callAll (ops : list WriteOp) (w : World) : World :=
  foldl (fun w op => (call op w).2) w ops.

(** The session code a call is about. *)
Definition target (op : WriteOp) : jsstring :=
  match op with
  | CreateSession c _ _ | JoinSession c _ _ | UpdatePhase c _
  | UpdateTimer c _ _ | EndSession c | SaveThemes c _ _ _
  | SaveTranscript c _ _ _ _ => c
  end.

(** What a call returns when it fails. *)
Definition failure (op : WriteOp) : Json :=
  match op with
  | SaveTranscript _ _ _ _ _ => JNull
  | _ => JBool false
  end.

(** A field of a session record. *)
Definition sessionField (sessionCode name : jsstring) (w : World) : Json :=
  match database w with
  | Some db => get (segments (str "sessions/" ++ sessionCode ++ str "/" ++ name)) db
  | None => JNull
  end.

End FirebaseService.


(** ** Objects, property keys and numbers of the host language *)

Module JsObject.
Import Js Store.

(** [String(x)] for the number [x] that the integer [z] stands for.
    Below 2^53 every integer is a number and is written out in full.
    From there on [x] is the double nearest to [z], ties to the even
    significand, and what is written are the fewest digits that read
    back as [x], filled up with zeros below 10^21 and in exponent form
    from 10^21 on. *)
Definition nearest (a : Z) : Z :=
  let e := (Z.log2 a - 52)%Z in
  let q := (a / 2 ^ e)%Z in
  let r := (a mod 2 ^ e)%Z in
  let half := (2 ^ (e - 1))%Z in
  let q := if ((half <? r) || ((r =? half) && Z.odd q))%Z then (q + 1)%Z else q in
  (q * 2 ^ e)%Z.

(** The decimal [v] reads as the double [d]: it lies between the
    midpoints to the neighbours of [d], the midpoints included when the
    significand of [d] is even.  All quantities are taken four times. *)
Definition readsAs (d v : Z) : bool :=
  let e := (Z.log2 d - 52)%Z in
  let m := (d / 2 ^ e)%Z in
  let below := (if m =? 2 ^ 52 then 2 ^ e else 2 * 2 ^ e)%Z in
  let above := (2 * 2 ^ e)%Z in
  let lo := (4 * d - below)%Z in
  let hi := (4 * d + above)%Z in
  let x := (4 * v)%Z in
  if Z.even m then ((lo <=? x) && (x <=? hi))%Z else ((lo <? x) && (x <? hi))%Z.

(** The fewest digits [s] and the power of ten [p] with [s * 10^p]
    reading as [d], the nearest to [d] among equals: the search goes
    down from the power of ten given. *)
Fixpoint shortest (d : Z) (p : nat) : Z * nat :=
  let unit := (10 ^ Z.of_nat p)%Z in
  let s := (d / unit)%Z in
  let down := readsAs d (s * unit) && (0 <? s)%Z in
  let up := readsAs d ((s + 1) * unit) in
  let pick :=
    if down && up
    then Some (if (d - s * unit <=? (s + 1) * unit - d)%Z then s else (s + 1)%Z)
    else if down then Some s
    else if up then Some (s + 1)%Z
    else None in
  match pick, p with
  | Some s', _ => (s', p)
  | None, O => (d, O)
  | None, S p' => shortest d p'
  end.

Definition written (s : Z) (p : nat) : jsstring :=
  let digits := integer s in
  let n := (length digits + p)%nat in
  if (n <=? 21)%nat then digits ++ replicate p 48
  else
    match digits with
    | [] => []
    | c :: rest =>
        (c :: (if falsy rest then [] else 46 :: rest))
        ++ str "e+" ++ decimal (N.of_nat (n - 1))
    end.

Definition numberString (z : Z) : jsstring :=
  if (Z.abs z <? 2 ^ 53)%Z then integer z
  else
    let d := nearest (Z.abs z) in
    (if (z <? 0)%Z then str "-" else [])
    ++ (if (2 ^ 1024 <=? d)%Z then str "Infinity"
        else let '(s, p) := shortest d (length (integer d)) in written s p).

(** [String(v)], as template literals and property access apply it.  A
    property that is absent reads as [undefined]. *)
Definition toString (v : Json) : jsstring :=
  match v with
  | JNull => str "undefined"
  | JBool true => str "true"
  | JBool false => str "false"
  | JNum z => numberString z
  | JStr s => s
  | JObj _ => str "[object Object]"
  end.

(** [items.join(sep)]: [undefined] and [null] are joined as empty. *)
Definition joinItem (v : Json) : jsstring :=
  match v with JNull => [] | _ => toString v end.

Fixpoint join (sep : jsstring) (items : list Json) : jsstring :=
  match items with
  | [] => []
  | [v] => joinItem v
  | v :: rest => joinItem v ++ sep ++ join sep rest
  end.

(** The properties every object literal inherits from [Object.prototype];
    each reads as a truthy value that has no [push]. *)
Definition inheritedKeys : list jsstring :=
  [ str "constructor"; str "__defineGetter__"; str "__defineSetter__";
    str "hasOwnProperty"; str "__lookupGetter__"; str "__lookupSetter__";
    str "isPrototypeOf"; str "propertyIsEnumerable"; str "toString";
    str "valueOf"; str "__proto__"; str "toLocaleString" ].

Definition inherited (key : jsstring) : bool :=
  bool_decide (key ∈ inheritedKeys).

(** An object literal used as a map from property keys to arrays, its own
    properties in the order of their creation. *)
Abbreviation arrays := (list (jsstring * list Json)).

(** [if (!o[key]) o[key] = []; o[key].push(item)] on an own or absent
    property. *)
Fixpoint pushTo (key : jsstring) (item : Json) (o : arrays) : arrays :=
  match o with
  | [] => [(key, [item])]
  | (k, items) :: o' =>
      if decide (k = key) then (k, items ++ [item]) :: o'
      else (k, items) :: pushTo key item o'
  end.

(** Array indices: the canonical decimal strings below [2^32 - 1]. *)
Fixpoint parseDigits (acc : N) (s : jsstring) : option N :=
  match s with
  | [] => Some acc
  | c :: s' =>
      if isDigit c then parseDigits (10 * acc + (c - 48)) s' else None
  end.

Definition arrayIndex (key : jsstring) : option N :=
  if falsy key then None
  else match parseDigits 0 key with
       | Some n =>
           if (n <? 4294967295) && bool_decide (decimal n = key)
           then Some n else None
       | None => None
       end.

Fixpoint insertByIndex {A} (x : N * A) (l : list (N * A)) : list (N * A) :=
  match l with
  | [] => [x]
  | y :: l' => if x.1 <? y.1 then x :: l else y :: insertByIndex x l'
  end.

(** [Object.entries(o)]: array indices in ascending order first, then the
    other keys in the order of their creation. *)
Definition entries (o : arrays) : arrays :=
  (foldr insertByIndex []
     (omap (fun kv => n ← arrayIndex kv.1; Some (n, kv)) o)).*2
  ++ List.filter (fun kv => negb (bool_decide (is_Some (arrayIndex kv.1)))) o.

(** [parseInt(s)]: leading white space and a sign are skipped, [0x]
    selects radix 16, and the longest prefix of digits is the value. *)
Definition digitValue (radix : N) (c : N) : option N :=
  let d := if isDigit c then Some (c - 48)
           else if isLower c then Some (c - 87)
           else if isUpper c then Some (c - 55)
           else None in
  match d with
  | Some v => if v <? radix then Some v else None
  | None => None
  end.

Fixpoint digitsPrefix (radix : N) (acc : option N) (s : jsstring) : option N :=
  match s with
  | [] => acc
  | c :: s' =>
      match digitValue radix c with
      | Some d => digitsPrefix radix (Some (radix * default 0 acc + d)) s'
      | None => acc
      end
  end.

Definition parseInt (s : jsstring) : Number :=
  let s := trimStart s in
  let '(negative, s) :=
    match s with
    | 45 :: r => (true, r)
    | 43 :: r => (false, r)
    | _ => (false, s)
    end in
  let '(radix, s) :=
    match s with
    | 48 :: 120 :: r => (16, r)
    | 48 :: 88 :: r => (16, r)
    | _ => (10, s)
    end in
  match digitsPrefix radix None s with
  | None => NaN
  | Some n => Int (if negative then - Z.of_N n else Z.of_N n)
  end.

(** The first character of a rendered integer is a digit or the sign. *)
Definition numeral (s : string) : Prop :=
  ∃ c rest, s = String c rest
            ∧ (N_of_ascii c = 45 ∨ 48 ≤ N_of_ascii c ≤ 57).

End JsObject.

(** ** The facilitator's theme generation *)

Module Workshop.
Import Js Store JsObject Eff FirebaseService.

Definition OPENAI_PROXY : jsstring := str "/.netlify/functions/openai-proxy".

Definition themePrompt (text : jsstring) : jsstring :=
  str "Extract 3-5 key themes from the following discussion transcript. Return only a JSON array of short theme labels (3-7 words each):"
  ++ [10; 10] ++ text.

Definition themeRequest (text : jsstring) : ThemeRequest :=
  {| prompt := themePrompt text; maxTokens := 200 |}.

Definition defaultThemes : Json :=
  arr [JStr (str "Theme 1"); JStr (str "Theme 2"); JStr (str "Theme 3")].

Definition failedThemes : Json := arr [JStr (str "Theme extraction failed")].

(** [Utils.safeJsonParse(data.themes, fallback)] on the parsed body. *)
Definition safeJsonParse (parsed : option Json) (fallback : Json) : Json :=
  default fallback parsed.

Definition generateThemesFromText (text : jsstring) : M Json :=
  tryCatch
    (response ← fetch OPENAI_PROXY (themeRequest text);
     match response with
     | NetworkError => throw (str "TypeError: Failed to fetch")
     | HttpError => throw (str "OpenAI API error")
     | BadBody => throw (str "SyntaxError")
     | Body parsed => mret (safeJsonParse parsed defaultThemes)
     end)
    (fun error => mret failedThemes).

(** The property key under which a transcript is filed, and its text. *)
Definition tableKey (t : jsstring * Json) : jsstring :=
  toString (child (str "tableNumber") t.2).

Definition transcriptText (t : jsstring * Json) : Json :=
  child (str "transcript") t.2.

(** The grouping loop; [None] when it throws a [TypeError] on a key that
    the object inherits. *)
Fixpoint groupByTable (transcripts : list (jsstring * Json)) (o : arrays)
  : option arrays :=
  match transcripts with
  | [] => Some o
  | t :: rest =>
      if inherited (tableKey t) then None
      else groupByTable rest (pushTo (tableKey t) (transcriptText t) o)
  end.



(** The themes a call of the proxy comes to, by its outcome alone. *)
Definition themesOf (outcome : option FetchOutcome) : Json :=
  match outcome with
  | Some (Body parsed) => safeJsonParse parsed defaultThemes
  | _ => failedThemes
  end.

(** The body of the loop over the tables. *)
Definition tableStep (code : jsstring) (table : jsstring * list Json) : M unit :=
  let combinedText := join [10; 10] table.2 in
  themes ← generateThemesFromText combinedText;
  saveThemes code (parseInt table.1) themes JNull;;
  mret ().


Definition genCode (session : Json) : jsstring :=
  toString (child (str "code") session).

Definition themesSaved (code : jsstring) (n : Number) : list Event :=
  [ Track (str "themes") (str "save") (str "table" ++ numberToString n) ].



(** The loop over the tables, as a run of its bodies. *)
Definition runTables (code : jsstring) (tables : arrays) (w : World) : World :=
  foldl (fun w table => (tableStep code table w).2) w tables.

Definition noTranscripts : list Event :=
  [ Toast ErrorToast (str "No transcripts found for this phase");
    Track (str "error") (str "user_error")
      (str "No transcripts found for this phase");
    Loading false (str "Loading...") ].

Definition generateFailed : list Event :=
  [ Toast ErrorToast (str "Failed to generate themes");
    Track (str "error") (str "user_error") (str "Failed to generate themes");
    Loading false (str "Loading...") ].

Definition generating : Event :=
  Loading true (str "Generating themes from transcripts...").

Definition generated (currentPhase : Z) : list Event :=
  [ Loading false (str "Loading...");
    Toast SuccessToast (str "Themes generated successfully!");
    Activity (str "Themes generated from transcripts");
    Track (str "workshop") (str "generate_themes")
      (str "phase_" ++ integer currentPhase) ].

(** [sessionData] is the facilitator's mirror of the session record,
    [null] before a session was created; [currentPhase] the mirror of its
    phase. *)
Definition handleGenerateThemes (sessionData : option Json) (currentPhase : Z)
  : M unit :=
  match sessionData with
  | None => mret ()
  | Some session =>
      let code := toString (child (str "code") session) in
      setLoading true (str "Generating themes from transcripts...");;
      tryCatch
        (transcripts ← getTranscripts code (Some currentPhase);
         if (length transcripts =? 0)%nat
         then
           showError (str "No transcripts found for this phase");;
           setLoading false (str "Loading...")
         else
           match groupByTable transcripts [] with
           | None => throw (str "TypeError: push is not a function")
           | Some tableTranscripts =>
               forEach (entries tableTranscripts) (tableStep code);;
               setLoading false (str "Loading...");;
               showSuccess (str "Themes generated successfully!");;
               addActivity (str "Themes generated from transcripts");;
               trackEvent (str "workshop") (str "generate_themes")
                 (str "phase_" ++ integer currentPhase)
           end)
        (fun error =>
           showError (str "Failed to generate themes");;
           setLoading false (str "Loading..."))
  end.

End Workshop.

(** ** Timers and the debounce wrapper *)

Module Timers.
Import Js Store Eff.

Section Debounce.
Context {A : Type}.

(** The wrapped function, applied to the arguments of a call, and the
    delay in milliseconds. *)
Variable func : A → M unit.
Variable wait : N.

(** A pending timer of the wrapper: its [later] closure holds the
    arguments of the call that set it. *)
Record Timer := mkTimer { timerId : N; due : N; args : A }.

(** The event loop: the clock in milliseconds, the timers that are set,
    the closure variable [timeout] of the wrapper, and the world. *)
Record Loop := mkLoop {
  now : N;
  nextId : N;
  pending : list Timer;
  timeout : option N;
  world : World
}.

(** [clearTimeout(id)]; an id that is [undefined] or not pending is
    ignored. *)
Definition clearTimeout (id : option N) (st : Loop) : Loop :=
  mkLoop (now st) (nextId st)
    (List.filter (fun t => negb (bool_decide (Some (timerId t) = id))) (pending st))
    (timeout st) (world st).

(** [timeout = setTimeout(later, wait)]. *)
Definition setTimeout (a : A) (st : Loop) : Loop :=
  mkLoop (now st) (nextId st + 1)
    (pending st ++ [mkTimer (nextId st) (now st + wait) a])
    (Some (nextId st)) (world st).

(** A call of the debounced function. *)
Definition executedFunction (a : A) (st : Loop) : Loop :=
  setTimeout a (clearTimeout (timeout st) st).

(** The closure [later]: it clears [timeout] and applies the wrapped
    function to the arguments it holds. *)
Definition later (a : A) (st : Loop) : Loop :=
  let st := clearTimeout (timeout st) st in
  mkLoop (now st) (nextId st) (pending st) (timeout st) (func a (world st)).2.

(** The timer that fires next: the earliest one that is due by [t], the
    one set first among equals. *)
Fixpoint earliest (best : option Timer) (timers : list Timer) : option Timer :=
  match timers with
  | [] => best
  | t :: rest =>
      match best with
      | Some b => if due t <? due b then earliest (Some t) rest
                  else earliest best rest
      | None => earliest (Some t) rest
      end
  end.

Definition nextDue (t : N) (st : Loop) : option Timer :=
  earliest None (List.filter (fun tm => due tm <=? t) (pending st)).

Definition fire (tm : Timer) (st : Loop) : Loop :=
  later (args tm)
    (mkLoop (N.max (now st) (due tm)) (nextId st)
       (List.filter (fun t => negb (timerId t =? timerId tm)) (pending st))
       (timeout st) (world st)).

(** The loop runs the timers that are due by [t]; a timer that fires
    sets no timer, so as many rounds as there are timers suffice. *)
Fixpoint run (rounds : nat) (t : N) (st : Loop) : Loop :=
  match rounds with
  | O => st
  | S rounds' =>
      match nextDue t st with
      | None => st
      | Some tm => run rounds' t (fire tm st)
      end
  end.

(** Time passes until [t]. *)
Definition advance (t : N) (st : Loop) : Loop :=
  let st := run (length (pending st)) t st in
  mkLoop (N.max (now st) t) (nextId st) (pending st) (timeout st) (world st).

(** The debounced function is called at time [t]. *)
Definition callAt (st : Loop) (call : N * A) : Loop :=
  executedFunction call.2 (advance call.1 st).

Definition callsAt (calls : list (N * A)) (st : Loop) : Loop :=
  foldl callAt st calls.

(** The calls [calls] follow a call made at [prev], in the order of
    their times, all before [start + wait]. *)
Fixpoint follows (start prev : N) (calls : list (N * A)) : Prop :=
  match calls with
  | [] => True
  | c :: rest => prev ≤ c.1 ∧ c.1 < start + wait ∧ follows start c.1 rest
  end.

(** At least one call, all of them within the window that the first one
    opens. *)
Definition withinWindow (calls : list (N * A)) : Prop :=
  match calls with
  | [] => False
  | c :: rest => follows c.1 c.1 rest
  end.

(** One timer is set: the one of the call made at [t] with [a]. *)
Definition armed (st : Loop) (t : N) (a : A) (w : World) : Prop :=
  ∃ id, pending st = [mkTimer id (t + wait) a] ∧ timeout st = Some id
        ∧ now st = t ∧ world st = w.

(** A loop without timers. *)
Definition idle (w : World) : Loop := mkLoop 0 0 [] None w.

End Debounce.

(** [updateParticipantStatus: Utils.debounce(async function ..., 500)]. *)
Definition statusArgs : Type := jsstring * jsstring * jsstring.

Definition updateParticipantStatus_func (a : statusArgs) : M unit :=
  FirebaseService.writeParticipantStatus a.1.1 a.1.2 a.2.

Definition updateParticipantStatus_wait : N := 500.

Definition updateParticipantStatus (st : Loop) (call : N * statusArgs) : Loop :=
  callAt updateParticipantStatus_func updateParticipantStatus_wait st call.

End Timers.

(** ** The serverless proxies *)

Module Proxy.
Import Js Store.

(** [s.includes(needle)]. *)
Fixpoint startsWith (needle s : jsstring) : bool :=
  match needle, s with
  | [], _ => true
  | _ :: _, [] => false
  | a :: needle', b :: s' => (a =? b) && startsWith needle' s'
  end.

Fixpoint includes (needle s : jsstring) : bool :=
  startsWith needle s
  || match s with [] => false | _ :: s' => includes needle s' end.

(** The body of a response: empty, an error object (with or without a
    [message]), or the success object of one of the functions. *)
Inductive Payload :=
| NoBody
| ErrorPayload (error : jsstring) (message : option jsstring)
| ThemesPayload (themes usage : Json)
| TranscriptPayload (transcript duration : Json).

Record Response := { statusCode : Z; payload : Payload }.

(** A call of the upstream API, with the delay after which the abort
    controller cancels it. *)
Record UpstreamCall := { url : jsstring; timeoutMs : Z }.

(** What the call comes to.  [fetch] rejects because the timer aborted it
    or for another reason; or the response is not [ok], and reading its
    body may throw; or it is [ok], and [data] is what reading and taking
    the body apart gives, a thrown error or the values; or the headers
    of a response arrive and its body never ends.  The handlers clear
    the timer as soon as [fetch] has settled, before they read the body:
    nothing aborts a read that stalls. *)
Inductive Reply (A : Type) :=
| Aborted
| Rejected (message : jsstring)
| ErrorStatus (bodyError : option jsstring)
| Success (data : jsstring + A)
| Stalled.
Arguments Aborted {A}.
Arguments Rejected {A} message.
Arguments ErrorStatus {A} bodyError.
Arguments Success {A} data.
Arguments Stalled {A}.

(** What a handler comes to: it returns a response, or its promise never
    settles. *)
Inductive Answer :=
| Responds (response : Response)
| Pending.

Coercion Responds : Response >-> Answer.

(** A pair is read against the type it is used at, so that a response
    stands for the answer that returns it. *)
#[local] Arguments pair {A B} & _ _.

(** [!process.env.OPENAI_API_KEY || process.env.OPENAI_API_KEY.includes('{{')] *)
Definition keyMissing (key : option jsstring) : bool :=
  match key with
  | None => true
  | Some k => falsy k || includes (str "{{") k
  end.

Definition methodNotAllowed : Response :=
  {| statusCode := 405;
     payload := ErrorPayload (str "Method not allowed") None |}.

Definition preflight : Response := {| statusCode := 204; payload := NoBody |}.

Definition failure (error message : jsstring) : Response :=
  {| statusCode := 500; payload := ErrorPayload error (Some message) |}.

(** *** openai-proxy.js *)

(** [JSON.parse(event.body)] taken apart: it throws, or gives the two
    properties, each possibly absent. *)
Inductive ThemeBody :=
| NotJson (message : jsstring)
| Parsed (prompt : option jsstring) (maxTokens : option Z).

Record ThemeEvent := { themeMethod : jsstring; themeBody : ThemeBody }.

(** The completion: [content] after [|| '[]'], and [JSON.parse(content)],
    [None] when it throws. *)
Record Completion := {
  content : jsstring;
  parsedContent : option Json;
  usage : Json
}.

(** [content.split('\n')] *)
Fixpoint splitLines (line : jsstring) (s : jsstring) : list jsstring :=
  match s with
  | [] => [line]
  | c :: s' =>
      if c =? 10 then line :: splitLines [] s' else splitLines (line ++ [c]) s'
  end.

(** [content.split('\n').filter(line => line.trim()).slice(0, 5)] *)
Definition themeLines (content : jsstring) : Json :=
  arr (JStr <$> take 5 (List.filter (fun line => negb (falsy (trim line)))
                          (splitLines [] content))).

Definition themesOfCompletion (c : Completion) : Json :=
  match parsedContent c with
  | Some themes => themes
  | None => themeLines (content c)
  end.

Definition openaiCall : UpstreamCall :=
  {| url := str "https://api.openai.com/v1/chat/completions";
     timeoutMs := 30000 |}.

Definition openaiFailure : jsstring → Response :=
  failure (str "Failed to generate themes").

Definition openaiHandler (key : option jsstring) (event : ThemeEvent)
    (reply : Reply Completion) : Answer * list UpstreamCall :=
  if bool_decide (themeMethod event = str "OPTIONS") then (preflight, [])
  else if negb (bool_decide (themeMethod event = str "POST"))
  then (methodNotAllowed, [])
  else if keyMissing key
  then (openaiFailure (str "OpenAI API key not configured"), [])
  else
    match themeBody event with
    | NotJson message => (openaiFailure message, [])
    | Parsed prompt maxTokens =>
        if falsy (default [] prompt)
        then ({| statusCode := 400;
                 payload := ErrorPayload (str "Prompt is required") None |}, [])
        else
          (match reply with
           | Aborted =>
               openaiFailure
                 (str "Request timeout - OpenAI API took too long to respond")
           | Rejected message => openaiFailure message
           | ErrorStatus (Some message) => openaiFailure message
           | ErrorStatus None => openaiFailure (str "OpenAI API request failed")
           | Success (inl message) => openaiFailure message
           | Success (inr completion) =>
               {| statusCode := 200;
                  payload := ThemesPayload (themesOfCompletion completion)
                               (usage completion) |}
           | Stalled => Pending
           end,
           [openaiCall])
    end.

(** *** whisper-proxy.js *)

(** [body] is [None] when [event.body] is not a string, which makes
    [Buffer.from] throw. *)
Record AudioEvent := {
  audioMethod : jsstring;
  contentType : option jsstring;
  audioBody : option jsstring
}.

Definition whisperCall : UpstreamCall :=
  {| url := str "https://api.openai.com/v1/audio/transcriptions";
     timeoutMs := 60000 |}.

Definition whisperFailure : jsstring → Response :=
  failure (str "Failed to transcribe audio").

Definition whisperHandler (key : option jsstring) (event : AudioEvent)
    (reply : Reply (Json * Json)) : Answer * list UpstreamCall :=
  if bool_decide (audioMethod event = str "OPTIONS") then (preflight, [])
  else if negb (bool_decide (audioMethod event = str "POST"))
  then (methodNotAllowed, [])
  else if keyMissing key
  then (whisperFailure (str "OpenAI API key not configured"), [])
  else if negb (includes (str "multipart/form-data") (default [] (contentType event)))
  then ({| statusCode := 400;
           payload := ErrorPayload
                        (str "Content-Type must be multipart/form-data") None |},
        [])
  else
    match audioBody event with
    | None => (whisperFailure (str "TypeError: the first argument must be a string"), [])
    | Some audio =>
        (match reply with
         | Aborted =>
             whisperFailure
               (str "Request timeout - audio transcription took too long")
         | Rejected message => whisperFailure message
         | ErrorStatus (Some message) => whisperFailure message
         | ErrorStatus None => whisperFailure (str "Whisper API request failed")
         | Success (inl message) => whisperFailure message
         | Success (inr (text, duration)) =>
             {| statusCode := 200;
                payload := TranscriptPayload text duration |}
         | Stalled => Pending
         end,
         [whisperCall])
    end.

(** A POST request passes the checks made before the upstream call. *)
Definition themeRequestValid (key : option jsstring) (event : ThemeEvent) : bool :=
  negb (keyMissing key)
  && match themeBody event with
     | Parsed prompt _ => negb (falsy (default [] prompt))
     | NotJson _ => false
     end.

Definition audioRequestValid (key : option jsstring) (event : AudioEvent) : bool :=
  negb (keyMissing key)
  && includes (str "multipart/form-data") (default [] (contentType event))
  && bool_decide (is_Some (audioBody event)).

Definition isSuccess {A} (reply : Reply A) : bool :=
  match reply with Success (inr _) => true | _ => false end.

Definition isErrorWithMessage (r : Response) : bool :=
  match payload r with ErrorPayload _ (Some _) => true | _ => false end.

Definition isSuccessBody (r : Response) : bool :=
  match payload r with
  | ThemesPayload _ _ | TranscriptPayload _ _ => true
  | _ => false
  end.

End Proxy.

(** ** Sample worlds *)

Module Samples.
Import Js Store Eff FirebaseService.

(** A connected, empty store that accepts every request. *)
Definition fresh : World := mkWorld (Some JNull) [] [] 1700000000000%Z 0 [].

Definition code1 : jsstring := str "ABC234".

(** The store after a facilitator created the session [code1]. *)
Definition created : World := (createSession code1 (str "f1") (str "Ann") fresh).2.

(** The same, with the coming requests accepted or rejected as listed. *)
Definition createdWith (rejections : list bool) : World :=
  mkWorld (database created) rejections [] (clock created) (pushed created) [].

(** The session [code1] created and then ended. *)
Definition ended : World := (endSession code1 created).2.

(** A session mirror, and a store that holds three transcripts of phase 0
    at tables 1, 2 and 1, and one of phase 1. *)
Definition session1 : Json := get [str "sessions"; code1] (default JNull (database created)).

Definition recorded : World :=
  callAll
    [ SaveTranscript code1 1 0 (str "first") 10;
      SaveTranscript code1 2 0 (str "second") 11;
      SaveTranscript code1 1 0 (str "third") 12;
      SaveTranscript code1 3 1 (str "later") 13 ]
    created.


End Samples.

(** ** What the store holds, as the pages read it *)

Module Views.
Import Js Store Eff.

(** The value at a path string, [null] while the store is not connected. *)
Definition valueAt (path : jsstring) (w : World) : Json :=
  match database w with
  | Some db => get (segments path) db
  | None => JNull
  end.

(** The participant records of a session, by participant id. *)
Definition participants (sessionCode : jsstring) (w : World)
  : gmap jsstring Json :=
  children (valueAt (str "sessions/" ++ sessionCode ++ str "/participants") w).

(** The transcripts of a session, by key. *)
Definition transcripts (sessionCode : jsstring) (w : World)
  : gmap jsstring Json :=
  children (valueAt (str "transcripts/" ++ sessionCode) w).

End Views.

(** ** More of the utility object: throttle, retry and the colour theme *)

Module Helpers.
Import Js Store Eff.

(** *** Trains of calls *)

Section Calls.
Context {A : Type}.
Variable wait : N.

(** Every call comes less than [wait] after the call before it. *)
Fixpoint burst (prev : N) (calls : list (N * A)) : Prop :=
  match calls with
  | [] => True
  | c :: rest => prev ≤ c.1 ∧ c.1 < prev + wait ∧ burst c.1 rest
  end.

(** Every call comes [wait] or more after the call before it. *)
Fixpoint spaced (prev : N) (calls : list (N * A)) : Prop :=
  match calls with
  | [] => True
  | c :: rest => prev + wait ≤ c.1 ∧ spaced c.1 rest
  end.

End Calls.

(** *** throttle *)

Section Throttle.
Context {A : Type}.
Variable func : A → M unit.
Variable limit : N.

(** The clock in milliseconds, the closure variable [inThrottle] of the
    wrapper ([undefined] reads as [false]), the times at which the
    timers that reset it are due, and the world. *)
Record Throttled := mkThrottled {
  time : N;
  inThrottle : bool;
  resets : list N;
  env : World
}.

(** A call of the throttled function.  When [func] throws, the two
    statements after it do not run. *)
Definition throttledFunction (a : A) (st : Throttled) : Throttled :=
  if inThrottle st then st
  else
    match func a (env st) with
    | (Normal _, w) =>
        mkThrottled (time st) true (resets st ++ [time st + limit]) w
    | (Throw _, w) => mkThrottled (time st) (inThrottle st) (resets st) w
    end.

(** Time passes until [t]: the timers that are due by then have run. *)
Definition elapse (t : N) (st : Throttled) : Throttled :=
  mkThrottled (N.max (time st) t)
    (if existsb (fun due => due <=? t) (resets st) then false else inThrottle st)
    (List.filter (fun due => negb (due <=? t)) (resets st))
    (env st).

(** The throttled function is called at time [t]. *)
Definition throttledAt (st : Throttled) (call : N * A) : Throttled :=
  throttledFunction call.2 (elapse call.1 st).

(** A wrapper that was just made. *)
Definition unthrottled (w : World) : Throttled := mkThrottled 0 false [] w.

(** The calls [calls] follow a call made at [start], in the order of
    their times, all before [start + limit]. *)
Fixpoint inWindow (start prev : N) (calls : list (N * A)) : Prop :=
  match calls with
  | [] => True
  | c :: rest => prev ≤ c.1 ∧ c.1 < start + limit ∧ inWindow start c.1 rest
  end.

(** The wrapper after a call at [t] that ran: the flag is set and one
    timer will reset it. *)
Definition engaged_at (st : Throttled) (t : N) (w : World) : Prop :=
  inThrottle st = true ∧ resets st = [t + limit] ∧ env st = w ∧ t ≤ time st.

End Throttle.

(** *** retry *)

Definition RECONNECT_ATTEMPTS : nat := 3.
Definition RECONNECT_DELAY : Z := 2000.

Section Retry.
Context {A : Type}.

(** The awaited operation. *)
Variable fn : M A.

(** The loop from [attempt] on, with [remaining] attempts to go.  The
    result is what the promise settles to ([None] is [undefined], the
    value when the loop body never ran), the world after the last
    attempt, and the delays slept through, in order.  A delay is the
    product of [delay] and a power of two. *)
Fixpoint retry_from (delay : Z) (attempt remaining : nat) (w : World)
  : Completion (option A) * World * list Z :=
  match remaining with
  | O => (Normal None, w, [])
  | S remaining' =>
      match fn w with
      | (Normal a, w') => (Normal (Some a), w', [])
      | (Throw error, w') =>
          match remaining' with
          | O => (Throw error, w', [])
          | S _ =>
              let waitTime := (delay * 2 ^ (Z.of_nat attempt - 1))%Z in
              let '(r, w'', waits) := retry_from delay (S attempt) remaining' w' in
              (r, w'', waitTime :: waits)
          end
      end
  end.

Definition retry (maxAttempts : nat) (delay : Z) (w : World)
  : Completion (option A) * World * list Z :=
  retry_from delay 1 maxAttempts w.

End Retry.

(** The delays of a run of [n] failed attempts that starts at
    [attempt]. *)
Definition schedule (delay : Z) (attempt n : nat) : list Z :=
  (fun k => (delay * 2 ^ (Z.of_nat k - 1))%Z) <$> seq attempt n.

(** The sum of the delays. *)
Definition total (waits : list Z) : Z := foldr Z.add 0%Z waits.

(** *** The colour theme *)

(** [localStorage]: what it holds under the key 'theme', and whether
    reading or writing throws. *)
Record Storage := mkStorage {
  savedTheme : option jsstring;
  readThrows : bool;
  writeThrows : bool
}.

(** The attribute [data-theme] of the document element, and the
    storage. *)
Record ThemePage := mkThemePage {
  dataTheme : option jsstring;
  storage : Storage
}.

Definition setItem (theme : jsstring) (s : Storage) : Storage :=
  if writeThrows s then s
  else mkStorage (Some theme) (readThrows s) (writeThrows s).

Definition setTheme (theme : jsstring) (p : ThemePage) : ThemePage :=
  mkThemePage (Some theme) (setItem theme (storage p)).

(** [prefersDark] is the answer of [matchMedia], [None] when the call
    throws. *)
Definition initTheme (prefersDark : option bool) (p : ThemePage) : ThemePage :=
  let fallback := mkThemePage (Some (str "light")) (storage p) in
  if readThrows (storage p) then fallback
  else
    match prefersDark with
    | None => fallback
    | Some dark =>
        let saved := default [] (savedTheme (storage p)) in
        let theme :=
          if falsy saved then (if dark then str "dark" else str "light")
          else saved in
        setTheme theme p
    end.

Definition toggleTheme (p : ThemePage) : jsstring * ThemePage :=
  let attribute := default [] (dataTheme p) in
  let currentTheme := if falsy attribute then str "light" else attribute in
  let newTheme :=
    if bool_decide (currentTheme = str "light") then str "dark" else str "light" in
  (newTheme, setTheme newTheme p).

(** The page after a reload: the attribute is gone, the storage stays. *)
Definition reload (p : ThemePage) : ThemePage := mkThemePage None (storage p).

End Helpers.

(** ** The facilitator page: phase changes and the countdown *)

Module Facilitator.
Import Js Store JsObject Eff FirebaseService Workshop.

(** [s.padStart(targetLength, pad)] for a pad string of one unit. *)
Definition padStart (targetLength : nat) (pad : N) (s : jsstring) : jsstring :=
  replicate (targetLength - length s) pad ++ s.

(** The element [timer-display]: its text and which of the classes
    'warning' and 'danger' it carries. *)
Inductive TimerClass := Plain | Warning | Danger.

Record TimerDisplay := mkTimerDisplay {
  textContent : jsstring;
  timerClass : TimerClass
}.

(** The module variables of the page, the handle that the next call of
    [setInterval] returns, the timer display ([None] when the page has
    none) and the world. *)
Record State := mkState {
  sessionData : option Json;
  timerInterval : option positive;
  timerSeconds : Z;
  nextInterval : positive;
  display : option TimerDisplay;
  world : World
}.

Definition timerText (timerSeconds : Z) : jsstring :=
  let minutes := (timerSeconds / 60)%Z in
  let seconds := Z.rem timerSeconds 60 in
  integer minutes ++ str ":" ++ padStart 2 48 (integer seconds).

Definition timerStyle (timerSeconds : Z) : TimerClass :=
  if ((timerSeconds <=? 60) && (0 <? timerSeconds))%Z then Danger
  else if ((timerSeconds <=? 120) && (60 <? timerSeconds))%Z then Warning
  else Plain.

Definition updateTimerDisplay (st : State) : State :=
  match display st with
  | None => st
  | Some _ =>
      mkState (sessionData st) (timerInterval st) (timerSeconds st)
        (nextInterval st)
        (Some (mkTimerDisplay (timerText (timerSeconds st))
                 (timerStyle (timerSeconds st))))
        (world st)
  end.

(** A call of the adapter that is not awaited: its request goes out at
    once and its result is dropped. *)
Definition notAwaited {A} (call : M A) (w : World) : World := (call w).2.

(** [if (sessionData) FirebaseService.updateTimer(sessionData.code, ...)] *)
Definition tellTimer (active : bool) (duration : Z) (st : State) : World :=
  match sessionData st with
  | Some session => notAwaited (updateTimer (genCode session) active duration) (world st)
  | None => world st
  end.

Definition stopTimer (st : State) : State :=
  let w := tellTimer false 0 st in
  updateTimerDisplay
    (mkState (sessionData st) None 0 (nextInterval st) (display st)
       (notAwaited (addActivity (str "Timer stopped")) w)).

(** The callback of the interval. *)
Definition tickCallback (st : State) : State :=
  let st :=
    updateTimerDisplay
      (mkState (sessionData st) (timerInterval st) (timerSeconds st - 1)
         (nextInterval st) (display st) (world st)) in
  if (timerSeconds st <=? 0)%Z
  then
    let st := stopTimer st in
    mkState (sessionData st) (timerInterval st) (timerSeconds st)
      (nextInterval st) (display st)
      (notAwaited (showSuccess (str "Timer finished!");;
                   addActivity (str "Timer finished")) (world st))
  else st.

(** A second passes: the interval fires when it is set. *)
Definition tick (st : State) : State :=
  match timerInterval st with
  | Some _ => tickCallback st
  | None => st
  end.

Definition startTimer (seconds : Z) (st : State) : State :=
  let st := match timerInterval st with Some _ => stopTimer st | None => st end in
  let st :=
    updateTimerDisplay
      (mkState (sessionData st) (timerInterval st) seconds (nextInterval st)
         (display st) (world st)) in
  let st :=
    mkState (sessionData st) (Some (nextInterval st)) (timerSeconds st)
      (Pos.succ (nextInterval st)) (display st) (world st) in
  let w := tellTimer true seconds st in
  mkState (sessionData st) (timerInterval st) (timerSeconds st)
    (nextInterval st) (display st)
    (notAwaited
       (addActivity (str "Timer started: " ++ integer (seconds / 60) ++ str " minutes"))
       w).

(** The store request of an event. *)
Definition requestOf (e : Event) : option StoreOp :=
  match e with StoreRequest op _ => Some op | _ => None end.

Definition timerFields (active : bool) (duration : Z) : list (jsstring * Json) :=
  [ (str "timerActive", JBool active); (str "timerDuration", JNum duration) ].

(** [newPhase + 1] *)
Definition plusOne (n : Number) : Number :=
  match n with Int z => Int (z + 1) | NaN => NaN end.

(** [FirebaseService.updatePhase] on the number [parseInt] gave: the
    store refuses to write [NaN], [set] throws before it sends and the
    adapter answers [false]. *)
Definition updatePhaseTo (sessionCode : jsstring) (newPhase : Number) : M Json :=
  match newPhase with
  | Int z => updatePhase sessionCode z
  | NaN =>
      tryCatch (throw (str "Error: set failed: value contains NaN"))
        (fun error => mret (JBool false))
  end.

(** [value] is [e.target.value], the chosen option of the phase
    selector. *)
Definition handlePhaseChange (value : jsstring) (sessionData : option Json)
  : M unit :=
  let newPhase := parseInt value in
  match sessionData with
  | None => mret ()
  | Some session =>
      updatePhaseTo (genCode session) newPhase;;
      addActivity (str "Phase changed to " ++ numberToString (plusOne newPhase));;
      showSuccess (str "Moved to Phase " ++ numberToString (plusOne newPhase));;
      trackEvent (str "workshop") (str "phase_change")
        (str "phase_" ++ numberToString newPhase)
  end.

Definition phaseChanged (newPhase : Number) : list Event :=
  [ Activity (str "Phase changed to " ++ numberToString (plusOne newPhase));
    Toast SuccessToast (str "Moved to Phase " ++ numberToString (plusOne newPhase));
    Track (str "workshop") (str "phase_change")
      (str "phase_" ++ numberToString newPhase) ].

End Facilitator.

(** ** More sample worlds *)

Module MoreSamples.
Import Js Store Eff FirebaseService Workshop Facilitator Samples.

(** The facilitator page of the session [code1], no countdown running. *)
Definition page1 : State :=
  mkState (Some session1) None 0 1 (Some (mkTimerDisplay [] Plain)) created.

(** A store in which a transcript of phase 0 is filed under a table
    number that is the name of an inherited property. *)
Definition oddTable : World :=
  mkWorld
    (Some (Store.set [str "transcripts"; code1; str "-N0"]
             (obj [ (str "sessionCode", JStr code1);
                    (str "tableNumber", JStr (str "constructor"));
                    (str "phaseIndex", JNum 0);
                    (str "transcript", JStr (str "we talked")) ])
             (default JNull (database created))))
    [] [] (clock created) 1 [].

End MoreSamples.

(** ** firebase.js: initialisation and listeners *)

Module Client.
Import Js Store Eff.

(** *** init *)

(** What the SDK does when [init] reaches it: [initializeApp] throws;
    [firebase.database()] throws; the connection test rejects; or all
    three succeed. *)
Inductive Sdk := InitializeThrows | DatabaseThrows | TestRejects | Ready.

(** The module variable [firebaseApp] (is it set?) and the world, whose
    database is the module variable [database]. *)
Record App := mkApp { firebaseApp : bool; page : World }.

(** [Object.values(CONFIG.FIREBASE).some(value => value.includes('{{'))] *)
Definition hasPlaceholders (config : list jsstring) : bool :=
  existsb (Proxy.includes (str "{{")) config.

Definition connecting : Event := Loading true (str "Connecting to database...").

Definition connectFailed : list Event :=
  [ Toast ErrorToast (str "Failed to connect to database. Please refresh the page.");
    Track (str "error") (str "user_error")
      (str "Failed to connect to database. Please refresh the page.");
    Loading false (str "Loading...") ].

(** [config] holds the values of [CONFIG.FIREBASE], [remote] what the
    store holds when the client connects. *)
Definition init (config : list jsstring) (sdk : Sdk) (remote : Json) (st : App)
  : bool * App :=
  if firebaseApp st then (true, st)
  else
    let w := logged [connecting] (page st) in
    if hasPlaceholders config
    then (false, mkApp false (logged connectFailed w))
    else
      match sdk with
      | InitializeThrows => (false, mkApp false (logged connectFailed w))
      | DatabaseThrows => (false, mkApp true (logged connectFailed w))
      | TestRejects => (false, mkApp true (logged connectFailed (stored remote w)))
      | Ready =>
          (true,
           mkApp true (logged [Loading false (str "Loading...")] (stored remote w)))
      end.

(** *** Listeners *)

Inductive ListenEvent := Value | ChildAdded | ChildRemoved.

(** A listener: the location, the event type and the identity of the
    callback function. *)
Record Listener := mkListener {
  ref : jsstring;
  event : ListenEvent;
  callback : N
}.

#[export] Instance ListenEvent_eq_dec : EqDecision ListenEvent.
Proof. solve_decision. Defined.

#[export] Instance Listener_eq_dec : EqDecision Listener.
Proof. solve_decision. Defined.

(** The listeners the client library holds, the module array
    [activeListeners], and the identity of the next function created. *)
Record Subscriptions := mkSubscriptions {
  registered : list Listener;
  activeListeners : list Listener;
  nextCallback : N
}.

(** [ref.on(event, callback)] with a new function; it returns the
    function. *)
Definition on (path : jsstring) (ev : ListenEvent) (st : Subscriptions)
  : Listener * Subscriptions :=
  let l := mkListener path ev (nextCallback st) in
  (l, mkSubscriptions (registered st ++ [l]) (activeListeners st)
        (nextCallback st + 1)).

(** [ref.off(event, callback)] *)
Definition off (st : Subscriptions) (l : Listener) : Subscriptions :=
  mkSubscriptions (List.filter (fun l' => negb (bool_decide (l' = l))) (registered st))
    (activeListeners st) (nextCallback st).

Definition pushListeners (ls : list Listener) (st : Subscriptions) : Subscriptions :=
  mkSubscriptions (registered st) (activeListeners st ++ ls) (nextCallback st).

Section Connected.
  (** Is the module variable [database] set?  [database.ref] throws on
      [null], and on a path string that the client library refuses. *)
Variable connected : bool.

Definition refThrows (path : jsstring) : bool :=
  negb connected || negb (validPathString path).

(** Each function returns the listeners that the function it hands back
    will remove; [None] when it throws. *)
Definition listenToSession (sessionCode : jsstring) (st : Subscriptions)
  : option (list Listener * Subscriptions) :=
  let path := str "sessions/" ++ sessionCode in
  if refThrows path then None
  else
    let '(listener, st) := on path Value st in
    Some ([listener], pushListeners [listener] st).

Definition listenToParticipants (sessionCode : jsstring) (st : Subscriptions)
  : option (list Listener * Subscriptions) :=
  let path := str "sessions/" ++ sessionCode ++ str "/participants" in
  if refThrows path then None
  else
    let '(addedListener, st) := on path ChildAdded st in
    let '(removedListener, st) := on path ChildRemoved st in
    Some ([addedListener; removedListener],
          pushListeners [addedListener; removedListener] st).

Definition listenToThemes (sessionCode : jsstring) (st : Subscriptions)
  : option (list Listener * Subscriptions) :=
  let path := str "themes/" ++ sessionCode in
  if refThrows path then None
  else
    let '(listener, st) := on path Value st in
    Some ([listener], pushListeners [listener] st).

End Connected.

(** The function a [listenTo...] call handed back. *)
Definition unsubscribe (handle : list Listener) (st : Subscriptions) : Subscriptions :=
  foldl off st handle.

Definition cleanup (st : Subscriptions) : Subscriptions :=
  let st := foldl off st (activeListeners st) in
  mkSubscriptions (registered st) [] (nextCallback st).

(** What a page does with the listeners, in order: it starts listening,
    calls the [i]-th function handed back so far, or cleans up. *)
Inductive Call :=
| ListenToSession (sessionCode : jsstring)
| ListenToParticipants (sessionCode : jsstring)
| ListenToThemes (sessionCode : jsstring)
| Unsubscribe (i : nat)
| Cleanup.

Definition step (connected : bool) (acc : Subscriptions * list (list Listener))
    (c : Call) : Subscriptions * list (list Listener) :=
  let '(st, handles) := acc in
  let listen r :=
    match r with
    | Some (handle, st') => (st', handles ++ [handle])
    | None => (st, handles)
    end in
  match c with
  | ListenToSession code => listen (listenToSession connected code st)
  | ListenToParticipants code => listen (listenToParticipants connected code st)
  | ListenToThemes code => listen (listenToThemes connected code st)
  | Unsubscribe i => (unsubscribe (default [] (handles !! i)) st, handles)
  | Cleanup => (cleanup st, handles)
  end.

Definition run (connected : bool) (calls : list Call)
  : Subscriptions * list (list Listener) :=
  foldl (step connected) (mkSubscriptions [] [] 0, []) calls.

(** The listeners the library holds are in the module array. *)
Definition tracked (st : Subscriptions) : Prop :=
  ∀ l, l ∈ registered st → l ∈ activeListeners st.

(** The listeners of the functions handed back are in the module array. *)
Definition held (acc : Subscriptions * list (list Listener)) : Prop :=
  ∀ handle l, handle ∈ acc.2 → l ∈ handle → l ∈ activeListeners acc.1.

End Client.

(** ** The write of each operation *)

Module Writes.
Import Js Store Eff FirebaseService.

(** The records that [createSession] and [saveTranscript] build. *)
Definition sessionData (sessionCode facilitatorId facilitatorName : jsstring)
    (now : Z) : Json :=
  obj [ (str "code", JStr sessionCode);
        (str "facilitatorId", JStr facilitatorId);
        (str "facilitatorName", JStr facilitatorName);
        (str "createdAt", JNum now);
        (str "phase", JNum 0);
        (str "timerActive", JBool false);
        (str "timerDuration", JNum 0);
        (str "status", JStr (str "active")) ].

Definition transcriptData (sessionCode : jsstring) (tableNumber phaseIndex : Z)
    (transcript : jsstring) (duration now : Z) : Json :=
  obj [ (str "sessionCode", JStr sessionCode);
        (str "tableNumber", JNum tableNumber);
        (str "phaseIndex", JNum phaseIndex);
        (str "transcript", JStr transcript);
        (str "duration", JNum duration);
        (str "timestamp", JNum now) ].







End Writes.

(** ** Sample worlds of the theme generation *)

Module ThemeSamples.
Import Js Store Eff FirebaseService Samples.




(** A page whose store is not connected. *)
Definition offline : World := mkWorld None [] [] (clock created) 0 [].

End ThemeSamples.

(** * Properties *)

(** ** Validators and code generation *)

Module UtilsFacts.
Import Js Utils.

Example validateRoomCode_sample :
  validateRoomCode asciiUpper (str "  ab-c2 3x ") = Accepted (str "ABC23X").
Proof. reflexivity. Qed.

Example validateParticipantName_sample :
  validateParticipantName (str " Ann <b>O'Neil</b> ") = Accepted (str "Ann bO'Neilb").
Proof. reflexivity. Qed.

Lemma strip_all keep s : Forall (fun c => keep c = true) (strip keep s).
Proof.
  apply List.Forall_forall. intros c Hc.
  apply List.filter_In in Hc. tauto.
Qed.

Lemma strip_id keep s : Forall (fun c => keep c = true) s → strip keep s = s.
Proof.
  unfold strip. induction 1 as [|c s Hc _ IH]; simpl; [done|].
  by rewrite Hc, IH.
Qed.

Lemma strip_length keep s : (length (strip keep s) ≤ length s)%nat.
Proof. apply List.filter_length_le. Qed.

Lemma isCodeChar_range c : isCodeChar c = true → 48 ≤ c ≤ 57 ∨ 65 ≤ c ≤ 90.
Proof.
  unfold isCodeChar, isUpper, isDigit. intros H.
  apply orb_true_iff in H as [H|H];
    apply andb_true_iff in H as [H1 H2];
    apply N.leb_le in H1, H2; lia.
Qed.

Ltac range_false :=
  repeat match goal with
    | |- (_ || _) = false => apply orb_false_intro
    | |- (_ =? _) = false => apply N.eqb_neq; lia
    | |- (_ && _) = false =>
        apply andb_false_iff;
        first [left; apply N.leb_gt; lia | right; apply N.leb_gt; lia]
    end.

Lemma isCodeChar_not_space c : isCodeChar c = true → isWhiteSpace c = false.
Proof.
  intros H%isCodeChar_range. unfold isWhiteSpace. range_false.
Qed.

Lemma trimStart_no_space c s : isWhiteSpace c = false → trimStart (c :: s) = c :: s.
Proof. intros H. simpl. by rewrite H. Qed.

Lemma trimStart_code s :
  Forall (fun c => isCodeChar c = true) s → trimStart s = s.
Proof.
  destruct 1 as [|c s Hc _]; [done|].
  by apply trimStart_no_space, isCodeChar_not_space.
Qed.

Lemma trim_code s : Forall (fun c => isCodeChar c = true) s → trim s = s.
Proof.
  intros H. unfold trim, trimEnd. rewrite (trimStart_code s H).
  rewrite trimStart_code; [apply reverse_involutive|].
  by apply Forall_reverse.
Qed.

Lemma asciiUpper_code s :
  Forall (fun c => isCodeChar c = true) s → asciiUpper s = s.
Proof.
  unfold asciiUpper. induction 1 as [|c s Hc _ IH]; [done|].
  rewrite fmap_cons, IH. f_equal.
  apply isCodeChar_range in Hc.
  assert (isLower c = false) as ->; [|done].
  unfold isLower. range_false.
Qed.

Section RoomCode.
Variable toUpperCase : jsstring → jsstring.
Hypothesis toUpperCase_code :
  ∀ s, Forall (fun c => isCodeChar c = true) s → toUpperCase s = s.

(** A string of the right length over [A-Z0-9] is returned as it is. *)
Lemma validateRoomCode_fixes s :
  Forall (fun c => isCodeChar c = true) s →
  length s = CONFIG.APP.SESSION_CODE_LENGTH →
  validateRoomCode toUpperCase s = Accepted s.
Proof.
  intros Hs Hlen. unfold validateRoomCode.
  destruct s as [|c s']; [done|]. cbn [falsy].
  rewrite (trim_code _ Hs), (toUpperCase_code _ Hs), (strip_id _ _ Hs), Hlen.
  by rewrite Nat.eqb_refl.
Qed.

(** What an accepted code looks like. *)
Lemma validateRoomCode_accepted code s :
  validateRoomCode toUpperCase code = Accepted s →
  s = strip isCodeChar (toUpperCase (trim code))
  ∧ Forall (fun c => isCodeChar c = true) s
  ∧ length s = CONFIG.APP.SESSION_CODE_LENGTH.
Proof.
  unfold validateRoomCode. destruct (falsy code); [done|].
  destruct (Nat.eqb_spec (length (strip isCodeChar (toUpperCase (trim code))))
              CONFIG.APP.SESSION_CODE_LENGTH) as [Hlen|]; [|done].
  simpl. intros [= <-]. split_and!; [done|apply strip_all|done].
Qed.

(** The room-code validator is idempotent: re-validating an accepted code
    accepts it and returns it unchanged. *)
Lemma validateRoomCode_idempotent code s :
  validateRoomCode toUpperCase code = Accepted s →
  validateRoomCode toUpperCase s = Accepted s.
Proof.
  intros (_ & Hs & Hlen)%validateRoomCode_accepted.
  by apply validateRoomCode_fixes.
Qed.

(** The room-code validator refuses every input whose sanitized form does
    not have the configured length, and what it accepts contains no
    character outside [A-Z0-9]. *)
Lemma validateRoomCode_refuses code :
  length (strip isCodeChar (toUpperCase (trim code))) ≠ CONFIG.APP.SESSION_CODE_LENGTH →
  ∃ message, validateRoomCode toUpperCase code = Refused message.
Proof.
  intros Hlen. unfold validateRoomCode. destruct (falsy code); [by eexists|].
  destruct (Nat.eqb_spec (length (strip isCodeChar (toUpperCase (trim code))))
              CONFIG.APP.SESSION_CODE_LENGTH); [done|by eexists].
Qed.

End RoomCode.

(** The name validator refuses names whose trimmed, truncated form is
    shorter than the minimum, and strips the characters outside its
    alphabet from what it accepts. *)
Lemma validateParticipantName_accepted name s :
  validateParticipantName name = Accepted s →
  (CONFIG.APP.MIN_NAME_LENGTH ≤ length (trim name))%nat
  ∧ s = strip isNameChar (strip notAngle
          (substring0 CONFIG.APP.MAX_NAME_LENGTH (trim name)))
  ∧ Forall (fun c => isNameChar c = true ∧ notAngle c = true) s
  ∧ (length s ≤ CONFIG.APP.MAX_NAME_LENGTH)%nat.
Proof.
  unfold validateParticipantName. destruct (falsy name); [done|].
  assert (length (substring0 CONFIG.APP.MAX_NAME_LENGTH (trim name))
          = CONFIG.APP.MAX_NAME_LENGTH `min` length (trim name))%nat as Htake
    by apply length_take.
  generalize dependent (substring0 CONFIG.APP.MAX_NAME_LENGTH (trim name)).
  intros t Htake.
  destruct (Nat.ltb_spec (length t) CONFIG.APP.MIN_NAME_LENGTH) as [|Hlen];
    [done|].
  intros [= <-].
  pose proof (strip_length isNameChar (strip notAngle t)).
  pose proof (strip_length notAngle t).
  split_and!; [lia|done| |lia].
  apply List.Forall_forall. intros c Hc.
  apply List.filter_In in Hc as [Hc Hname].
  apply List.filter_In in Hc as [_ Hangle]. done.
Qed.

(** Re-validation is the identity on the accepted names that still have
    the minimum length and no white space at either end. *)
Lemma validateParticipantName_stable name s :
  validateParticipantName name = Accepted s →
  (CONFIG.APP.MIN_NAME_LENGTH ≤ length s)%nat →
  trim s = s →
  validateParticipantName s = Accepted s.
Proof.
  intros (_ & _ & Hs & Hmax)%validateParticipantName_accepted Hmin Htrim.
  unfold validateParticipantName.
  destruct s as [|c s']; [simpl in Hmin; unfold CONFIG.APP.MIN_NAME_LENGTH in Hmin; lia|].
  cbn [falsy]. rewrite Htrim. unfold substring0.
  rewrite take_ge by done.
  destruct (Nat.ltb_spec (length (c :: s')) CONFIG.APP.MIN_NAME_LENGTH); [lia|].
  f_equal. rewrite (strip_id notAngle).
  - apply strip_id. eapply Forall_impl; [exact Hs|]. by intros c' [Hc' _].
  - eapply Forall_impl; [exact Hs|]. by intros c' [_ Hc'].
Qed.

(** C3. The name validator is not idempotent: it checks the length before
    it strips, so ["<<a"] is accepted as the one-character name ["a"],
    which the validator itself refuses as too short; and stripping can
    uncover white space at the end (["ab <"] gives ["ab "]), which a
    second pass trims to a different string. *)
Theorem validateParticipantName_reapplied :
  validateParticipantName (str "<<a") = Accepted (str "a")
  ∧ validateParticipantName (str "a")
    = Refused (str "Name must be at least 2 characters")
  ∧ validateParticipantName (str "ab <") = Accepted (str "ab ")
  ∧ validateParticipantName (str "ab ") = Accepted (str "ab").
Proof. by vm_compute. Qed.

(** *** Generated codes *)

Lemma chars_code : Forall (fun c => isCodeChar c = true ∧ c ∉ str "IO01") chars.
Proof.
  unfold chars. vm_compute str.
  repeat (apply Forall_cons; split;
          [split; [reflexivity
                  | rewrite !elem_of_cons, elem_of_nil; intros H;
                    repeat destruct H as [H|H]; done] |]).
  apply Forall_nil_2.
Qed.

Lemma unit_interval_index (r : Q) :
  (0 <= r)%Q → (r < 1)%Q →
  (0 ≤ Qfloor (r * inject_Z (Z.of_nat (length chars))) < 32)%Z.
Proof.
  intros H0 H1. change (Z.of_nat (length chars)) with 32%Z. split.
  - change 0%Z with (Qfloor 0). apply Qfloor_resp_le.
    apply Qmult_le_0_compat; [done|]. by vm_compute.
  - apply Z.lt_nge. intros Hge.
    assert (inject_Z 32 <= r * inject_Z 32)%Q as Hle.
    { eapply Qle_trans; [|apply Qfloor_le]. by rewrite <- Zle_Qle. }
    assert (r * inject_Z 32 < 1 * inject_Z 32)%Q as Hlt.
    { apply Qmult_lt_compat_r; [by vm_compute|done]. }
    rewrite Qmult_1_l in Hlt. by apply Qle_not_lt in Hle.
Qed.

Lemma charAt_chars i :
  (0 ≤ i < 32)%Z → ∃ c, charAt chars i = [c] ∧ c ∈ chars.
Proof.
  intros Hi. unfold charAt. destruct (Z.ltb_spec i 0); [lia|].
  destruct (chars !! Z.to_nat i) as [c|] eqn:Hc.
  - exists c. split; [done|]. by eapply list_elem_of_lookup_2.
  - apply lookup_ge_None in Hc. change (length chars) with 32%nat in Hc. lia.
Qed.

Lemma generateRoomCode_loop_spec random i n code :
  (∀ k, (0 <= random k)%Q ∧ (random k < 1)%Q) →
  Forall (fun c => c ∈ chars) code →
  Forall (fun c => c ∈ chars) (generateRoomCode_loop random i n code)
  ∧ length (generateRoomCode_loop random i n code) = (length code + n)%nat.
Proof.
  intros Hr. revert i code.
  induction n as [|n IH]; intros i code Hcode; cbn [generateRoomCode_loop].
  - split; [done|lia].
  - destruct (charAt_chars (Qfloor (random i * inject_Z (Z.of_nat (length chars)))))
      as (c & -> & Hc).
    { apply unit_interval_index; apply Hr. }
    destruct (IH (S i) (code ++ [c])) as [Hall Hlen].
    { apply Forall_app; split; [done|]. by apply Forall_singleton. }
    split; [done|]. rewrite Hlen, length_app. simpl. lia.
Qed.

(** C10. Every generated code has six characters of the alphabet [A-Z0-9]
    without I, O, 0 and 1, and the room-code validator accepts it and
    returns it unchanged. *)
Theorem generateRoomCode_validates
  (toUpperCase : jsstring → jsstring) (random : nat → Q) :
  (∀ s, Forall (fun c => isCodeChar c = true) s → toUpperCase s = s) →
  (∀ k, (0 <= random k)%Q ∧ (random k < 1)%Q) →
  validateRoomCode toUpperCase (generateRoomCode random)
  = Accepted (generateRoomCode random)
  ∧ length (generateRoomCode random) = CONFIG.APP.SESSION_CODE_LENGTH
  ∧ CONFIG.APP.SESSION_CODE_LENGTH = 6%nat
  ∧ Forall (fun c => c ∈ chars ∧ isCodeChar c = true ∧ c ∉ str "IO01")
      (generateRoomCode random).
Proof.
  intros Hup Hr.
  destruct (generateRoomCode_loop_spec random 0 CONFIG.APP.SESSION_CODE_LENGTH [] Hr)
    as [Hall Hlen]; [done|].
  fold (generateRoomCode random) in Hall, Hlen. simpl in Hlen.
  assert (Forall (fun c => c ∈ chars ∧ isCodeChar c = true ∧ c ∉ str "IO01")
            (generateRoomCode random)) as Hgood.
  { eapply Forall_impl; [exact Hall|]. intros c Hc. split; [done|].
    by apply (proj1 (Forall_forall _ _) chars_code). }
  split_and!; [|done|done|done].
  apply validateRoomCode_fixes; [done| |done].
  eapply Forall_impl; [exact Hgood|]. by intros c (_ & Hc & _).
Qed.

(** The round trip at a concrete source of random numbers, with the ASCII
    case mapping. *)
Lemma generateRoomCode_validates_witness :
  generateRoomCode (fun k => Z.of_nat (k * 7 mod 32) # 32) = str "AHQX6D"
  ∧ validateRoomCode asciiUpper (str "AHQX6D") = Accepted (str "AHQX6D").
Proof.
  pose proof (generateRoomCode_validates asciiUpper
                (fun k => Z.of_nat (k * 7 mod 32) # 32) asciiUpper_code) as H.
  split; [by vm_compute|].
  change (str "AHQX6D") with (generateRoomCode (fun k => Z.of_nat (k * 7 mod 32) # 32)).
  apply H. intros k. unfold Qle, Qlt. simpl.
  pose proof (Nat.mod_upper_bound (k * 7) 32). lia.
Defined.

End UtilsFacts.

(** ** The key-tree store *)

Module StoreFacts.
Import Js Store.

Example segments_sample :
  segments (str "sessions/ABC234//participants/p1/")
  = [str "sessions"; str "ABC234"; str "participants"; str "p1"].
Proof. reflexivity. Qed.

Example set_get_sample :
  get [str "a"; str "b"] (set [str "a"; str "b"] (JNum 3) JNull) = JNum 3
  ∧ set [str "a"; str "b"] JNull (set [str "a"; str "b"] (JNum 3) JNull) = JNull.
Proof. by vm_compute. Qed.

(** *** Path strings *)

Lemma pushPiece_app piece rest more :
  pushPiece piece (rest ++ more) = pushPiece piece rest ++ more.
Proof. unfold pushPiece. by destruct (falsy piece). Qed.

Lemma pieces_slash a b :
  pieces (a ++ slash :: b) = ((pieces a).1, (pieces a).2 ++ segments b).
Proof.
  induction a as [|c a IH]; simpl.
  - unfold segments. destruct (pieces b) as [piece rest].
    change (slash =? slash) with true. done.
  - rewrite IH. destruct (pieces a) as [piece rest]. simpl.
    destruct (c =? slash); [|done]. by rewrite pushPiece_app.
Qed.

(** Splitting distributes over joining with a slash. *)
Lemma segments_slash a b :
  segments (a ++ slash :: b) = segments a ++ segments b.
Proof.
  unfold segments at 1 2. rewrite pieces_slash.
  destruct (pieces a) as [piece rest]. simpl. apply pushPiece_app.
Qed.

Lemma pieces_key s : slash ∉ s → pieces s = (s, []).
Proof.
  induction s as [|c s IH]; [done|]. intros Hs. simpl.
  rewrite IH by (intros ?; apply Hs; by right).
  destruct (N.eqb_spec c slash) as [->|]; [|done].
  destruct Hs. by left.
Qed.

Lemma segments_key s : isKey s → segments s = [s].
Proof.
  intros [Hne Hs]. unfold segments. rewrite pieces_key by done.
  by destruct s.
Qed.

(** The paths the adapter builds. *)
Lemma segments_literal lit x :
  isKey lit → segments (lit ++ slash :: x) = lit :: segments x.
Proof. intros Hlit. by rewrite segments_slash, segments_key. Qed.

Lemma isKey_str_sessions : isKey (str "sessions").
Proof. split; [done|]. apply (bool_decide_unpack _); by vm_compute. Qed.

Lemma segments_sessions x :
  segments (str "sessions/" ++ x) = str "sessions" :: segments x.
Proof. apply (segments_literal (str "sessions")), isKey_str_sessions. Qed.

Lemma segments_themes x :
  segments (str "themes/" ++ x) = str "themes" :: segments x.
Proof.
  apply (segments_literal (str "themes")). split; [done|].
  apply (bool_decide_unpack _); by vm_compute.
Qed.

Lemma segments_transcripts x :
  segments (str "transcripts/" ++ x) = str "transcripts" :: segments x.
Proof.
  apply (segments_literal (str "transcripts")). split; [done|].
  apply (bool_decide_unpack _); by vm_compute.
Qed.

Lemma segments_session code :
  isKey code → segments (str "sessions/" ++ code) = [str "sessions"; code].
Proof. intros. by rewrite segments_sessions, segments_key. Qed.

(** A field of a session, and what lies below a session's participants. *)
Lemma segments_session_below code x :
  isKey code →
  segments (str "sessions/" ++ code ++ str "/" ++ x)
  = str "sessions" :: code :: segments x.
Proof.
  intros. rewrite segments_sessions.
  change (str "/" ++ x) with (slash :: x).
  by rewrite (segments_literal code x).
Qed.

Lemma segments_session_field code name :
  isKey code → isKey name →
  segments (str "sessions/" ++ code ++ str "/" ++ name)
  = [str "sessions"; code; name].
Proof. intros. by rewrite segments_session_below, segments_key. Qed.

Lemma segments_participant code id :
  isKey code →
  segments (str "sessions/" ++ code ++ str "/participants/" ++ id)
  = str "sessions" :: code :: str "participants" :: segments id.
Proof.
  intros.
  change (str "/participants/" ++ id) with (str "/" ++ str "participants/" ++ id).
  rewrite (segments_session_below code (str "participants/" ++ id)) by done.
  f_equal. f_equal.
  change (str "participants/" ++ id) with (str "participants" ++ slash :: id).
  apply (segments_literal (str "participants")).
  split; [done|]. apply (bool_decide_unpack _); by vm_compute.
Qed.

(** *** Reading after writing *)

Lemma get_null path : get path JNull = JNull.
Proof. induction path as [|k path IH]; [done|]. simpl. apply IH. Qed.

Lemma children_node m : children (node m) = m.
Proof.
  unfold node. destruct (Nat.eqb_spec (size m) 0) as [Hm|]; [|done].
  simpl. symmetry. by apply map_size_empty_iff.
Qed.

Lemma child_node_put k k' v m :
  child k' (node (put k v m))
  = if decide (k = k') then v else default JNull (m !! k').
Proof.
  unfold child. rewrite children_node. unfold put.
  destruct v; simpl; case_decide; subst;
    by rewrite ?lookup_delete_eq, ?lookup_delete_ne, ?lookup_insert_eq,
         ?lookup_insert_ne by done.
Qed.

(** The value just written is the value read at the same path. *)
Lemma get_set path v t : get path (set path v t) = v.
Proof.
  revert t. induction path as [|k path IH]; intros t; [done|].
  simpl. rewrite child_node_put. case_decide; [|done]. apply IH.
Qed.

(** A write does not change what is read at a diverging path. *)
Lemma get_set_diverge p q v t : diverge p q → get q (set p v t) = get q t.
Proof.
  revert q t. induction p as [|a p IH]; intros [|b q] t; simpl; try done.
  intros [Hne|[-> Hd]]; rewrite child_node_put; case_decide; try done.
  by apply IH.
Qed.

(** A write below a path changes the subtree read at that path. *)
Lemma get_set_below p r v t :
  get p (set (p ++ r) v t) = set r v (get p t).
Proof.
  revert t. induction p as [|a p IH]; intros t; [done|].
  simpl. rewrite child_node_put. case_decide; [|done]. apply IH.
Qed.

Lemma diverge_app_l p q r : diverge p q → diverge (p ++ r) q.
Proof.
  revert q. induction p as [|a p IH]; intros [|b q]; simpl; try done.
  intros [?|[-> ?]]; [by left|right]. split; [done|]. by apply IH.
Qed.

Lemma diverge_app_r p q r : diverge p q → diverge p (q ++ r).
Proof.
  revert q. induction p as [|a p IH]; intros [|b q]; simpl; try done.
  intros [?|[-> ?]]; [by left|right]. split; [done|]. by apply IH.
Qed.

Lemma get_update_diverge p q fields t :
  (∀ kv, kv ∈ fields → diverge (p ++ [kv.1]) q) →
  get q (update p fields t) = get q t.
Proof.
  unfold update. revert t. induction fields as [|kv fields IH]; intros t H; [done|].
  simpl. rewrite IH.
  - apply get_set_diverge, H. by left.
  - intros kv' ?. apply H. by right.
Qed.

(** *** The order of a snapshot *)

Lemma insertByKey_perm kv l : insertByKey kv l ≡ₚ kv :: l.
Proof.
  induction l as [|kv' l IH]; [done|].
  cbn [insertByKey]. destruct (nameBefore kv.1 kv'.1); [done|].
  rewrite IH. apply Permutation_swap.
Qed.

Lemma sortByKey_perm l : sortByKey l ≡ₚ l.
Proof.
  induction l as [|kv l IH]; [done|].
  cbn [sortByKey foldr]. fold (sortByKey l). by rewrite insertByKey_perm, IH.
Qed.

Lemma elem_of_sortByKey kv l : kv ∈ sortByKey l ↔ kv ∈ l.
Proof. by rewrite sortByKey_perm. Qed.

Lemma sortByKey_nil l : sortByKey l = [] ↔ l = [].
Proof.
  split; [|by intros ->]. intros H.
  apply Permutation_nil_r. by rewrite <- H, sortByKey_perm.
Qed.

End StoreFacts.

(** ** The persistence adapter *)

Module FirebaseFacts.
Import Js Store Eff FirebaseService Samples StoreFacts.

Example createSession_sample :
  (createSession code1 (str "f1") (str "Ann") fresh).1 = Normal (JBool true)
  ∧ sessionField code1 (str "status") created = JStr (str "active")
  ∧ sessionField code1 (str "phase") created = JNum 0.
Proof. by vm_compute. Qed.

Example joinSession_sample :
  (joinSession code1 (str "p1") (str "Bob") created).1 = Normal (JBool true)
  ∧ (joinSession (str "ZZZ999") (str "p1") (str "Bob") created).1
    = Normal (JBool false).
Proof. by vm_compute. Qed.

#[local] Opaque str.
#[local] Arguments validPathString : simpl never.
#[local] Arguments segments : simpl never.
#[local] Arguments obj : simpl never.
#[local] Arguments participantData : simpl never.
#[local] Arguments Store.set : simpl never.
#[local] Arguments Store.update : simpl never.
#[local] Arguments get : simpl never.
#[local] Arguments integer : simpl never.
#[local] Arguments numberToString : simpl never.

(** *** The primitive requests *)

Lemma drop_trace {A} (l k : list A) : drop (length l) (l ++ k) = k.
Proof. by rewrite drop_app_length. Qed.

Lemma logged_logged es1 es2 w :
  logged es2 (logged es1 w) = logged (es1 ++ es2) w.
Proof. unfold logged. simpl. by rewrite app_assoc. Qed.

Lemma newEvents_logged es w : newEvents w (logged es w) = es.
Proof. unfold newEvents. simpl. apply drop_trace. Qed.


Lemma accepts_true path w :
  accepts path w = true ↔
  ∃ db, database w = Some db ∧ validPathString path = true
        ∧ default false (head (rejections w)) = false.
Proof.
  unfold accepts. destruct (database w) as [db|].
  - rewrite andb_true_iff, negb_true_iff. split.
    + intros [Hv Hr]. by exists db.
    + by intros (db' & Hdb & Hv & Hr).
  - split; [done|]. by intros (db & Hdb & Hrest).
Qed.

Lemma request_accepted path op w db :
  database w = Some db → accepts path w = true →
  request path op w = (Normal db, sent op true w).
Proof.
  intros Hdb (db' & ? & Hv & Hr)%accepts_true. unfold request.
  by rewrite Hdb, Hv, Hr.
Qed.

Lemma request_refused path op w :
  accepts path w = false →
  ∃ e w', request path op w = (Throw e, w') ∧ (w' = w ∨ w' = sent op false w).
Proof.
  unfold accepts, request. destruct (database w) as [db|]; [|by eauto].
  destruct (validPathString path); simpl; [|by eauto].
  destruct (default false (head (rejections w))); [by eauto|done].
Qed.

Lemma set_accepted path v w db :
  database w = Some db → accepts path w = true →
  Eff.set path v w
  = (Normal (), stored (Store.set (segments path) v db) (sent (SetValue path v) true w)).
Proof.
  intros Hdb Hacc. unfold Eff.set, mbind, M_bind.
  by rewrite (request_accepted _ _ _ db).
Qed.

Lemma set_refused path v w :
  accepts path w = false →
  ∃ e w', Eff.set path v w = (Throw e, w')
          ∧ (w' = w ∨ w' = sent (SetValue path v) false w).
Proof.
  intros Hacc. unfold Eff.set, mbind, M_bind.
  destruct (request_refused path (SetValue path v) w Hacc) as (e & w' & -> & ?).
  eauto.
Qed.

Lemma update_accepted path fields w db :
  database w = Some db → accepts path w = true →
  Eff.update path fields w
  = (Normal (),
     stored (Store.update (segments path) fields db)
       (sent (UpdateFields path fields) true w)).
Proof.
  intros Hdb Hacc. unfold Eff.update, mbind, M_bind.
  by rewrite (request_accepted _ _ _ db).
Qed.

Lemma update_refused path fields w :
  accepts path w = false →
  ∃ e w', Eff.update path fields w = (Throw e, w')
          ∧ (w' = w ∨ w' = sent (UpdateFields path fields) false w).
Proof.
  intros Hacc. unfold Eff.update, mbind, M_bind.
  destruct (request_refused path (UpdateFields path fields) w Hacc)
    as (e & w' & -> & ?).
  eauto.
Qed.

(** *** sessionExists and joinSession *)

Lemma sessionExists_accepted code w db :
  database w = Some db → accepts (str "sessions/" ++ code) w = true →
  sessionExists code w
  = (Normal (exists_ (segments (str "sessions/" ++ code)) db),
     sent (Once (str "sessions/" ++ code) None) true w).
Proof.
  intros Hdb Hacc. unfold sessionExists, tryCatch, once, mbind, M_bind.
  by rewrite (request_accepted _ _ _ db).
Qed.

Lemma sessionExists_refused code w :
  accepts (str "sessions/" ++ code) w = false →
  ∃ w', sessionExists code w = (Normal false, w')
        ∧ (w' = w ∨ w' = sent (Once (str "sessions/" ++ code) None) false w).
Proof.
  intros Hacc. unfold sessionExists, tryCatch, once, mbind, M_bind.
  destruct (request_refused _ (Once (str "sessions/" ++ code) None) w Hacc)
    as (e & w' & -> & ?).
  eauto.
Qed.

(** The existence check always answers, and leaves the store as it is. *)
Lemma sessionExists_total code w :
  ∃ present w1,
    sessionExists code w = (Normal present, w1)
    ∧ database w1 = database w ∧ clock w1 = clock w
    ∧ ∃ reads, trace w1 = trace w ++ reads
               ∧ Forall (fun e => isWrite e = false) reads.
Proof.
  destruct (accepts (str "sessions/" ++ code) w) eqn:Hacc.
  - destruct (proj1 (accepts_true _ _) Hacc) as (db & Hdb & _).
    rewrite (sessionExists_accepted _ _ db) by done.
    eexists _, _. split; [done|]. split_and!; try done.
    eexists [_]. split; [done|]. by repeat constructor.
  - destruct (sessionExists_refused _ _ Hacc) as (w' & -> & [->| ->]).
    + eexists _, _. split; [done|]. split_and!; try done.
      exists []. by rewrite app_nil_r.
    + eexists _, _. split; [done|]. split_and!; try done.
      eexists [_]. split; [done|]. by repeat constructor.
Qed.

(** [joinSession] once the existence check has answered. *)
Lemma joinSession_after code id name w present w1 :
  sessionExists code w = (Normal present, w1) →
  joinSession code id name w
  = if present then
      match Eff.set (str "sessions/" ++ code ++ str "/participants/" ++ id)
              (participantData id name (clock w1)) w1 with
      | (Normal _, w2) =>
          (Normal (JBool true),
           logged [Track (str "session") (str "join") code] w2)
      | (Throw _, w2) => (Normal (JBool false), logged joinFailed w2)
      end
    else (Normal (JBool false), logged notFound w1).
Proof.
  intros Hex. unfold joinSession, tryCatch.
  unfold mbind at 1, M_bind at 1. rewrite Hex.
  destruct present; simpl.
  - unfold mbind, M_bind, timestamp.
    destruct (Eff.set _ _ w1) as [[[]|e] w2]; simpl; [done|].
    unfold showError, showToast, trackEvent, emit, mbind, M_bind, mret, M_ret.
    by rewrite logged_logged.
  - unfold showError, showToast, trackEvent, emit, mbind, M_bind, mret, M_ret.
    by rewrite logged_logged.
Qed.




(** C9. When the read of the existence check throws (the database is not
    connected, the path is refused or the store rejects the request),
    [sessionExists] answers [false], and [joinSession] returns [false]
    after showing 'Workshop session not found': the result and the
    messages are those of a session that is absent from a store that
    answered. *)
Theorem sessionExists_false_on_error (code id name : jsstring) (w : World) :
  accepts (str "sessions/" ++ code) w = false →
  (sessionExists code w).1 = Normal false
  ∧ (joinSession code id name w).1 = Normal (JBool false)
  ∧ List.filter (fun e => negb (isStoreRequest e))
      (newEvents w (joinSession code id name w).2) = notFound
  ∧ ∀ w0 db,
      database w0 = Some db →
      accepts (str "sessions/" ++ code) w0 = true →
      exists_ (segments (str "sessions/" ++ code)) db = false →
      (sessionExists code w0).1 = Normal false
      ∧ (joinSession code id name w0).1 = Normal (JBool false)
      ∧ List.filter (fun e => negb (isStoreRequest e))
          (newEvents w0 (joinSession code id name w0).2) = notFound.
Proof.
  intros Hacc. destruct (sessionExists_refused _ _ Hacc) as (w1 & Hex & Hw1).
  rewrite (joinSession_after _ _ _ _ _ _ Hex), Hex. simpl.
  split; [done|]. split; [done|]. split.
  - destruct Hw1 as [->| ->].
    + by rewrite newEvents_logged.
    + unfold newEvents. simpl. by rewrite <- app_assoc, drop_trace.
  - intros w0 db Hdb Hacc0 Habsent.
    pose proof (sessionExists_accepted _ _ _ Hdb Hacc0) as Hex0.
    rewrite Habsent in Hex0.
    rewrite (joinSession_after _ _ _ _ _ _ Hex0), Hex0. simpl.
    split; [done|]. split; [done|].
    unfold newEvents. simpl. by rewrite <- app_assoc, drop_trace.
Qed.

(** A rejected read on a store that holds the session. *)
Lemma sessionExists_false_on_error_witness :
  accepts (str "sessions/" ++ code1) (createdWith [true]) = false
  ∧ (sessionExists code1 (createdWith [false])).1 = Normal true
  ∧ (sessionExists code1 (createdWith [true])).1 = Normal false
  ∧ (joinSession code1 (str "p1") (str "Bob") (createdWith [true])).1
    = Normal (JBool false).
Proof.
  split; [by vm_compute|]. split; [by vm_compute|].
  pose proof (sessionExists_false_on_error code1 (str "p1") (str "Bob")
                (createdWith [true]) eq_refl) as (H1 & H2 & _).
  by split.
Defined.

(** *** Every write operation returns *)

Ltac events :=
  unfold newEvents, logged, stored, sent; simpl;
  rewrite <- ?app_assoc; rewrite ?drop_trace, ?drop_all; simpl.

Ltac page :=
  unfold showError, showSuccess, showToast, trackEvent, setLoading, addActivity,
    emit, timestamp, throw, mbind, M_bind, mret, M_ret; simpl.

(** Runs the next write of the goal both ways: accepted, or refused
    before or after it was sent. *)
Ltac write_cases :=
  match goal with
  | |- context [Eff.set ?p ?v ?w] =>
      let Hacc := fresh "Hacc" in
      destruct (accepts p w) eqn:Hacc;
      [ let db := fresh "db" in
        let Hdb := fresh "Hdb" in
        destruct (proj1 (accepts_true _ _) Hacc) as (db & Hdb & _);
        rewrite (set_accepted p v w db Hdb Hacc)
      | let e := fresh "e" in
        let w' := fresh "w'" in
        destruct (set_refused p v w Hacc) as (e & w' & -> & [->| ->]) ]
  | |- context [Eff.update ?p ?v ?w] =>
      let Hacc := fresh "Hacc" in
      destruct (accepts p w) eqn:Hacc;
      [ let db := fresh "db" in
        let Hdb := fresh "Hdb" in
        destruct (proj1 (accepts_true _ _) Hacc) as (db & Hdb & _);
        rewrite (update_accepted p v w db Hdb Hacc)
      | let e := fresh "e" in
        let w' := fresh "w'" in
        destruct (update_refused p v w Hacc) as (e & w' & -> & [->| ->]) ]
  end.


(** *** Ended sessions *)

Ltac literal_ne :=
  let H := fresh in intros H; vm_compute in H; discriminate H.

Lemma isKey_literal_status : isKey (str "status").
Proof. split; [literal_ne|]. apply (bool_decide_unpack _). by vm_compute. Qed.

Lemma sessionField_database code name w w' :
  database w' = database w →
  sessionField code name w' = sessionField code name w.
Proof. unfold sessionField. by intros ->. Qed.

Lemma sessionField_status code w db :
  isKey code → database w = Some db →
  sessionField code (str "status") w
  = get [str "sessions"; code; str "status"] db.
Proof.
  intros Hcode Hdb. unfold sessionField. rewrite Hdb.
  by rewrite segments_session_field by (done || apply isKey_literal_status).
Qed.

(** The paths written by the calls that leave a session's status alone. *)
Lemma diverge_session_field code c name rest :
  name ≠ str "status" →
  diverge (str "sessions" :: c :: name :: rest)
    [str "sessions"; code; str "status"].
Proof.
  intros Hname. simpl. right. split; [done|].
  destruct (decide (c = code)) as [->|]; [|by left].
  right. split; [done|]. by left.
Qed.

Lemma diverge_other_session code c rest :
  c ≠ code →
  diverge (str "sessions" :: c :: rest) [str "sessions"; code; str "status"].
Proof. intros. simpl. right. split; [done|]. by left. Qed.

Lemma diverge_other_root root rest code :
  root ≠ str "sessions" →
  diverge (root :: rest) [str "sessions"; code; str "status"].
Proof. intros. simpl. by left. Qed.

(** A call that is not [createSession] on the same code keeps the status
    of an ended session. *)
Lemma call_keeps_ended code op w :
  isKey code → isKey (target op) →
  (∀ f n, op ≠ CreateSession code f n) →
  sessionField code (str "status") w = JStr (str "ended") →
  sessionField code (str "status") (call op w).2 = JStr (str "ended").
Proof.
  intros Hcode Hkey Hnot Hended.
  destruct op as [c f n|c p n|c i|c a d|c|c t th sy|c t i tr d];
    simpl in Hkey; simpl.
  - assert (c ≠ code) as Hc by (intros ->; by eapply Hnot).
    unfold createSession, tryCatch. unfold mbind, M_bind, timestamp.
    write_cases; page; try (by erewrite sessionField_database).
    erewrite sessionField_status by (done || by simpl).
    rewrite segments_session by done.
    rewrite get_set_diverge by (by apply diverge_other_session).
    by rewrite <- (sessionField_status code w db).
  - destruct (sessionExists_total c w)
      as (present & w1 & Hex & Hdb & Hclock & reads & Htrace & Hreads).
    rewrite (joinSession_after _ _ _ _ _ _ Hex).
    assert (sessionField code (str "status") w1 = JStr (str "ended")) as Hw1
      by (by erewrite sessionField_database).
    destruct present; [|by erewrite sessionField_database].
    write_cases; page; try (by erewrite sessionField_database).
    erewrite sessionField_status by (done || by simpl).
    rewrite segments_participant by done.
    rewrite get_set_diverge by (apply diverge_session_field; literal_ne).
    by rewrite <- (sessionField_status code w1 db).
  - unfold updatePhase, tryCatch. unfold mbind, M_bind.
    write_cases; page; try (by erewrite sessionField_database).
    erewrite sessionField_status by (done || by simpl).
    change (str "/phase") with (str "/" ++ str "phase").
    rewrite segments_session_field
      by (done || (split; [literal_ne|apply (bool_decide_unpack _); by vm_compute])).
    rewrite get_set_diverge by (apply diverge_session_field; literal_ne).
    by rewrite <- (sessionField_status code w db).
  - unfold updateTimer, tryCatch. unfold mbind, M_bind.
    write_cases; page; try (by erewrite sessionField_database).
    erewrite sessionField_status by (done || by simpl).
    rewrite segments_session by done.
    rewrite get_update_diverge.
    + by rewrite <- (sessionField_status code w db).
    + intros kv Hkv. simpl.
      apply elem_of_cons in Hkv as [->|Hkv];
        [|apply elem_of_cons in Hkv as [->|Hkv]; [|by apply elem_of_nil in Hkv]];
        apply (diverge_session_field code c _ []); literal_ne.
  - unfold endSession, tryCatch. unfold mbind, M_bind.
    write_cases; page; try (by erewrite sessionField_database).
    erewrite sessionField_status by (done || by simpl).
    change (str "/status") with (str "/" ++ str "status").
    rewrite segments_session_field by (done || apply isKey_literal_status).
    destruct (decide (c = code)) as [->|Hc].
    + apply get_set.
    + rewrite get_set_diverge by (by apply diverge_other_session).
      by rewrite <- (sessionField_status code w db).
  - unfold saveThemes, tryCatch. unfold mbind, M_bind, timestamp.
    destruct t as [z|]; [write_cases|]; page;
      try (by erewrite sessionField_database).
    erewrite sessionField_status by (done || by simpl).
    unfold themesPath. rewrite segments_themes.
    rewrite get_set_diverge by (apply diverge_other_root; literal_ne).
    by rewrite <- (sessionField_status code w db).
  - unfold saveTranscript, tryCatch. unfold mbind, M_bind, timestamp, push.
    destruct (database w) as [db0|] eqn:Hdb0; [|by page].
    destruct (validPathString (str "transcripts/" ++ c)); simpl; [|by page].
    write_cases; page;
      try (erewrite sessionField_database; [exact Hended|by simpl]).
    erewrite sessionField_status by (done || by simpl).
    rewrite segments_transcripts.
    rewrite get_set_diverge by (apply diverge_other_root; literal_ne).
    simpl in Hdb. injection Hdb as <-.
    by rewrite <- (sessionField_status code w db0).
Qed.

(** C4, as the code has it.  After [endSession] succeeded the status is
    'ended', and it stays so under every sequence of calls on well-formed
    codes in which no [createSession] names the ended session.  The
    adapter has no guard of its own: the other fields stay writable. *)
Theorem ended_status_stays (code : jsstring) (ops : list WriteOp) (w : World) :
  isKey code →
  Forall (fun op => isKey (target op) ∧ ∀ f n, op ≠ CreateSession code f n) ops →
  (endSession code w).1 = Normal (JBool true) →
  sessionField code (str "status") (endSession code w).2 = JStr (str "ended")
  ∧ sessionField code (str "status") (callAll ops (endSession code w).2)
    = JStr (str "ended").
Proof.
  intros Hcode Hops Hok.
  assert (sessionField code (str "status") (endSession code w).2
          = JStr (str "ended")) as Hended.
  { revert Hok. unfold endSession, tryCatch. unfold mbind, M_bind.
    write_cases; page; try done. intros _.
    erewrite sessionField_status by (done || by simpl).
    change (str "/status") with (str "/" ++ str "status").
    rewrite segments_session_field by (done || apply isKey_literal_status).
    apply get_set. }
  split; [done|]. unfold callAll.
  generalize dependent (endSession code w).2. clear w Hok.
  induction Hops as [|op ops [Hkey Hnot] _ IH]; intros w Hended; [done|].
  simpl. apply IH. by apply call_keeps_ended.
Qed.

(** C4, as stated, fails: on the ended session [updatePhase] and
    [updateTimer] still change the phase and the timer, and
    [createSession] on the same code makes the session active again. *)
Lemma ended_session_is_mutable :
  sessionField code1 (str "status") ended = JStr (str "ended")
  ∧ sessionField code1 (str "phase") ended = JNum 0
  ∧ sessionField code1 (str "phase") (callAll [UpdatePhase code1 3] ended)
    = JNum 3
  ∧ sessionField code1 (str "timerDuration") ended = JNum 0
  ∧ sessionField code1 (str "timerDuration")
      (callAll [UpdateTimer code1 true 300] ended) = JNum 300
  ∧ sessionField code1 (str "status")
      (callAll [CreateSession code1 (str "f2") (str "Eve")] ended)
    = JStr (str "active").
Proof. by vm_compute. Qed.

Lemma isKey_code1 : isKey code1.
Proof. split; [literal_ne|]. apply (bool_decide_unpack _). by vm_compute. Qed.

(** The ended session [code1] under a run of later calls. *)
Lemma ended_status_stays_witness :
  sessionField code1 (str "status")
    (callAll [ UpdatePhase code1 3; UpdateTimer code1 true 300;
               JoinSession code1 (str "p1") (str "Bob"); EndSession code1 ]
       (endSession code1 created).2)
  = JStr (str "ended").
Proof.
  refine (proj2 (ended_status_stays code1 _ created isKey_code1 _ _)).
  - repeat (apply Forall_cons; split; [split; [apply isKey_code1|done]|]).
    apply Forall_nil_2.
  - by vm_compute.
Defined.

End FirebaseFacts.

(** ** Property keys *)

Module JsObjectFacts.
Import Js Store JsObject.

Lemma pretty_N_char_digit x : 48 ≤ N_of_ascii (pretty_N_char x) ≤ 57.
Proof.
  unfold pretty_N_char.
  destruct x as [|[[[[| |]|[| |]|]|[[| |]|[| |]|]|]|[[[| |]|[| |]|]|[[| |]|[| |]|]|]|]];
    by vm_compute.
Qed.

Lemma pretty_N_go_numeral x s : numeral s → numeral (pretty_N_go x s).
Proof.
  revert s. induction (N.lt_wf_0 x) as [x _ IH]; intros s Hs.
  destruct (decide (x = 0)) as [->|Hx]; [by rewrite pretty_N_go_0|].
  rewrite pretty_N_go_step by lia. apply IH.
  - apply N.div_lt; lia.
  - eexists _, _. split; [done|]. right. apply pretty_N_char_digit.
Qed.




(** *** Rendering an integer and reading it back *)

Lemma str_cons c rest : str (String c rest) = N_of_ascii c :: str rest.
Proof. done. Qed.

Lemma pretty_N_char_value x :
  x < 10 → N_of_ascii (pretty_N_char x) = 48 + x.
Proof.
  intros Hx.
  assert (x = 0 ∨ x = 1 ∨ x = 2 ∨ x = 3 ∨ x = 4 ∨ x = 5 ∨ x = 6 ∨ x = 7
          ∨ x = 8 ∨ x = 9) as Hcases by lia.
  repeat (destruct Hcases as [->|Hcases]; [reflexivity|]).
  by subst.
Qed.

Lemma isDigit_range c : isDigit c = true ↔ 48 ≤ c ≤ 57.
Proof. unfold isDigit. rewrite andb_true_iff, !N.leb_le. done. Qed.

Lemma digitValue_digit c : 48 ≤ c ≤ 57 → digitValue 10 c = Some (c - 48).
Proof.
  intros Hc. unfold digitValue.
  rewrite (proj2 (isDigit_range c) Hc).
  destruct (N.ltb_spec (c - 48) 10); [done|lia].
Qed.

(** Reading the digits of [x] in front of [s] continues from the number
    read so far, shifted by the digits of [x]. *)
Lemma digitsPrefix_pretty_go x :
  ∃ k, ∀ s a,
    digitsPrefix 10 (Some a) (str (pretty_N_go x s))
    = digitsPrefix 10 (Some (a * k + x)) (str s).
Proof.
  induction (N.lt_wf_0 x) as [x _ IH].
  destruct (decide (x = 0)) as [->|Hx].
  - exists 1. intros s a. rewrite pretty_N_go_0. do 2 f_equal. lia.
  - destruct (IH (x `div` 10)) as [k Hk]; [apply N.div_lt; lia|].
    exists (k * 10). intros s a.
    rewrite pretty_N_go_step by lia. rewrite Hk, str_cons.
    cbn [digitsPrefix].
    pose proof (N.mod_upper_bound x 10 ltac:(lia)) as Hmod.
    rewrite digitValue_digit by apply pretty_N_char_digit.
    rewrite pretty_N_char_value by done. cbn [default]. do 2 f_equal.
    pose proof (N.div_mod x 10 ltac:(lia)) as Hdiv. unfold id.
    replace (a * (k * 10)) with (10 * (a * k)) by ring.
    rewrite N.add_sub_swap, N.sub_diag by done. lia.
Qed.

Lemma digitsPrefix_start c rest :
  48 ≤ c ≤ 57 →
  digitsPrefix 10 None (c :: rest) = digitsPrefix 10 (Some 0) (c :: rest).
Proof. intros Hc. cbn [digitsPrefix]. by rewrite digitValue_digit. Qed.

Lemma pretty_N_go_digits x s :
  Forall (fun c => 48 ≤ c ≤ 57) (str s) →
  Forall (fun c => 48 ≤ c ≤ 57) (str (pretty_N_go x s)).
Proof.
  revert s. induction (N.lt_wf_0 x) as [x _ IH]; intros s Hs.
  destruct (decide (x = 0)) as [->|Hx]; [by rewrite pretty_N_go_0|].
  rewrite pretty_N_go_step by lia. apply IH; [apply N.div_lt; lia|].
  rewrite str_cons. apply Forall_cons. split; [|done].
  apply pretty_N_char_digit.
Qed.

Lemma pretty_N_digits (x : N) :
  Forall (fun c => 48 ≤ c ≤ 57) (str (pretty x)) ∧ str (pretty x) ≠ [].
Proof.
  unfold pretty, pretty_N. case_decide as Hx.
  - split; [|done]. apply Forall_singleton. by vm_compute.
  - rewrite pretty_N_go_step by lia. split.
    + apply pretty_N_go_digits. rewrite str_cons. apply Forall_singleton.
      apply pretty_N_char_digit.
    + destruct (pretty_N_go_numeral (x `div` 10)
                  (String (pretty_N_char (x `mod` 10)) EmptyString))
        as (c & rest & -> & _); [|done].
      eexists _, _. split; [done|]. right. apply pretty_N_char_digit.
Qed.

Lemma digitsPrefix_pretty_N (x : N) :
  digitsPrefix 10 None (str (pretty x)) = Some x.
Proof.
  destruct (pretty_N_digits x) as [Hdigits Hne].
  destruct (str (pretty x)) as [|c rest] eqn:Hstr; [done|].
  rewrite digitsPrefix_start by (by apply Forall_cons in Hdigits as [? _]).
  rewrite <- Hstr. clear Hstr Hdigits Hne c rest.
  unfold pretty, pretty_N. case_decide as Hx; [by subst|].
  destruct (digitsPrefix_pretty_go x) as [k Hk].
  rewrite Hk. cbn. done.
Qed.

Lemma digit_cases c :
  48 ≤ c ≤ 57 →
  c = 48 ∨ c = 49 ∨ c = 50 ∨ c = 51 ∨ c = 52 ∨ c = 53 ∨ c = 54 ∨ c = 55
  ∨ c = 56 ∨ c = 57.
Proof. lia. Qed.

Ltac each_digit H :=
  repeat (destruct H as [->|H]; [try reflexivity|]); try (subst; reflexivity).

Lemma digit_not_space c : 48 ≤ c ≤ 57 → isWhiteSpace c = false.
Proof. intros Hc%digit_cases. each_digit Hc. Qed.

(** On a string of digits [parseInt] reads no sign and no radix prefix. *)
Lemma parseInt_digits c rest :
  48 ≤ c ≤ 57 → Forall (fun c => 48 ≤ c ≤ 57) rest →
  parseInt (c :: rest)
  = match digitsPrefix 10 None (c :: rest) with
    | None => NaN
    | Some n => Int (Z.of_N n)
    end.
Proof.
  intros Hc Hrest. unfold parseInt. cbn [trimStart].
  rewrite digit_not_space by done.
  apply digit_cases in Hc. destruct Hc as [->|Hc]; [|each_digit Hc].
  destruct rest as [|d rest]; [reflexivity|].
  apply Forall_cons in Hrest as [Hd%digit_cases _]. each_digit Hd.
Qed.

Lemma parseInt_minus_digits c rest :
  48 ≤ c ≤ 57 → Forall (fun c => 48 ≤ c ≤ 57) rest →
  parseInt (45 :: c :: rest)
  = match digitsPrefix 10 None (c :: rest) with
    | None => NaN
    | Some n => Int (- Z.of_N n)
    end.
Proof.
  intros Hc Hrest. unfold parseInt. cbn [trimStart].
  change (isWhiteSpace 45) with false. cbn iota.
  apply digit_cases in Hc. destruct Hc as [->|Hc]; [|each_digit Hc].
  destruct rest as [|d rest]; [reflexivity|].
  apply Forall_cons in Hrest as [Hd%digit_cases _]. each_digit Hd.
Qed.

(** [parseInt] reads a rendered integer back. *)
Lemma parseInt_integer z : parseInt (integer z) = Int z.
Proof.
  unfold integer, pretty, pretty_Z.
  destruct z as [|p|p]; [by vm_compute| |].
  - change (pretty p) with (pretty (N.pos p)).
    destruct (pretty_N_digits (N.pos p)) as [Hdigits Hne].
    pose proof (digitsPrefix_pretty_N (N.pos p)) as Hparse.
    destruct (str (pretty (N.pos p))) as [|c rest] eqn:Hstr; [done|].
    apply Forall_cons in Hdigits as [Hc Hrest].
    by rewrite parseInt_digits, Hparse.
  - change (pretty p) with (pretty (N.pos p)).
    change (str ("-" +:+ pretty (N.pos p))) with (45 :: str (pretty (N.pos p))).
    destruct (pretty_N_digits (N.pos p)) as [Hdigits Hne].
    pose proof (digitsPrefix_pretty_N (N.pos p)) as Hparse.
    destruct (str (pretty (N.pos p))) as [|c rest] eqn:Hstr; [done|].
    apply Forall_cons in Hdigits as [Hc Hrest].
    by rewrite parseInt_minus_digits, Hparse.
Qed.

End JsObjectFacts.

(** ** What the write operations return *)

Module WriteFacts.
Import Js Store Eff FirebaseService Views Writes Samples StoreFacts FirebaseFacts.

#[local] Opaque str.
#[local] Arguments validPathString : simpl never.
#[local] Arguments segments : simpl never.
#[local] Arguments obj : simpl never.
#[local] Arguments participantData : simpl never.
#[local] Arguments sessionData : simpl never.
#[local] Arguments transcriptData : simpl never.
#[local] Arguments themeData : simpl never.
#[local] Arguments Store.set : simpl never.
#[local] Arguments Store.update : simpl never.
#[local] Arguments get : simpl never.
#[local] Arguments integer : simpl never.
#[local] Arguments numberToString : simpl never.
#[local] Arguments accepts : simpl never.







End WriteFacts.

(** ** Theme generation *)

Module WorkshopFacts.
Import Js Store JsObject Eff FirebaseService Workshop Samples StoreFacts
  FirebaseFacts JsObjectFacts.

Example parseInt_samples :
  parseInt (str "12") = Int 12 ∧ parseInt (str " -7x") = Int (-7)
  ∧ parseInt (str "0x1f") = Int 31 ∧ parseInt (str "undefined") = NaN.
Proof. by vm_compute. Qed.

Example entries_sample :
  (entries [ (str "b", []); (str "10", []); (str "2", []); (str "01", []) ]).*1
  = [str "2"; str "10"; str "b"; str "01"].
Proof. by vm_compute. Qed.

#[local] Opaque str.
#[local] Arguments validPathString : simpl never.
#[local] Arguments segments : simpl never.
#[local] Arguments obj : simpl never.
#[local] Arguments themeData : simpl never.
#[local] Arguments Store.set : simpl never.
#[local] Arguments get : simpl never.
#[local] Arguments query : simpl never.
#[local] Arguments integer : simpl never.
#[local] Arguments numberToString : simpl never.
#[local] Arguments parseInt : simpl never.
#[local] Arguments join : simpl never.
#[local] Arguments themesOf : simpl never.

(** *** Grouping by table *)










(** *** The query *)

(** The query always answers; it sends at most one read and no write. *)
Lemma getTranscripts_total code phase w :
  ∃ ts w1,
    getTranscripts code phase w = (Normal ts, w1)
    ∧ database w1 = database w ∧ responses w1 = responses w
    ∧ clock w1 = clock w
    ∧ ∃ reads, trace w1 = trace w ++ reads
               ∧ Forall (fun e => isRead e = true) reads.
Proof.
  unfold getTranscripts, tryCatch, onceChildren. unfold mbind, M_bind.
  set (path := str "transcripts/" ++ code).
  set (op := Once path _).
  destruct (accepts path w) eqn:Hacc.
  - destruct (proj1 (accepts_true _ _) Hacc) as (db & Hdb & _).
    rewrite (request_accepted _ _ _ db) by done.
    eexists _, _. split; [done|]. split_and!; try done.
    eexists [_]. split; [done|]. by repeat constructor.
  - destruct (request_refused path op w Hacc) as (e & w' & -> & [->| ->]).
    + eexists _, _. split; [done|]. split_and!; try done.
      exists []. by rewrite app_nil_r.
    + eexists _, _. split; [done|]. split_and!; try done.
      eexists [_]. split; [done|]. by repeat constructor.
Qed.

Lemma reads_only reads :
  Forall (fun e => isRead e = true) reads →
  Forall (fun e => isFetch e = false ∧ isWrite e = false) reads.
Proof.
  intros H. eapply Forall_impl; [exact H|].
  by intros [| | | |[] ?|].
Qed.

(** What the query answers does not depend on the trace. *)
Lemma getTranscripts_logged code phase es w :
  (getTranscripts code phase (logged es w)).1 = (getTranscripts code phase w).1.
Proof.
  unfold getTranscripts, tryCatch, onceChildren, request. unfold mbind, M_bind.
  simpl. destruct (database w); [|done].
  destruct (validPathString _); simpl; [|done].
  by destruct (default false (head (rejections w))).
Qed.

(** *** One table *)

Lemma generateThemesFromText_eq text w :
  generateThemesFromText text w
  = (Normal (themesOf (head (responses w))),
     fetched OPENAI_PROXY (themeRequest text) w).
Proof.
  unfold generateThemesFromText, tryCatch, fetch, themesOf.
  unfold mbind, M_bind, mret, M_ret, throw.
  by destruct (head (responses w)) as [[| | |parsed]|].
Qed.

(** [saveThemes] either stores the themes of its table, or shows its
    failure and leaves the store as it is. *)
Lemma saveThemes_cases code n themes synthesis w :
  (∃ z db,
      n = Int z ∧ database w = Some db
      ∧ saveThemes code n themes synthesis w
        = (Normal (JBool true),
           logged (themesSaved code n)
             (stored (Store.set (segments (themesPath code n))
                        (themeData code z themes synthesis (clock w)) db)
                (sent (SetValue (themesPath code n)
                         (themeData code z themes synthesis (clock w))) true w))))
  ∨ saveThemes code n themes synthesis w
    = (Normal (JBool false), logged saveFailed w)
  ∨ (∃ z,
      n = Int z
      ∧ saveThemes code n themes synthesis w
        = (Normal (JBool false),
           logged saveFailed
             (sent (SetValue (themesPath code n)
                      (themeData code z themes synthesis (clock w))) false w))).
Proof.
  unfold saveThemes, tryCatch. unfold mbind, M_bind, timestamp.
  destruct n as [z|].
  - write_cases; page; rewrite ?logged_logged; simpl.
    + left. by eexists z, db.
    + by right; left.
    + right; right. by eexists z.
  - page. rewrite ?logged_logged. by right; left.
Qed.

(** The body of the loop never throws. *)
Lemma tableStep_total code table w :
  tableStep code table w = (Normal (), (tableStep code table w).2).
Proof.
  assert (∃ w', tableStep code table w = (Normal (), w')) as [w' ->]; [|done].
  unfold tableStep. unfold mbind at 1, M_bind at 1.
  rewrite generateThemesFromText_eq.
  unfold mbind, M_bind, mret, M_ret.
  set (w1 := fetched _ _ w). set (themes := themesOf _).
  destruct (saveThemes_cases code (parseInt table.1) themes JNull w1)
    as [(z & db & Hz & Hdb & Heq)|[Heq|(z & Hz & Heq)]];
    rewrite Heq; by eexists.
Qed.

(** The loop runs the body of every table, in order, whatever happened
    to the tables before. *)
Lemma forEach_tables code tables w :
  forEach tables (tableStep code) w = (Normal (), runTables code tables w).
Proof.
  revert w. induction tables as [|table tables IH]; intros w; [done|].
  simpl. unfold mbind, M_bind. rewrite tableStep_total. apply IH.
Qed.

(** *** The handler *)

Lemma handleGenerateThemes_after session phase w ts w1 :
  getTranscripts (genCode session) (Some phase) (logged [generating] w)
  = (Normal ts, w1) →
  handleGenerateThemes (Some session) phase w
  = if (length ts =? 0)%nat then (Normal (), logged noTranscripts w1)
    else match groupByTable ts [] with
         | None => (Normal (), logged generateFailed w1)
         | Some o =>
             (Normal (),
              logged (generated phase) (runTables (genCode session) (entries o) w1))
         end.
Proof.
  intros Hq. unfold handleGenerateThemes, setLoading, emit.
  unfold mbind at 1, M_bind at 1. fold generating.
  unfold tryCatch. unfold mbind at 1, M_bind at 1.
  fold (genCode session). rewrite Hq.
  destruct (length ts =? 0)%nat.
  - page. by rewrite !logged_logged.
  - destruct (groupByTable ts []) as [o|].
    + unfold mbind at 1, M_bind at 1. rewrite forEach_tables.
      page. by rewrite !logged_logged.
    + page. by rewrite !logged_logged.
Qed.

(** C5. When the query for the transcripts of the current phase answers
    with the empty list, the handler shows 'No transcripts found for this
    phase', calls the theme proxy not once and sends no write: in
    particular [saveThemes] is not called. *)
Theorem no_transcripts_no_writes (session : Json) (phase : Z) (w : World) :
  (getTranscripts (genCode session) (Some phase) w).1 = Normal [] →
  ∃ w' reads,
    handleGenerateThemes (Some session) phase w = (Normal (), w')
    ∧ newEvents w w' = generating :: reads ++ noTranscripts
    ∧ Forall (fun e => isRead e = true) reads
    ∧ Toast ErrorToast (str "No transcripts found for this phase")
      ∈ newEvents w w'
    ∧ Forall (fun e => isFetch e = false ∧ isWrite e = false) (newEvents w w')
    ∧ database w' = database w.
Proof.
  intros Hempty.
  destruct (getTranscripts_total (genCode session) (Some phase)
              (logged [generating] w))
    as (ts & w1 & Hq & Hdb & _ & _ & reads & Htrace & Hreads).
  assert (ts = []) as ->.
  { pose proof (getTranscripts_logged (genCode session) (Some phase)
                  [generating] w) as Heq.
    rewrite Hq, Hempty in Heq. by injection Heq. }
  rewrite (handleGenerateThemes_after _ _ _ _ _ Hq). simpl.
  eexists _, reads. split; [done|].
  assert (newEvents w (logged noTranscripts w1)
          = generating :: reads ++ noTranscripts) as ->.
  { unfold newEvents. simpl. rewrite Htrace. simpl.
    by rewrite <- !app_assoc, drop_trace. }
  split_and!; try done.
  - right. apply elem_of_app. right. by left.
  - apply Forall_cons. split; [done|]. apply Forall_app. split.
    + by apply reads_only.
    + by repeat constructor.
Qed.

(** A store without transcripts. *)
Lemma no_transcripts_no_writes_witness :
  ∃ w',
    handleGenerateThemes (Some session1) 0 created = (Normal (), w')
    ∧ Toast ErrorToast (str "No transcripts found for this phase")
      ∈ newEvents created w'
    ∧ Forall (fun e => isFetch e = false ∧ isWrite e = false)
        (newEvents created w')
    ∧ database w' = database created.
Proof.
  destruct (no_transcripts_no_writes session1 0 created)
    as (w' & reads & Hrun & _ & _ & Htoast & Hnone & Hdb);
    [vm_compute; reflexivity|].
  exists w'. exact (conj Hrun (conj Htoast (conj Hnone Hdb))).
Defined.

End WorkshopFacts.

(** ** The debounce wrapper *)

Module TimersFacts.
Import Js Store Eff FirebaseService Views Timers Samples ThemeSamples StoreFacts
  FirebaseFacts.

Example debounce_sample :
  List.filter isWrite
    (trace (world
       (advance updateParticipantStatus_func 2000
          (foldl updateParticipantStatus (idle (createdWith []))
             [ (100, (code1, str "p1", str "online"));
               (300, (code1, str "p1", str "away"));
               (550, (code1, str "p1", str "offline")) ]))))
  = [ StoreRequest
        (SetValue (str "sessions/ABC234/participants/p1/status")
           (JStr (str "offline"))) true ].
Proof. by vm_compute. Qed.

Section Debounce.
Context {A : Type}.
Variable func : A → M unit.
Variable wait : N.

Lemma callAt_first st t a :
  pending st = [] → now st ≤ t →
  armed wait (callAt func wait st (t, a)) t a (world st).
Proof.
  intros Hpending Hnow. exists (nextId st).
  unfold callAt, advance, executedFunction, setTimeout, clearTimeout.
  rewrite Hpending. simpl. rewrite Hpending. simpl.
  by rewrite (N.max_r (now st) t) by lia.
Qed.

Lemma callAt_next st t a t' a' w :
  armed wait st t a w → t ≤ t' → t' < t + wait →
  armed wait (callAt func wait st (t', a')) t' a' w.
Proof.
  intros (id & Hpending & Htimeout & Hnow & Hworld) Hle Hlt.
  exists (nextId st).
  unfold callAt, advance, executedFunction, setTimeout, clearTimeout.
  rewrite Hpending. simpl. unfold nextDue. rewrite Hpending. simpl.
  destruct (N.leb_spec (t + wait) t'); [lia|]. simpl.
  rewrite Htimeout, Hpending. simpl.
  rewrite bool_decide_eq_true_2 by done. simpl.
  by rewrite Hnow, (N.max_r t t') by lia.
Qed.

Lemma advance_fires st t a w T :
  armed wait st t a w → t + wait ≤ T →
  world (advance func T st) = (func a w).2 ∧ pending (advance func T st) = [].
Proof.
  intros (id & Hpending & Htimeout & Hnow & Hworld) Hle.
  unfold advance. rewrite Hpending. simpl. unfold nextDue. rewrite Hpending.
  simpl. destruct (N.leb_spec (t + wait) T); [|lia]. simpl.
  unfold fire, later, clearTimeout. rewrite Hpending. simpl.
  rewrite N.eqb_refl. simpl. by rewrite Hworld.
Qed.

Lemma advance_waits st t a w T :
  armed wait st t a w → T < t + wait → world (advance func T st) = w.
Proof.
  intros (id & Hpending & Htimeout & Hnow & Hworld) Hlt.
  unfold advance. rewrite Hpending. simpl. unfold nextDue. rewrite Hpending.
  simpl. by destruct (N.leb_spec (t + wait) T); [lia|].
Qed.

Lemma callsAt_follows calls st start t a w :
  armed wait st t a w → start ≤ t → follows wait start t calls →
  ∃ t' a', last ((t, a) :: calls) = Some (t', a')
           ∧ armed wait (callsAt func wait calls st) t' a' w.
Proof.
  revert st t a. induction calls as [|[t' a'] calls IH]; intros st t a Harmed Hstart.
  - intros _. by exists t, a.
  - simpl. intros (Hle & Hlt & Hrest).
    destruct (IH (callAt func wait st (t', a')) t' a') as (t'' & a'' & Hlast & Hfin).
    + apply (callAt_next st t a); [done|done|lia].
    + lia.
    + done.
    + exists t'', a''. split; [|done].
      rewrite <- Hlast. by destruct calls.
Qed.

(** Calls within one window collapse into the last: nothing runs while
    they are made, and when the delay after the last call has passed the
    wrapped function has run once, with the arguments of the last call. *)
Lemma debounce_last calls st T :
  pending st = [] →
  withinWindow wait calls →
  (∀ c, head calls = Some c → now st ≤ c.1) →
  (∀ c, last calls = Some c → c.1 + wait ≤ T) →
  ∃ c, last calls = Some c
       ∧ world (callsAt func wait calls st) = world st
       ∧ world (advance func T (callsAt func wait calls st))
         = (func c.2 (world st)).2
       ∧ pending (advance func T (callsAt func wait calls st)) = [].
Proof.
  intros Hpending Hwindow Hnow HT.
  destruct calls as [|[t a] calls]; [done|].
  simpl in Hwindow.
  destruct (callsAt_follows calls (callAt func wait st (t, a)) t t a (world st))
    as (t' & a' & Hlast & Harmed).
  - apply callAt_first; [done|]. by apply (Hnow (t, a)).
  - done.
  - done.
  - exists (t', a'). split; [done|].
    destruct (advance_fires _ _ _ _ T Harmed) as [Hworld Hnone].
    { by apply (HT (t', a')). }
    split_and!; try done.
    by destruct Harmed as (id & _ & _ & _ & Hw).
Qed.

End Debounce.

Lemma writeParticipantStatus_events code id status w :
  accepts (str "sessions/" ++ code ++ str "/participants/" ++ id ++ str "/status")
    w = true ∨ default false (head (rejections w)) = true
             ∧ is_Some (database w)
             ∧ validPathString
                 (str "sessions/" ++ code ++ str "/participants/" ++ id
                    ++ str "/status") = true →
  newEvents w (writeParticipantStatus code id status w).2
  = [ StoreRequest
        (SetValue
           (str "sessions/" ++ code ++ str "/participants/" ++ id ++ str "/status")
           (JStr status))
        (negb (default false (head (rejections w)))) ].
Proof.
  unfold writeParticipantStatus, tryCatch, Eff.set, request.
  unfold mbind, M_bind, mret, M_ret, commit.
  intros [Hacc|(Hrej & [db Hdb] & Hvalid)].
  - apply accepts_true in Hacc as (db & Hdb & Hvalid & Hrej).
    rewrite Hdb, Hvalid, Hrej. simpl. unfold newEvents. simpl.
    by rewrite drop_trace.
  - rewrite Hdb, Hvalid, Hrej. simpl. unfold newEvents. simpl.
    by rewrite drop_trace.
Qed.

(** The store after the wrapped function ran: the status is stored when
    the write was sent and accepted; otherwise the store is as it was,
    and nothing was sent when the database is not connected or the path
    is refused. *)
Lemma writeParticipantStatus_store code id status w :
  let path := str "sessions/" ++ code ++ str "/participants/" ++ id ++ str "/status" in
  let w' := (writeParticipantStatus code id status w).2 in
  (accepts path w = true →
   ∃ db, database w = Some db
         ∧ database w' = Some (Store.set (segments path) (JStr status) db))
  ∧ (accepts path w = false → database w' = database w)
  ∧ (database w = None ∨ validPathString path = false → newEvents w w' = []).
Proof.
  intros path w'. unfold w', writeParticipantStatus, tryCatch. fold path.
  split_and!.
  - intros Hacc. destruct (proj1 (accepts_true _ _) Hacc) as (db & Hdb & _).
    rewrite (set_accepted _ _ _ db Hdb Hacc). by exists db.
  - intros Hacc.
    by destruct (set_refused path (JStr status) w Hacc) as (e & w1 & -> & [->| ->]).
  - intros Hunsent. unfold Eff.set, request, mbind, M_bind, mret, M_ret.
    destruct (database w) as [db|].
    + destruct Hunsent as [Hn|Hv]; [done|]. rewrite Hv. simpl.
      unfold newEvents. by rewrite drop_all.
    + simpl. unfold newEvents. by rewrite drop_all.
Qed.

(** C7, as the code has it.  N >= 1 calls of the debounced
    [updateParticipantStatus] within one window of 500 ms are followed by
    one run of the wrapped function, with the arguments of the last
    call; nothing is written while the calls are made and no timer is
    left.  On a connected store and a valid path the run sends exactly
    one write, of the last status; when the store accepts it, the store
    holds that status under [sessions/{code}/participants/{id}/status],
    and when it is rejected the store is as it was.  When the database is
    not connected or the path is refused, no write is sent at all. *)
Theorem updateParticipantStatus_debounced
    (calls : list (N * statusArgs)) (st : Loop) (T : N) :
  pending st = [] →
  withinWindow updateParticipantStatus_wait calls →
  (∀ c, head calls = Some c → now st ≤ c.1) →
  (∀ c, last calls = Some c → c.1 + updateParticipantStatus_wait ≤ T) →
  updateParticipantStatus_wait = 500
  ∧ ∃ t code id status,
      last calls = Some (t, (code, id, status))
      ∧ world (foldl updateParticipantStatus st calls) = world st
      ∧ world (advance updateParticipantStatus_func T
                 (foldl updateParticipantStatus st calls))
        = (writeParticipantStatus code id status (world st)).2
      ∧ (is_Some (database (world st)) →
         validPathString
           (str "sessions/" ++ code ++ str "/participants/" ++ id ++ str "/status")
         = true →
         newEvents (world st)
           (world (advance updateParticipantStatus_func T
                     (foldl updateParticipantStatus st calls)))
         = [ StoreRequest
               (SetValue
                  (str "sessions/" ++ code ++ str "/participants/" ++ id
                     ++ str "/status")
                  (JStr status))
               (negb (default false (head (rejections (world st))))) ])
      ∧ pending (advance updateParticipantStatus_func T
                   (foldl updateParticipantStatus st calls)) = []
      ∧ let path :=
          str "sessions/" ++ code ++ str "/participants/" ++ id ++ str "/status" in
        let w' :=
          world (advance updateParticipantStatus_func T
                   (foldl updateParticipantStatus st calls)) in
        (accepts path (world st) = true →
         ∃ db, database (world st) = Some db
               ∧ database w' = Some (Store.set (segments path) (JStr status) db)
               ∧ valueAt path w' = JStr status)
        ∧ (accepts path (world st) = false → database w' = database (world st))
        ∧ (database (world st) = None ∨ validPathString path = false →
           newEvents (world st) w' = []).
Proof.
  intros Hpending Hwindow Hnow HT. split; [done|].
  destruct (debounce_last updateParticipantStatus_func
              updateParticipantStatus_wait calls st T Hpending Hwindow Hnow HT)
    as ([t [[code id] status]] & Hlast & Hquiet & Hrun & Hnone).
  exists t, code, id, status.
  change (foldl updateParticipantStatus st calls)
    with (callsAt updateParticipantStatus_func updateParticipantStatus_wait
            calls st).
  rewrite Hrun. unfold updateParticipantStatus_func. cbn [fst snd].
  destruct (writeParticipantStatus_store code id status (world st))
    as (Hyes & Hno & Hunsent).
  split_and!; try done.
  - intros Hdb Hvalid.
    apply writeParticipantStatus_events.
    destruct (default false (head (rejections (world st)))) eqn:Hrej.
    + right. done.
    + left. apply accepts_true. destruct Hdb as [db Hdb]. by exists db.
  - intros Hacc. destruct (Hyes Hacc) as (db & Hdb & Hdb').
    exists db. split_and!; try done.
    unfold valueAt. rewrite Hdb'. apply get_set.
Qed.

(** Three calls within 500 ms on a store that holds the session. *)
Lemma updateParticipantStatus_debounced_witness :
  let w' :=
    world (advance updateParticipantStatus_func 2000
       (foldl updateParticipantStatus (idle (createdWith []))
          [ (100, (code1, str "p1", str "online"));
            (300, (code1, str "p1", str "away"));
            (550, (code1, str "p1", str "offline")) ])) in
  newEvents (createdWith []) w'
  = [ StoreRequest
        (SetValue (str "sessions/ABC234/participants/p1/status")
           (JStr (str "offline"))) true ]
  ∧ valueAt (str "sessions/ABC234/participants/p1/status") w'
    = JStr (str "offline").
Proof.
  destruct (updateParticipantStatus_debounced
              [ (100, (code1, str "p1", str "online"));
                (300, (code1, str "p1", str "away"));
                (550, (code1, str "p1", str "offline")) ]
              (idle (createdWith [])) 2000)
    as (_ & t & code & id & status & Hlast & _ & _ & Hone & _ & Hyes & _).
  - done.
  - simpl. unfold updateParticipantStatus_wait. lia.
  - intros c [= <-]. simpl. lia.
  - intros c [= <-]. simpl. unfold updateParticipantStatus_wait. lia.
  - injection Hlast as <- <- <- <-. split.
    + apply Hone; [by eexists|by vm_compute].
    + destruct Hyes as (db & _ & _ & Hvalue); [by vm_compute|exact Hvalue].
Defined.

(** C7, as stated, fails: the same three calls on a page whose database
    is not connected, or for a participant id that the store refuses as
    part of a path, are followed by no write at all. *)
Lemma updateParticipantStatus_unsent :
  let calls id :=
    [ (100, (code1, id, str "online"));
      (300, (code1, id, str "away"));
      (550, (code1, id, str "offline")) ] in
  trace (world (advance updateParticipantStatus_func 2000
                  (foldl updateParticipantStatus (idle offline)
                     (calls (str "p1"))))) = []
  ∧ trace (world (advance updateParticipantStatus_func 2000
                    (foldl updateParticipantStatus (idle (createdWith []))
                       (calls (str "p.1"))))) = []
  ∧ database (world (advance updateParticipantStatus_func 2000
                       (foldl updateParticipantStatus (idle (createdWith []))
                          (calls (str "p.1")))))
    = database (createdWith []).
Proof. by vm_compute. Qed.

End TimersFacts.
(** ** The serverless proxies *)

Module ProxyFacts.
Import Js Store Proxy.

#[local] Arguments pair {A B} & _ _.

Example includes_sample :
  includes (str "{{") (str "sk-{{OPENAI}}") = true
  ∧ includes (str "{{") (str "sk-123{") = false.
Proof. by vm_compute. Qed.

(** C8, as the code has it.  A POST request leads to at most one upstream
    call, with the abort delay of 30 s (themes) or 60 s (transcription),
    and to exactly one when it passes the checks made before the call;
    nothing is retried.  A request that fails a check is answered
    without a call: with the 500 response when the key is not
    configured or the body cannot be read, and with status 400 and a
    body that holds only [error] when the prompt is missing or the
    content type is not multipart/form-data.  When the call is made and
    [fetch] is aborted by the timer or rejects, or the response has an
    error status, or its body is read and cannot be used, the answer is
    the 500 response whose body holds [error] and [message]; an abort
    gives the timeout message.  A success body is only sent after a
    successful call.  The timer is cleared once [fetch] has settled:
    when the body of the response then never ends, the handler gives no
    answer at all. *)
Theorem proxies_forward_once
    (key : option jsstring) (te : ThemeEvent) (ae : AudioEvent)
    (tr : Reply Completion) (ar : Reply (Json * Json)) :
  themeMethod te = str "POST" → audioMethod ae = str "POST" →
  let '(tres, tcalls) := openaiHandler key te tr in
  let '(ares, acalls) := whisperHandler key ae ar in
  (tcalls = if themeRequestValid key te then [openaiCall] else [])
  ∧ (acalls = if audioRequestValid key ae then [whisperCall] else [])
  ∧ timeoutMs openaiCall = 30000%Z ∧ timeoutMs whisperCall = 60000%Z
  (* requests that fail a check *)
  ∧ (keyMissing key = true →
     tres = openaiFailure (str "OpenAI API key not configured")
     ∧ ares = whisperFailure (str "OpenAI API key not configured"))
  ∧ (keyMissing key = false →
     match themeBody te with
     | NotJson message => tres = openaiFailure message
     | Parsed prompt _ =>
         falsy (default [] prompt) = true →
         tres = {| statusCode := 400;
                   payload := ErrorPayload (str "Prompt is required") None |}
     end)
  ∧ (keyMissing key = false →
     if includes (str "multipart/form-data") (default [] (contentType ae))
     then audioBody ae = None →
          ∃ message, ares = whisperFailure message
     else ares = {| statusCode := 400;
                    payload := ErrorPayload
                                 (str "Content-Type must be multipart/form-data")
                                 None |})
  (* requests that reach the upstream API *)
  ∧ (themeRequestValid key te = true →
     match tr with
     | Stalled => tres = Pending
     | Success (inr completion) =>
         tres = {| statusCode := 200;
                   payload := ThemesPayload (themesOfCompletion completion)
                                (usage completion) |}
     | Aborted =>
         tres = openaiFailure
                  (str "Request timeout - OpenAI API took too long to respond")
     | _ => ∃ message, tres = openaiFailure message
     end)
  ∧ (audioRequestValid key ae = true →
     match ar with
     | Stalled => ares = Pending
     | Success (inr (text, duration)) =>
         ares = {| statusCode := 200; payload := TranscriptPayload text duration |}
     | Aborted =>
         ares = whisperFailure
                  (str "Request timeout - audio transcription took too long")
     | _ => ∃ message, ares = whisperFailure message
     end)
  ∧ (∀ message,
       statusCode (openaiFailure message) = 500%Z
       ∧ isErrorWithMessage (openaiFailure message) = true
       ∧ isSuccessBody (openaiFailure message) = false
       ∧ statusCode (whisperFailure message) = 500%Z
       ∧ isErrorWithMessage (whisperFailure message) = true
       ∧ isSuccessBody (whisperFailure message) = false)
  ∧ (∀ r, tres = Responds r → isSuccessBody r = true →
     themeRequestValid key te = true ∧ isSuccess tr = true
     ∧ statusCode r = 200%Z)
  ∧ (∀ r, ares = Responds r → isSuccessBody r = true →
     audioRequestValid key ae = true ∧ isSuccess ar = true
     ∧ statusCode r = 200%Z)
  ∧ (tres = Pending → themeRequestValid key te = true ∧ tr = Stalled)
  ∧ (ares = Pending → audioRequestValid key ae = true ∧ ar = Stalled).
Proof.
  intros Ht Ha.
  destruct (openaiHandler key te tr) as [tres tcalls] eqn:Hth.
  destruct (whisperHandler key ae ar) as [ares acalls] eqn:Hah.
  unfold openaiHandler in Hth. unfold whisperHandler in Hah.
  rewrite Ht in Hth. rewrite Ha in Hah.
  unfold themeRequestValid, audioRequestValid.
  change (bool_decide (str "POST" = str "OPTIONS")) with false in *.
  change (bool_decide (str "POST" = str "POST")) with true in *.
  cbn [negb] in *.
  destruct (keyMissing key) eqn:Hkey; cbn [negb andb] in *.
  { injection Hth as <- <-. injection Hah as <- <-.
    split_and!; try done;
      intros r [= <-] Hbody; by vm_compute in Hbody. }
  split_and!; try done.
  - destruct (themeBody te) as [m|prompt mt]; [by injection Hth as <- <-|].
    destruct (falsy (default [] prompt)); by injection Hth as <- <-.
  - destruct (includes _ _); [|by injection Hah as <- <-].
    destruct (audioBody ae); by injection Hah as <- <-.
  - intros _.
    destruct (themeBody te) as [m|prompt mt]; [by injection Hth as <- <-|].
    intros Hprompt. rewrite Hprompt in Hth. by injection Hth as <- <-.
  - intros _. destruct (includes _ _); [|by injection Hah as <- <-].
    intros Hbody. rewrite Hbody in Hah. injection Hah as <- <-. by eexists.
  - destruct (themeBody te) as [m|prompt mt]; [done|].
    destruct (falsy (default [] prompt)); [done|]. intros _.
    injection Hth as <- <-.
    destruct tr as [| |[]|[|]|]; try done; by eexists.
  - destruct (includes _ _); [|done].
    destruct (audioBody ae); [|done]. intros _.
    injection Hah as <- <-.
    destruct ar as [| |[]|[|[]]|]; try done; by eexists.
  - intros r Hr Hbody.
    destruct (themeBody te) as [m|prompt mt];
      [injection Hth as <- <-; injection Hr as <-; done|].
    destruct (falsy (default [] prompt));
      [injection Hth as <- <-; injection Hr as <-; done|].
    injection Hth as <- <-.
    destruct tr as [| |[]|[|]|]; try done; injection Hr as <-; done.
  - intros r Hr Hbody.
    destruct (includes _ _);
      [|injection Hah as <- <-; injection Hr as <-; done].
    destruct (audioBody ae);
      [|injection Hah as <- <-; injection Hr as <-; done].
    injection Hah as <- <-.
    destruct ar as [| |[]|[|[]]|]; try done; injection Hr as <-; done.
  - intros Hp.
    destruct (themeBody te) as [m|prompt mt];
      [injection Hth as <- <-; done|].
    destruct (falsy (default [] prompt)); [injection Hth as <- <-; done|].
    injection Hth as <- <-. by destruct tr as [| |[]|[|]|].
  - intros Hp.
    destruct (includes _ _); [|injection Hah as <- <-; done].
    destruct (audioBody ae); [|injection Hah as <- <-; done].
    injection Hah as <- <-. by destruct ar as [| |[]|[|[]]|].
Qed.

(** C8, as stated, fails: a POST request without a prompt, or one that
    reaches a function whose key is not configured, is answered without
    any upstream call, the first with an error body that has no
    [message]; and a call whose response stalls after its headers is
    not cut off by the timer, so that no error payload is sent. *)
Lemma post_without_upstream_call :
  openaiHandler (Some (str "sk-live"))
    {| themeMethod := str "POST"; themeBody := Parsed None None |} Aborted
  = ({| statusCode := 400;
        payload := ErrorPayload (str "Prompt is required") None |}, [])
  ∧ (whisperHandler None
       {| audioMethod := str "POST";
          contentType := Some (str "multipart/form-data; boundary=x");
          audioBody := Some (str "UklGRg==") |} Aborted).2 = []
  ∧ openaiHandler (Some (str "sk-live"))
      {| themeMethod := str "POST";
         themeBody := Parsed (Some (str "Extract themes")) None |} Stalled
    = (Pending, [openaiCall]).
Proof. by vm_compute. Qed.

(** A request for themes whose call is aborted by the timer, and a
    request for a transcription that meets an error status. *)
Lemma proxies_forward_once_witness :
  openaiHandler (Some (str "sk-live"))
    {| themeMethod := str "POST";
       themeBody := Parsed (Some (str "Extract themes")) None |} Aborted
  = (failure (str "Failed to generate themes")
       (str "Request timeout - OpenAI API took too long to respond"),
     [openaiCall])
  ∧ (whisperHandler (Some (str "sk-live"))
       {| audioMethod := str "POST";
          contentType := Some (str "multipart/form-data; boundary=x");
          audioBody := Some (str "UklGRg==") |} (ErrorStatus None)).2
    = [whisperCall].
Proof.
  pose proof (proxies_forward_once (Some (str "sk-live"))
    {| themeMethod := str "POST";
       themeBody := Parsed (Some (str "Extract themes")) None |}
    {| audioMethod := str "POST";
       contentType := Some (str "multipart/form-data; boundary=x");
       audioBody := Some (str "UklGRg==") |}
    Aborted (ErrorStatus None) eq_refl eq_refl) as H.
  destruct (openaiHandler _ _ _) as [tres tcalls] eqn:Ht.
  destruct (whisperHandler _ _ _) as [ares acalls] eqn:Ha.
  destruct H as (Htcalls & Hacalls & _ & _ & _ & _ & _ & Hreply & _).
  split.
  - rewrite Htcalls, Hreply by (by vm_compute). by vm_compute.
  - simpl. rewrite Hacalls. by vm_compute.
Defined.

End ProxyFacts.

(** ** More on the persistence adapter *)

Module AdapterFacts.
Import Js Store Eff FirebaseService Views Samples StoreFacts FirebaseFacts.

#[local] Opaque str.
#[local] Arguments validPathString : simpl never.
#[local] Arguments segments : simpl never.
#[local] Arguments Store.set : simpl never.
#[local] Arguments Store.update : simpl never.
#[local] Arguments get : simpl never.
#[local] Arguments integer : simpl never.
#[local] Arguments numberToString : simpl never.

(** *** Objects and paths *)

Lemma node_insert (k : jsstring) (v : Json) (m : gmap jsstring Json) :
  node (<[k := v]> m) = JObj (<[k := v]> m).
Proof.
  unfold node. destruct (Nat.eqb_spec (size (<[k := v]> m)) 0) as [H|]; [|done].
  apply map_size_empty_iff in H. by apply insert_non_empty in H.
Qed.

Lemma child_node (k : jsstring) (m : gmap jsstring Json) :
  child k (node m) = default JNull (m !! k).
Proof. unfold child. by rewrite children_node. Qed.

Lemma get_app p r t : get (p ++ r) t = get r (get p t).
Proof.
  revert t. induction p as [|k p IH]; intros t; [done|].
  cbn [app]. unfold get at 1 3. fold get. apply IH.
Qed.

Lemma get_cons k p t : get (k :: p) t = get p (child k t).
Proof. done. Qed.

Lemma get_nil t : get [] t = t.
Proof. done. Qed.

(** A field of a session lies below the session, whatever the code. *)
Lemma segments_field code name :
  segments (str "sessions/" ++ code ++ str "/" ++ name)
  = segments (str "sessions/" ++ code) ++ segments name.
Proof.
  change (str "/" ++ name) with (slash :: name).
  rewrite (app_assoc (str "sessions/") code (slash :: name)).
  apply segments_slash.
Qed.

Lemma sessionField_get code name w db :
  database w = Some db →
  sessionField code name w
  = get (segments name) (get (segments (str "sessions/" ++ code)) db).
Proof.
  intros Hdb. unfold sessionField. by rewrite Hdb, segments_field, get_app.
Qed.

Ltac key_literal :=
  split; [literal_ne|apply (bool_decide_unpack _); by vm_compute].

(** Reads a property of an object literal. *)
Ltac read_literal :=
  unfold obj; cbn [foldl put isNull fst snd];
  rewrite child_node;
  rewrite ?lookup_insert_ne by literal_ne;
  rewrite ?lookup_insert_eq, ?lookup_empty; try reflexivity.

(** *** createSession *)

Lemma createSession_true code f n w :
  (createSession code f n w).1 = Normal (JBool true) →
  ∃ db, database w = Some db
        ∧ accepts (str "sessions/" ++ code) w = true
        ∧ database (createSession code f n w).2
          = Some (Store.set (segments (str "sessions/" ++ code))
                    (obj [ (str "code", JStr code);
                           (str "facilitatorId", JStr f);
                           (str "facilitatorName", JStr n);
                           (str "createdAt", JNum (clock w));
                           (str "phase", JNum 0);
                           (str "timerActive", JBool false);
                           (str "timerDuration", JNum 0);
                           (str "status", JStr (str "active")) ]) db)
        ∧ rejections (createSession code f n w).2 = tail (rejections w).
Proof.
  unfold createSession, tryCatch. unfold mbind, M_bind, timestamp.
  write_cases; page; try done. intros _. by exists db.
Qed.

Lemma exists_below p r v t :
  isNull v = false → exists_ p (Store.set (p ++ r) v t) = true.
Proof.
  intros Hv. unfold exists_. rewrite get_set_below.
  destruct r as [|k r]; [unfold Store.set; by rewrite Hv|].
  assert (isNull (Store.set r v (child k (get p t))) = false) as Hin.
  { clear -Hv. generalize (child k (get p t)).
    induction r as [|k' r IH]; intros t'; [done|].
    unfold Store.set. fold Store.set. unfold put. rewrite IH.
    by rewrite node_insert. }
  unfold Store.set. fold Store.set. unfold put. rewrite Hin.
  by rewrite node_insert.
Qed.

Lemma sessionExists_true code w db :
  database w = Some db →
  accepts (str "sessions/" ++ code) w = true →
  exists_ (segments (str "sessions/" ++ code)) db = true →
  (sessionExists code w).1 = Normal true.
Proof.
  intros Hdb Hacc Hex. by rewrite (sessionExists_accepted _ _ db), Hex.
Qed.

(** X1. A session that [createSession] stored is read back field by
    field, and [sessionExists] finds it. *)
Theorem createSession_then_read (code f n : jsstring) (w : World) :
  (createSession code f n w).1 = Normal (JBool true) →
  let w' := (createSession code f n w).2 in
  sessionField code (str "code") w' = JStr code
  ∧ sessionField code (str "facilitatorId") w' = JStr f
  ∧ sessionField code (str "facilitatorName") w' = JStr n
  ∧ sessionField code (str "createdAt") w' = JNum (clock w)
  ∧ sessionField code (str "phase") w' = JNum 0
  ∧ sessionField code (str "timerActive") w' = JBool false
  ∧ sessionField code (str "timerDuration") w' = JNum 0
  ∧ sessionField code (str "status") w' = JStr (str "active")
  ∧ (accepts (str "sessions/" ++ code) w' = true →
     (sessionExists code w').1 = Normal true).
Proof.
  intros (db & Hdb & Hacc & Hdb' & Hrej)%createSession_true w'.
  fold w' in Hdb'.
  split_and!;
    try (rewrite (sessionField_get _ _ _ _ Hdb'), get_set;
         rewrite segments_key by key_literal;
         rewrite get_cons, get_nil; by read_literal).
  intros Hacc'. apply (sessionExists_true _ _ _ Hdb' Hacc').
  unfold exists_. rewrite get_set. unfold obj. cbn [foldl put isNull fst snd].
  by rewrite node_insert.
Qed.

Lemma createSession_then_read_witness :
  sessionField code1 (str "facilitatorName")
    (createSession code1 (str "f1") (str "Ann") fresh).2 = JStr (str "Ann")
  ∧ (sessionExists code1 (createSession code1 (str "f1") (str "Ann") fresh).2).1
    = Normal true.
Proof.
  pose proof (createSession_then_read code1 (str "f1") (str "Ann") fresh)
    as H.
  destruct H as (_ & _ & Hname & _ & _ & _ & _ & _ & Hex);
    [vm_compute; reflexivity|].
  split; [exact Hname|]. apply Hex. vm_compute. reflexivity.
Defined.

Lemma createSession_participants code f n w :
  (createSession code f n w).1 = Normal (JBool true) →
  participants code (createSession code f n w).2 = ∅.
Proof.
  intros (db & Hdb & Hacc & Hdb' & Hrej)%createSession_true.
  unfold participants, valueAt. rewrite Hdb'.
  change (str "/participants") with (str "/" ++ str "participants").
  rewrite segments_field, get_app, get_set.
  rewrite segments_key by key_literal.
  rewrite get_cons, get_nil. by read_literal.
Qed.

(** X2. [createSession] replaces the record of its code: after a
    successful call on a code that was in use, the participants who had
    joined that session are no longer in it. *)
Theorem createSession_drops_participants (code f n : jsstring) (w : World) :
  (createSession code f n w).1 = Normal (JBool true) →
  participants code (createSession code f n w).2 = ∅.
Proof. apply createSession_participants. Qed.

(** The participant [p1] of the session [code1] is gone once the code is
    used for a new session. *)
Lemma createSession_drops_participants_witness :
  let joined := (joinSession code1 (str "p1") (str "Bob") created).2 in
  participants code1 joined !! str "p1"
  = Some (participantData (str "p1") (str "Bob") (clock created))
  ∧ participants code1 (createSession code1 (str "f2") (str "Eve") joined).2 = ∅.
Proof.
  intros joined. split; [vm_compute; reflexivity|].
  apply createSession_drops_participants. vm_compute. reflexivity.
Defined.

(** *** Writes on a session that is not there *)

Lemma updatePhase_true code i w :
  (updatePhase code i w).1 = Normal (JBool true) →
  ∃ db, database w = Some db
        ∧ database (updatePhase code i w).2
          = Some (Store.set (segments (str "sessions/" ++ code ++ str "/phase"))
                    (JNum i) db).
Proof.
  unfold updatePhase, tryCatch. unfold mbind, M_bind.
  write_cases; page; try done. intros _. by exists db.
Qed.

Lemma endSession_true code w :
  (endSession code w).1 = Normal (JBool true) →
  ∃ db, database w = Some db
        ∧ database (endSession code w).2
          = Some (Store.set (segments (str "sessions/" ++ code ++ str "/status"))
                    (JStr (str "ended")) db).
Proof.
  unfold endSession, tryCatch. unfold mbind, M_bind.
  write_cases; page; try done. intros _. by exists db.
Qed.

Lemma updateTimer_true code a d w :
  (updateTimer code a d w).1 = Normal (JBool true) →
  ∃ db, database w = Some db
        ∧ database (updateTimer code a d w).2
          = Some (Store.set (segments (str "sessions/" ++ code) ++ [str "timerDuration"])
                    (JNum d)
                    (Store.set (segments (str "sessions/" ++ code) ++ [str "timerActive"])
                       (JBool a) db)).
Proof.
  unfold updateTimer, tryCatch. unfold mbind, M_bind.
  write_cases; page; try done. intros _. by exists db.
Qed.

Lemma segments_field_key code name :
  isKey name →
  segments (str "sessions/" ++ code ++ str "/" ++ name)
  = segments (str "sessions/" ++ code) ++ [name].
Proof. intros. by rewrite segments_field, (segments_key name). Qed.

(** X3. [updatePhase], [updateTimer] and [endSession] do not ask whether
    the session exists.  When the store accepts the write, the code has a
    record afterwards, also when it had none before, and [sessionExists]
    answers [true] for it. *)
Theorem write_makes_session_exist (code : jsstring) (op : WriteOp) (w : World) :
  (∃ i, op = UpdatePhase code i) ∨ (∃ a d, op = UpdateTimer code a d)
  ∨ op = EndSession code →
  (call op w).1 = Normal (JBool true) →
  accepts (str "sessions/" ++ code) (call op w).2 = true →
  (sessionExists code (call op w).2).1 = Normal true.
Proof.
  intros [[i ->]|[(a & d & ->)| ->]]; simpl; intros Hok Hacc.
  - apply updatePhase_true in Hok as (db & Hdb & Hdb').
    apply (sessionExists_true _ _ _ Hdb' Hacc).
    change (str "/phase") with (str "/" ++ str "phase").
    rewrite segments_field_key by key_literal. by apply exists_below.
  - apply updateTimer_true in Hok as (db & Hdb & Hdb').
    apply (sessionExists_true _ _ _ Hdb' Hacc). by apply exists_below.
  - apply endSession_true in Hok as (db & Hdb & Hdb').
    apply (sessionExists_true _ _ _ Hdb' Hacc).
    change (str "/status") with (str "/" ++ str "status").
    rewrite segments_field_key by key_literal. by apply exists_below.
Qed.

(** On the empty store no session exists; after a phase change on a code
    nobody created, one does. *)
Lemma write_makes_session_exist_witness :
  (sessionExists code1 fresh).1 = Normal false
  ∧ (sessionExists code1 (call (UpdatePhase code1 2) fresh).2).1 = Normal true.
Proof.
  split; [vm_compute; reflexivity|].
  apply (write_makes_session_exist code1 (UpdatePhase code1 2) fresh).
  - left. by exists 2%Z.
  - vm_compute. reflexivity.
  - vm_compute. reflexivity.
Defined.

(** *** Participants *)

Lemma participantData_object id name now :
  ∃ m, participantData id name now = JObj m.
Proof.
  unfold participantData, obj. cbn [foldl put isNull fst snd].
  rewrite delete_insert_ne by literal_ne.
  rewrite node_insert. by eexists.
Qed.

Lemma set_child_object (k : jsstring) (v t : Json) m :
  v = JObj m → children (Store.set [k] v t) = <[k := v]> (children t).
Proof.
  intros ->. unfold Store.set, put. simpl. by rewrite children_node.
Qed.

Lemma segments_participants_id code id :
  isKey id →
  segments (str "sessions/" ++ code ++ str "/participants/" ++ id)
  = segments (str "sessions/" ++ code ++ str "/participants") ++ [id].
Proof.
  intros Hid.
  change (str "/participants/" ++ id) with (str "/participants" ++ slash :: id).
  rewrite !app_assoc. by rewrite segments_slash, (segments_key id).
Qed.

(** A successful [joinSession] stored its record on top of the store it
    ran on. *)
Lemma joinSession_true code id name w :
  (joinSession code id name w).1 = Normal (JBool true) →
  ∃ db, database w = Some db
        ∧ database (joinSession code id name w).2
          = Some (Store.set
                    (segments (str "sessions/" ++ code ++ str "/participants/" ++ id))
                    (participantData id name (clock w)) db).
Proof.
  destruct (sessionExists_total code w)
    as (present & w1 & Hex & Hdb & Hclock & reads & Htrace & Hreads).
  rewrite (joinSession_after _ _ _ _ _ _ Hex), Hclock.
  destruct present; [|done].
  write_cases; page; try done. intros _. exists db. split; [congruence|done].
Qed.

Lemma joinSession_record code id name w :
  isKey id →
  (joinSession code id name w).1 = Normal (JBool true) →
  participants code (joinSession code id name w).2
  = <[id := participantData id name (clock w)]> (participants code w).
Proof.
  intros Hid (db & Hdb & Hdb')%joinSession_true.
  unfold participants, valueAt. rewrite Hdb', Hdb.
  rewrite segments_participants_id by done. rewrite get_set_below.
  destruct (participantData_object id name (clock w)) as [m Hm].
  by apply (set_child_object _ _ _ m).
Qed.

(** X4. A successful [joinSession] changes one entry of the session's
    participants: the record of its participant id is added, or replaces
    the one that was there, and the records of all other participants
    stay.  Joining again under the same id does not add a second entry. *)
Theorem joinSession_one_record (code id name : jsstring) (w : World) :
  isKey id →
  (joinSession code id name w).1 = Normal (JBool true) →
  let w' := (joinSession code id name w).2 in
  participants code w' !! id = Some (participantData id name (clock w))
  ∧ (∀ other, other ≠ id → participants code w' !! other = participants code w !! other)
  ∧ (is_Some (participants code w !! id) →
     size (participants code w') = size (participants code w)).
Proof.
  intros Hid Hok w'. unfold w'. rewrite joinSession_record by done.
  split_and!.
  - apply lookup_insert_eq.
  - intros other Hother. by apply lookup_insert_ne.
  - intros [r Hr]. rewrite <- (insert_delete_id _ _ _ Hr) at 2.
    rewrite <- (insert_delete_eq (participants code w)).
    by rewrite !map_size_insert_None by apply lookup_delete_eq.
Qed.

(** Bob joins the session [code1] twice, the second time as Rob. *)
Lemma joinSession_one_record_witness :
  let joined := (joinSession code1 (str "p1") (str "Bob") created).2 in
  let again := (joinSession code1 (str "p1") (str "Rob") joined).2 in
  size (participants code1 joined) = 1%nat
  ∧ size (participants code1 again) = 1%nat
  ∧ participants code1 again !! str "p1"
    = Some (participantData (str "p1") (str "Rob") (clock joined)).
Proof.
  intros joined again.
  assert (isKey (str "p1")) as Hid by key_literal.
  assert ((joinSession code1 (str "p1") (str "Rob") joined).1
          = Normal (JBool true)) as Hok by (vm_compute; reflexivity).
  destruct (joinSession_one_record code1 (str "p1") (str "Rob") joined Hid Hok)
    as (Hrec & _ & Hsize).
  assert (size (participants code1 joined) = 1%nat) as H1
    by (vm_compute; reflexivity).
  split; [exact H1|]. split; [|exact Hrec].
  unfold again. rewrite Hsize; [exact H1|]. vm_compute. eexists. reflexivity.
Defined.

(** X5. The adapter does not look at a session's status when a
    participant joins: after [endSession] succeeded, [joinSession] on the
    ended session still succeeds when the store accepts its two requests,
    and the participant is recorded. *)
Theorem joinSession_after_endSession (code id name : jsstring) (w : World) :
  isKey id →
  (endSession code w).1 = Normal (JBool true) →
  let w1 := (endSession code w).2 in
  accepts (str "sessions/" ++ code) w1 = true →
  accepts (str "sessions/" ++ code ++ str "/participants/" ++ id)
    (sessionExists code w1).2 = true →
  (joinSession code id name w1).1 = Normal (JBool true)
  ∧ participants code (joinSession code id name w1).2 !! id
    = Some (participantData id name (clock w1)).
Proof.
  intros Hid Hend w1 Hread Hwrite.
  assert ((joinSession code id name w1).1 = Normal (JBool true)) as Hok.
  { destruct (endSession_true _ _ Hend) as (db & Hdb & Hdb'). fold w1 in Hdb'.
    pose proof (sessionExists_accepted _ _ _ Hdb' Hread) as Hex.
    rewrite Hex in Hwrite. simpl in Hwrite.
    rewrite (joinSession_after _ _ _ _ _ _ Hex).
    change (str "/status") with (str "/" ++ str "status").
    rewrite segments_field_key by key_literal.
    rewrite exists_below by done.
    destruct (proj1 (accepts_true _ _) Hwrite) as (db1 & Hdb1 & _).
    by rewrite (set_accepted _ _ _ db1). }
  split; [done|]. rewrite joinSession_record by done. apply lookup_insert_eq.
Qed.

Lemma joinSession_after_endSession_witness :
  sessionField code1 (str "status") ended = JStr (str "ended")
  ∧ (joinSession code1 (str "p1") (str "Bob") ended).1 = Normal (JBool true).
Proof.
  split; [vm_compute; reflexivity|].
  apply (joinSession_after_endSession code1 (str "p1") (str "Bob") created).
  - key_literal.
  - vm_compute. reflexivity.
  - vm_compute. reflexivity.
  - vm_compute. reflexivity.
Defined.

(** *** The timer fields *)

Lemma diverge_last p (a b : jsstring) rest :
  a ≠ b → diverge (p ++ [a]) (p ++ b :: rest).
Proof.
  intros Hne. induction p as [|k p IH]; simpl; [by left|].
  right. by split.
Qed.

Lemma diverge_after p (a b : jsstring) r1 r2 :
  a ≠ b → diverge (p ++ a :: r1) (p ++ b :: r2).
Proof.
  intros Hne. induction p as [|k p IH]; simpl; [by left|].
  right. by split.
Qed.

(** X6. A successful [updateTimer] stores both timer fields of the
    session, and leaves every other field of the record as it was. *)
Theorem updateTimer_sets_two_fields (code : jsstring) (active : bool)
    (duration : Z) (w : World) :
  (updateTimer code active duration w).1 = Normal (JBool true) →
  let w' := (updateTimer code active duration w).2 in
  sessionField code (str "timerActive") w' = JBool active
  ∧ sessionField code (str "timerDuration") w' = JNum duration
  ∧ ∀ name, isKey name →
      name ≠ str "timerActive" → name ≠ str "timerDuration" →
      sessionField code name w' = sessionField code name w.
Proof.
  intros (db & Hdb & Hdb')%updateTimer_true w'. fold w' in Hdb'.
  unfold sessionField. rewrite Hdb', Hdb. split_and!.
  - rewrite segments_field_key by key_literal.
    rewrite get_set_diverge by (apply (diverge_last _ _ _ []); literal_ne).
    apply get_set.
  - rewrite segments_field_key by key_literal. apply get_set.
  - intros name Hname Hactive Hduration.
    rewrite segments_field_key by done.
    rewrite !get_set_diverge; [done|by apply (diverge_last _ _ _ [])..].
Qed.

(** A five minute timer on the session [code1]. *)
Lemma updateTimer_sets_two_fields_witness :
  let w' := (updateTimer code1 true 300 created).2 in
  sessionField code1 (str "timerActive") w' = JBool true
  ∧ sessionField code1 (str "timerDuration") w' = JNum 300
  ∧ sessionField code1 (str "phase") w' = sessionField code1 (str "phase") created.
Proof.
  destruct (updateTimer_sets_two_fields code1 true 300 created)
    as (Hactive & Hduration & Hrest); [vm_compute; reflexivity|].
  split; [exact Hactive|]. split; [exact Hduration|].
  apply Hrest; [key_literal|literal_ne|literal_ne].
Defined.

(** *** Transcripts *)

Lemma decimal_digits n :
  Forall (fun c => 48 ≤ c ≤ 57) (decimal n) ∧ decimal n ≠ [].
Proof. apply JsObjectFacts.pretty_N_digits. Qed.


Lemma isKey_push n : isKey (str "-N" ++ decimal n).
Proof.
  split.
  - intros H. apply app_eq_nil in H as [H _]. revert H. literal_ne.
  - intros [H|H]%elem_of_app.
    + revert H. apply (bool_decide_unpack _). by vm_compute.
    + destruct (decimal_digits n) as [Hd _].
      rewrite Forall_forall in Hd. apply Hd in H. unfold slash in H. lia.
Qed.


Lemma segments_below (root code key : jsstring) :
  isKey key →
  segments (root ++ code ++ str "/" ++ key) = segments (root ++ code) ++ [key].
Proof.
  intros Hkey. change (str "/" ++ key) with (slash :: key).
  by rewrite app_assoc, segments_slash, (segments_key key).
Qed.

Lemma saveTranscript_true code table phase text duration w key :
  (saveTranscript code table phase text duration w).1 = Normal (JStr key) →
  key = str "-N" ++ decimal (pushed w)
  ∧ ∃ db, database w = Some db
      ∧ database (saveTranscript code table phase text duration w).2
        = Some (Store.set (segments (str "transcripts/" ++ code) ++ [key])
                  (obj [ (str "sessionCode", JStr code);
                         (str "tableNumber", JNum table);
                         (str "phaseIndex", JNum phase);
                         (str "transcript", JStr text);
                         (str "duration", JNum duration);
                         (str "timestamp", JNum (clock w)) ]) db).
Proof.
  unfold saveTranscript, tryCatch. unfold mbind, M_bind, timestamp, push.
  destruct (database w) as [db0|] eqn:Hdb0; [|by page].
  destruct (validPathString (str "transcripts/" ++ code)); simpl; [|by page].
  write_cases; page; try done. intros [= <-]. split; [done|].
  exists db0. split; [done|].
  rewrite <- (segments_below (str "transcripts/")) by apply isKey_push.
  simpl in Hdb. by injection Hdb as <-.
Qed.

Lemma elem_of_List_filter {A} (P : A → bool) (l : list A) (x : A) :
  x ∈ List.filter P l ↔ P x = true ∧ x ∈ l.
Proof. rewrite !list_elem_of_In, List.filter_In. tauto. Qed.

Lemma getTranscripts_accepted code filter w :
  accepts (str "transcripts/" ++ code) w = true →
  (getTranscripts code filter w).1
  = Normal (List.filter
              (fun kv => selected
                           (match filter with
                            | Some z => Some (str "phaseIndex", z)
                            | None => None
                            end) kv.2)
              (sortByKey (map_to_list (transcripts code w)))).
Proof.
  intros Hacc. destruct (proj1 (accepts_true _ _) Hacc) as (db & Hdb & _).
  unfold getTranscripts, tryCatch, onceChildren. unfold mbind, M_bind.
  rewrite (request_accepted _ _ _ db) by done.
  unfold transcripts, valueAt. by rewrite Hdb.
Qed.

(** X7. A transcript that [saveTranscript] stored is filed under the key
    it returned, beside the transcripts that were there.  A following
    [getTranscripts] that the store answers returns it when asked for
    all phases or for its own phase, and not when asked for another
    phase; whatever else it returns was stored before. *)
Theorem saveTranscript_then_getTranscripts (code : jsstring) (table phase : Z)
    (text : jsstring) (duration : Z) (key : jsstring) (w : World) :
  (saveTranscript code table phase text duration w).1 = Normal (JStr key) →
  let w' := (saveTranscript code table phase text duration w).2 in
  ∃ record,
    child (str "sessionCode") record = JStr code
    ∧ child (str "tableNumber") record = JNum table
    ∧ child (str "phaseIndex") record = JNum phase
    ∧ child (str "transcript") record = JStr text
    ∧ child (str "duration") record = JNum duration
    ∧ child (str "timestamp") record = JNum (clock w)
    ∧ transcripts code w' = <[key := record]> (transcripts code w)
    ∧ (accepts (str "transcripts/" ++ code) w' = true →
       ∀ filter, ∃ found,
         (getTranscripts code filter w').1 = Normal found
         ∧ ((key, record) ∈ found ↔ filter = None ∨ filter = Some phase)
         ∧ ∀ k r, (k, r) ∈ found → k ≠ key → transcripts code w !! k = Some r).
Proof.
  intros (Hkey & db & Hdb & Hdb')%saveTranscript_true w'. fold w' in Hdb'.
  set (record := obj [ (str "sessionCode", JStr code);
                       (str "tableNumber", JNum table);
                       (str "phaseIndex", JNum phase);
                       (str "transcript", JStr text);
                       (str "duration", JNum duration);
                       (str "timestamp", JNum (clock w)) ]) in *.
  assert (child (str "phaseIndex") record = JNum phase) as Hphase
    by (unfold record; by read_literal).
  assert (transcripts code w' = <[key := record]> (transcripts code w)) as Hmap.
  { unfold transcripts, valueAt. rewrite Hdb', Hdb, get_set_below.
    eapply set_child_object. unfold record, obj.
    cbn [foldl put isNull fst snd]. apply node_insert. }
  exists record.
  split_and!; [unfold record; by read_literal..|done|].
  intros Hacc filter. eexists. split; [by apply getTranscripts_accepted|].
  rewrite Hmap. split.
  - rewrite elem_of_List_filter, elem_of_sortByKey, elem_of_map_to_list,
      lookup_insert_eq.
    cbn [snd]. split.
    + intros [Hsel _]. destruct filter as [z|]; [right|by left].
      unfold selected in Hsel. rewrite Hphase in Hsel.
      by apply Z.eqb_eq in Hsel as ->.
    + intros Hfilter. split; [|done].
      destruct Hfilter as [->| ->]; [done|].
      unfold selected. rewrite Hphase. apply Z.eqb_refl.
  - intros k r [_ Hin]%elem_of_List_filter Hk.
    apply elem_of_sortByKey, elem_of_map_to_list in Hin.
    by rewrite lookup_insert_ne in Hin.
Qed.

(** A first transcript of the session [code1], of phase 0. *)
Lemma saveTranscript_then_getTranscripts_witness :
  let w' := (saveTranscript code1 1 0 (str "we talked") 12 created).2 in
  ∃ record,
    transcripts code1 w' !! str "-N0" = Some record
    ∧ child (str "transcript") record = JStr (str "we talked")
    ∧ (getTranscripts code1 (Some 0%Z) w').1 = Normal [(str "-N0", record)]
    ∧ (getTranscripts code1 (Some 1%Z) w').1 = Normal [].
Proof.
  intros w'.
  destruct (saveTranscript_then_getTranscripts code1 1 0 (str "we talked") 12
              (str "-N0") created)
    as (record & _ & _ & _ & Htext & _ & _ & Hmap & _);
    [vm_compute; reflexivity|].
  exists record. fold w' in Hmap. rewrite Hmap, lookup_insert_eq.
  split; [done|]. split; [done|].
  assert (Some record = transcripts code1 w' !! str "-N0") as Hrecord
    by (by rewrite Hmap, lookup_insert_eq).
  assert (∃ r, transcripts code1 w' !! str "-N0" = Some r
               ∧ (getTranscripts code1 (Some 0%Z) w').1 = Normal [(str "-N0", r)]
               ∧ (getTranscripts code1 (Some 1%Z) w').1 = Normal [])
    as (r & Hr & H0 & H1)
    by (eexists; vm_compute; split; [reflexivity|]; split; reflexivity).
  rewrite Hr in Hrecord. injection Hrecord as ->. by split.
Defined.

(** *** Themes *)







End AdapterFacts.

(** ** More on the validators *)

Module ValidationFacts.
Import Js Store Utils UtilsFacts StoreFacts.

Lemma isCodeChar_valid c : isCodeChar c = true → invalidPathChar c = false.
Proof.
  intros H%isCodeChar_range. unfold invalidPathChar. range_false.
  apply N.leb_gt. lia.
Qed.

Lemma validPathString_app a b :
  validPathString a = true →
  Forall (fun c => invalidPathChar c = false) b →
  validPathString (a ++ b) = true.
Proof.
  unfold validPathString. intros [Ha Hall]%andb_true_iff Hb.
  apply andb_true_iff. split; [by destruct a|].
  rewrite forallb_app, Hall. simpl.
  apply forallb_forall. intros c Hc%list_elem_of_In.
  rewrite Forall_forall in Hb. by rewrite Hb.
Qed.

(** X9. The room-code validator is idempotent: what it accepts has six
    characters of [A-Z0-9], and validating that again returns it
    unchanged. *)
Theorem validateRoomCode_is_idempotent
    (toUpperCase : jsstring → jsstring) (code s : jsstring) :
  (∀ s, Forall (fun c => isCodeChar c = true) s → toUpperCase s = s) →
  validateRoomCode toUpperCase code = Accepted s →
  length s = 6%nat
  ∧ Forall (fun c => 48 ≤ c ≤ 57 ∨ 65 ≤ c ≤ 90) s
  ∧ validateRoomCode toUpperCase s = Accepted s.
Proof.
  intros Hup Hcode.
  destruct (validateRoomCode_accepted toUpperCase code s Hcode)
    as (_ & Hchars & Hlen).
  split; [done|]. split.
  - eapply Forall_impl; [exact Hchars|]. apply isCodeChar_range.
  - by apply validateRoomCode_fixes.
Qed.

(** A code typed in lower case, with blanks and a dash. *)
Lemma validateRoomCode_is_idempotent_witness :
  validateRoomCode asciiUpper (str " abc-234 ") = Accepted (str "ABC234")
  ∧ validateRoomCode asciiUpper (str "ABC234") = Accepted (str "ABC234").
Proof.
  assert (validateRoomCode asciiUpper (str " abc-234 ") = Accepted (str "ABC234"))
    as H by (vm_compute; reflexivity).
  split; [exact H|].
  exact (proj2 (proj2 (validateRoomCode_is_idempotent asciiUpper _ _
                         asciiUpper_code H))).
Defined.

(** X10. Whatever the host's case mapping does, a code that the
    validator accepted is a single well-formed key of the store: it is
    not empty, holds no slash and no character the store refuses, so the
    paths built from it stay inside the record of that one session. *)
Theorem validated_code_is_a_key
    (toUpperCase : jsstring → jsstring) (code s id : jsstring) :
  validateRoomCode toUpperCase code = Accepted s →
  isKey s
  ∧ validPathString (str "sessions/" ++ s) = true
  ∧ segments (str "sessions/" ++ s) = [str "sessions"; s]
  ∧ segments (str "sessions/" ++ s ++ str "/participants/" ++ id)
    = str "sessions" :: s :: str "participants" :: segments id.
Proof.
  intros Hcode.
  destruct (validateRoomCode_accepted toUpperCase code s Hcode)
    as (_ & Hchars & Hlen).
  assert (isKey s) as Hkey.
  { split; [by destruct s|]. intros Hs.
    rewrite Forall_forall in Hchars. apply Hchars, isCodeChar_range in Hs.
    unfold slash in Hs. lia. }
  split; [done|]. split_and!.
  - apply validPathString_app; [by vm_compute|].
    eapply Forall_impl; [exact Hchars|]. apply isCodeChar_valid.
  - by apply segments_session.
  - by apply segments_participant.
Qed.

Lemma validated_code_is_a_key_witness :
  segments (str "sessions/" ++ str "ABC234" ++ str "/participants/" ++ str "p1")
  = [str "sessions"; str "ABC234"; str "participants"; str "p1"].
Proof.
  assert (validateRoomCode asciiUpper (str " abc-234 ") = Accepted (str "ABC234"))
    as H by (vm_compute; reflexivity).
  destruct (validated_code_is_a_key asciiUpper _ _ (str "p1") H)
    as (_ & _ & _ & ->).
  vm_compute. reflexivity.
Defined.

(** X11. A name that the validator accepted holds at most 50 code
    units, all of them word characters, white space, dashes or
    apostrophes: no angle bracket, double quote, ampersand or slash
    gets through. *)
Theorem validateParticipantName_output_is_safe (name s : jsstring) :
  validateParticipantName name = Accepted s →
  (length s ≤ 50)%nat
  ∧ Forall (fun c => isWord c = true ∨ isWhiteSpace c = true ∨ c = 45 ∨ c = 39) s
  ∧ Forall (fun c => c ∉ str "<>&/") s
  ∧ 34 ∉ s.
Proof.
  intros (_ & _ & Hchars & Hlen)%validateParticipantName_accepted.
  assert (Forall (fun c => isWord c = true ∨ isWhiteSpace c = true
                           ∨ c = 45 ∨ c = 39) s) as Hclass.
  { eapply Forall_impl; [exact Hchars|]. intros c [Hc _].
    unfold isNameChar in Hc.
    apply orb_true_iff in Hc as [Hc|Hc]; [|right; right; right; by apply N.eqb_eq].
    apply orb_true_iff in Hc as [Hc|Hc]; [|right; right; left; by apply N.eqb_eq].
    apply orb_true_iff in Hc as [Hc|Hc]; [by left|right; by left]. }
  assert (∀ c, c ∈ s → c ∈ [60; 62; 38; 47; 34] → False) as Hnone.
  { intros c Hc Hbad. rewrite Forall_forall in Hclass.
    destruct (Hclass c Hc) as [H|[H|[->| ->]]];
      rewrite !elem_of_cons, elem_of_nil in Hbad;
      try (by repeat destruct Hbad as [Hbad|Hbad]).
    - by repeat (destruct Hbad as [->|Hbad]; [by vm_compute in H|]).
    - by repeat (destruct Hbad as [->|Hbad]; [by vm_compute in H|]). }
  split; [done|]. split; [done|]. split.
  - apply Forall_forall. intros c Hc Hbad. apply (Hnone c Hc).
    change (str "<>&/") with [60; 62; 38; 47] in Hbad.
    rewrite !elem_of_cons in *. rewrite elem_of_nil in Hbad. tauto.
  - intros Hc. apply (Hnone 34 Hc). rewrite !elem_of_cons. tauto.
Qed.

Lemma validateParticipantName_output_is_safe_witness :
  validateParticipantName (str "  <b>Ann & Bob</b> ") = Accepted (str "bAnn  Bobb")
  ∧ Forall (fun c => c ∉ str "<>&/") (str "bAnn  Bobb").
Proof.
  assert (validateParticipantName (str "  <b>Ann & Bob</b> ")
          = Accepted (str "bAnn  Bobb")) as H by (vm_compute; reflexivity).
  split; [exact H|].
  exact (proj1 (proj2 (proj2 (validateParticipantName_output_is_safe _ _ H)))).
Defined.

(** X12. A clean name passes unchanged: 2 to 50 code units, each a word
    character, white space, a dash or an apostrophe, with no white space
    at either end. *)
Theorem validateParticipantName_keeps_clean_names (name : jsstring) :
  (2 ≤ length name ≤ 50)%nat →
  Forall (fun c => isNameChar c = true) name →
  trim name = name →
  validateParticipantName name = Accepted name.
Proof.
  intros [Hmin Hmax] Hchars Htrim. unfold validateParticipantName.
  destruct name as [|c name]; [simpl in Hmin; lia|].
  cbn [falsy]. rewrite Htrim. unfold substring0.
  rewrite take_ge by done.
  destruct (Nat.ltb_spec (length (c :: name)) CONFIG.APP.MIN_NAME_LENGTH)
    as [Hlt|_]; [unfold CONFIG.APP.MIN_NAME_LENGTH in Hlt; lia|].
  f_equal. rewrite (strip_id notAngle).
  - by apply strip_id.
  - eapply Forall_impl; [exact Hchars|]. intros x Hx.
    unfold notAngle. apply negb_true_iff.
    destruct (N.eqb_spec x 60) as [->|]; [by vm_compute in Hx|].
    destruct (N.eqb_spec x 62) as [->|]; [by vm_compute in Hx|]. done.
Qed.

Lemma validateParticipantName_keeps_clean_names_witness :
  validateParticipantName (str "Mary-Ann O'Neil") = Accepted (str "Mary-Ann O'Neil").
Proof.
  apply validateParticipantName_keeps_clean_names.
  - vm_compute. lia.
  - apply (bool_decide_unpack _). by vm_compute.
  - vm_compute. reflexivity.
Defined.

End ValidationFacts.

(** ** debounce, throttle, retry and the colour theme *)

Module HelpersFacts.
Import Js Store Eff Timers Helpers Samples FirebaseFacts TimersFacts.

Section DebounceMore.
Context {A : Type}.
Variable func : A → M unit.
Variable wait : N.

Lemma callAt_spaced st t a w t' a' :
  armed wait st t a w → t + wait ≤ t' →
  armed wait (callAt func wait st (t', a')) t' a' (func a w).2.
Proof.
  intros (id & Hpending & Htimeout & Hnow & Hworld) Hle.
  exists (nextId st).
  unfold callAt, advance, executedFunction, setTimeout, clearTimeout.
  rewrite Hpending. simpl. unfold nextDue. rewrite Hpending. simpl.
  destruct (N.leb_spec (t + wait) t'); [|lia]. simpl.
  unfold fire, later, clearTimeout. rewrite Hpending. simpl.
  rewrite N.eqb_refl. simpl. rewrite Hworld, Hnow.
  replace ((t `max` (t + wait)) `max` t') with t' by lia. done.
Qed.

Lemma callsAt_burst calls st t a w :
  armed wait st t a w → burst wait t calls →
  ∃ t' a', last ((t, a) :: calls) = Some (t', a')
           ∧ armed wait (callsAt func wait calls st) t' a' w.
Proof.
  revert st t a. induction calls as [|[t' a'] calls IH]; intros st t a Harmed.
  - intros _. by exists t, a.
  - simpl. intros (Hle & Hlt & Hrest).
    destruct (IH (callAt func wait st (t', a')) t' a') as (t'' & a'' & Hlast & Hfin).
    + by apply (callAt_next func wait st t a).
    + done.
    + exists t'', a''. split; [|done].
      rewrite <- Hlast. by destruct calls.
Qed.

Lemma callsAt_spaced calls st t a w :
  armed wait st t a w → spaced wait t calls →
  ∃ t' a', last ((t, a) :: calls) = Some (t', a')
           ∧ armed wait (callsAt func wait calls st) t' a'
               (foldl (fun w c => (func c.2 w).2) w (removelast ((t, a) :: calls))).
Proof.
  revert st t a w. induction calls as [|[t' a'] calls IH]; intros st t a w Harmed.
  - intros _. by exists t, a.
  - cbn [spaced fst]. intros (Hle & Hrest).
    destruct (IH (callAt func wait st (t', a')) t' a' (func a w).2)
      as (t'' & a'' & Hlast & Hfin).
    + by apply (callAt_spaced st t a).
    + done.
    + exists t'', a''. split; [rewrite <- Hlast; by destruct calls|].
      exact Hfin.
Qed.

End DebounceMore.

(** X13. [debounce], for any wrapped function and delay.  In a burst of
    calls, each made less than [wait] ms after the one before, the
    wrapped function does not run while the burst lasts, however long
    that is, nor in the [wait] ms after its last call; once those have
    passed it has run exactly once, with the arguments of the last
    call. *)
Theorem debounce_runs_after_the_burst {A : Type} (func : A → M unit) (wait : N)
    (first : N * A) (calls : list (N * A)) (st : Loop) (T : N) :
  pending st = [] → now st ≤ first.1 →
  burst wait first.1 calls →
  let st' := callsAt func wait (first :: calls) st in
  ∃ final,
    last (first :: calls) = Some final
    ∧ world st' = world st
    ∧ (T < final.1 + wait → world (advance func T st') = world st)
    ∧ (final.1 + wait ≤ T →
       world (advance func T st') = (func final.2 (world st)).2
       ∧ pending (advance func T st') = []).
Proof.
  intros Hpending Hnow Hburst st'. destruct first as [t a].
  pose proof (callAt_first func wait st t a Hpending Hnow) as Harmed.
  destruct (callsAt_burst func wait calls _ t a _ Harmed Hburst)
    as (t' & a' & Hlast & Hfin).
  exists (t', a'). split; [done|].
  change (callsAt func wait calls (callAt func wait st (t, a))) with st' in Hfin.
  split_and!.
  - by destruct Hfin as (id & _ & _ & _ & Hw).
  - intros HT. by apply (advance_waits func wait st' t' a').
  - intros HT. by apply (advance_fires func wait st' t' a').
Qed.

(** Status changes 400 ms apart, the last one 1200 ms after the first. *)
Lemma debounce_runs_after_the_burst_witness :
  let calls := [ (400, (code1, str "p1", str "away"));
                 (800, (code1, str "p1", str "online"));
                 (1200, (code1, str "p1", str "offline")) ] in
  let st' := callsAt updateParticipantStatus_func 500
               ((0, (code1, str "p1", str "online")) :: calls)
               (idle (createdWith [])) in
  world (advance updateParticipantStatus_func 1699 st') = createdWith []
  ∧ newEvents (createdWith []) (world (advance updateParticipantStatus_func 1700 st'))
    = [ StoreRequest
          (SetValue (str "sessions/ABC234/participants/p1/status")
             (JStr (str "offline"))) true ].
Proof.
  intros calls st'. subst st'.
  destruct (debounce_runs_after_the_burst updateParticipantStatus_func 500
              (0, (code1, str "p1", str "online")) calls (idle (createdWith []))
              1699)
    as (final & Hlast & _ & Hbefore & _);
    [reflexivity|vm_compute; discriminate|vm_compute; intuition discriminate|].
  injection Hlast as <-.
  split; [apply Hbefore; vm_compute; reflexivity|].
  destruct (debounce_runs_after_the_burst updateParticipantStatus_func 500
              (0, (code1, str "p1", str "online")) calls (idle (createdWith []))
              1700)
    as (final & Hlast & _ & _ & Hafter);
    [reflexivity|vm_compute; discriminate|vm_compute; intuition discriminate|].
  injection Hlast as <-.
  destruct Hafter as [Heq _]; [vm_compute; discriminate|].
  refine (eq_trans (f_equal (newEvents _) Heq) _). vm_compute. reflexivity.
Defined.

(** X14. [debounce] delays but does not drop calls that are far enough
    apart: when each call comes [wait] ms or more after the one before,
    the wrapped function has run for every call, in the order of the
    calls and with each call's own arguments, once [wait] ms have passed
    after the last. *)
Theorem debounce_keeps_spaced_calls {A : Type} (func : A → M unit) (wait : N)
    (first : N * A) (calls : list (N * A)) (st : Loop) (T : N) :
  pending st = [] → now st ≤ first.1 →
  spaced wait first.1 calls →
  (∀ final, last (first :: calls) = Some final → final.1 + wait ≤ T) →
  world (advance func T (callsAt func wait (first :: calls) st))
  = foldl (fun w c => (func c.2 w).2) (world st) (first :: calls).
Proof.
  intros Hpending Hnow Hspaced HT. destruct first as [t a].
  pose proof (callAt_first func wait st t a Hpending Hnow) as Harmed.
  destruct (callsAt_spaced func wait calls _ t a _ Harmed Hspaced)
    as (t' & a' & Hlast & Hfin).
  change (callsAt func wait ((t, a) :: calls) st)
    with (callsAt func wait calls (callAt func wait st (t, a))).
  destruct (advance_fires func wait _ t' a' _ T Hfin) as [-> _];
    [by apply (HT (t', a'))|].
  clear -Hlast. set (l := (t, a) :: calls) in *.
  assert (l = removelast l ++ [(t', a')]) as Hl.
  { rewrite (app_removelast_last (t', a') (l := l)) at 1 by done.
    do 2 f_equal. clear -Hlast. generalize dependent l.
    induction l as [|x l IH]; [done|]. intros Hlast.
    destruct l as [|y l]; [by injection Hlast|].
    rewrite last_cons_cons in Hlast. by apply IH. }
  rewrite Hl at 2. by rewrite foldl_app.
Qed.

(** Two status changes 500 ms apart: both are written, in order. *)
Lemma debounce_keeps_spaced_calls_witness :
  newEvents (createdWith [])
    (world (advance updateParticipantStatus_func 1000
       (callsAt updateParticipantStatus_func 500
          [ (0, (code1, str "p1", str "away"));
            (500, (code1, str "p1", str "online")) ]
          (idle (createdWith [])))))
  = [ StoreRequest
        (SetValue (str "sessions/ABC234/participants/p1/status")
           (JStr (str "away"))) true;
      StoreRequest
        (SetValue (str "sessions/ABC234/participants/p1/status")
           (JStr (str "online"))) true ].
Proof.
  rewrite (debounce_keeps_spaced_calls updateParticipantStatus_func 500
             (0, (code1, str "p1", str "away"))
             [(500, (code1, str "p1", str "online"))]).
  - vm_compute. reflexivity.
  - reflexivity.
  - vm_compute. discriminate.
  - vm_compute. intuition discriminate.
  - intros final [= <-]. vm_compute. discriminate.
Defined.

(** *** throttle *)

Section ThrottleMore.
Context {A : Type}.
Variable func : A → M unit.
Variable limit : N.

Lemma throttledAt_dropped st t w t' a' :
  engaged_at limit st t w → t' < t + limit →
  engaged_at limit (throttledAt func limit st (t', a')) t w.
Proof.
  intros (Hflag & Hresets & Hpage & Htime) Hlt.
  unfold throttledAt, throttledFunction, elapse. simpl.
  rewrite Hresets, Hflag. simpl.
  destruct (N.leb_spec (t + limit) t'); [lia|]. simpl.
  unfold engaged_at. simpl. split_and!; try done. lia.
Qed.

Lemma throttledAt_window calls st t prev w :
  engaged_at limit st t w → inWindow limit t prev calls →
  engaged_at limit (foldl (throttledAt func limit) st calls) t w.
Proof.
  revert st prev. induction calls as [|[t' a'] calls IH]; intros st prev Hst; [done|].
  simpl. intros (_ & Hlt & Hrest). apply (IH _ t'); [|done].
  by apply throttledAt_dropped.
Qed.

End ThrottleMore.

(** X15. [throttle], for any wrapped function and limit.  A call on a
    fresh wrapper runs the wrapped function at once.  The calls made in
    the [limit] ms after a call that ran are dropped: they change
    nothing, and nothing runs them later.  The first call made [limit]
    ms after it or later runs again, with its own arguments. *)
Theorem throttle_drops_calls_in_window {A : Type} (func : A → M unit) (limit : N)
    (first : N * A) (calls : list (N * A)) (next : N * A) (w : World) :
  (∃ w1, func first.2 w = (Normal (), w1)) →
  inWindow limit first.1 first.1 calls →
  first.1 + limit ≤ next.1 →
  let st := foldl (throttledAt func limit) (unthrottled w) (first :: calls) in
  env (throttledAt func limit (unthrottled w) first) = (func first.2 w).2
  ∧ env st = (func first.2 w).2
  ∧ (∀ T, env (elapse T st) = (func first.2 w).2)
  ∧ env (throttledAt func limit st next)
    = (func next.2 (func first.2 w).2).2.
Proof.
  intros [w1 Hrun] Hwindow Hnext st. destruct first as [t a]. simpl in *.
  assert (engaged_at limit (throttledAt func limit (unthrottled w) (t, a)) t w1)
    as Hfirst.
  { unfold throttledAt, throttledFunction, elapse, unthrottled, engaged_at.
    simpl. rewrite Hrun. simpl. split_and!; try done; try lia.
    by rewrite N.max_0_l. }
  pose proof (throttledAt_window func limit calls _ t t w1 Hfirst Hwindow)
    as (Hflag & Hresets & Hpage & Htime).
  fold st in Hflag, Hresets, Hpage, Htime.
  rewrite Hrun. simpl. split_and!.
  - by destruct Hfirst as (_ & _ & ? & _).
  - done.
  - done.
  - unfold throttledAt, throttledFunction, elapse. simpl.
    rewrite Hresets. simpl.
    destruct (N.leb_spec (t + limit) next.1); [|lia]. simpl.
    rewrite Hpage. by destruct (func next.2 w1) as [[[]|e] w2].
Qed.

(** Four toasts are asked for at 0, 10, 999 and 1000 ms through a
    wrapper with a limit of 1000 ms: the first and the last are shown. *)
Lemma throttle_drops_calls_in_window_witness :
  newEvents fresh
    (env (foldl (throttledAt showSuccess 1000) (unthrottled fresh)
             [ (0, str "a"); (10, str "b"); (999, str "c"); (1000, str "d") ]))
  = [ Toast SuccessToast (str "a"); Toast SuccessToast (str "d") ].
Proof.
  pose proof (throttle_drops_calls_in_window showSuccess 1000 (0, str "a")
                [(10, str "b"); (999, str "c")] (1000, str "d") fresh) as H.
  destruct H as (_ & _ & _ & H).
  - by eexists.
  - vm_compute. intuition discriminate.
  - vm_compute. discriminate.
  - change (foldl (throttledAt showSuccess 1000) (unthrottled fresh)
              [ (0, str "a"); (10, str "b"); (999, str "c"); (1000, str "d") ])
      with (throttledAt showSuccess 1000
              (foldl (throttledAt showSuccess 1000) (unthrottled fresh)
                 [ (0, str "a"); (10, str "b"); (999, str "c") ])
              (1000, str "d")).
    refine (eq_trans (f_equal (newEvents _) H) _). vm_compute. reflexivity.
Defined.

(** *** retry *)

Section RetryMore.
Context {A : Type}.
Variable fn : M A.

Lemma retry_from_schedule delay attempt remaining w :
  let '(_, _, waits) := retry_from fn delay attempt remaining w in
  waits = schedule delay attempt (length waits)
  ∧ (length waits ≤ pred remaining)%nat.
Proof.
  revert attempt w. induction remaining as [|remaining IH]; intros attempt w.
  - simpl. split; [done|lia].
  - simpl. destruct (fn w) as [[a|e] w']; [split; [done|simpl; lia]|].
    destruct remaining as [|remaining]; [split; [done|simpl; lia]|].
    specialize (IH (S attempt) w').
    destruct (retry_from fn delay (S attempt) (S remaining) w') as [[r w''] waits].
    destruct IH as [IH Hlen]. split.
    + unfold schedule. simpl. f_equal. exact IH.
    + simpl in *. lia.
Qed.

Lemma total_schedule delay n :
  total (schedule delay 1 n) = (delay * (2 ^ Z.of_nat n - 1))%Z.
Proof.
  unfold total, schedule.
  assert (∀ a, (1 ≤ a)%nat →
               foldr Z.add 0%Z
                 ((fun k => (delay * 2 ^ (Z.of_nat k - 1))%Z) <$> seq a n)
               = (delay * 2 ^ (Z.of_nat a - 1) * (2 ^ Z.of_nat n - 1))%Z) as H.
  { induction n as [|n IH]; intros a Ha.
    - simpl. lia.
    - cbn [seq fmap list_fmap foldr]. rewrite IH by lia.
      replace (Z.of_nat (S a) - 1)%Z with (Z.of_nat a - 1 + 1)%Z by lia.
      replace (Z.of_nat (S n)) with (Z.of_nat n + 1)%Z by lia.
      rewrite !Z.pow_add_r by lia. ring. }
  rewrite H by lia. simpl. lia.
Qed.

End RetryMore.

(** X16. [retry] backs off exponentially, whatever the operation does:
    the delays it sleeps through are [delay], [2 * delay], [4 * delay]
    and so on, there are fewer of them than [maxAttempts], and they add
    up to [delay * (2^n - 1)] for [n] delays.  With the configured
    defaults, three attempts and 2000 ms, a run never sleeps longer than
    6000 ms in all. *)
Theorem retry_backs_off {A : Type} (fn : M A) (maxAttempts : nat) (delay : Z)
    (w : World) :
  let waits := (retry fn maxAttempts delay w).2 in
  let n := length waits in
  waits = (fun k => (delay * 2 ^ Z.of_nat k)%Z) <$> seq 0 n
  ∧ (n ≤ pred maxAttempts)%nat
  ∧ total waits = (delay * (2 ^ Z.of_nat n - 1))%Z
  ∧ (total (retry fn RECONNECT_ATTEMPTS RECONNECT_DELAY w).2 ≤ 6000)%Z.
Proof.
  intros waits n.
  assert (∀ m d, let ws := (retry fn m d w).2 in
                 ws = schedule d 1 (length ws) ∧ (length ws ≤ pred m)%nat) as Hrun.
  { intros m d. unfold retry.
    pose proof (retry_from_schedule fn d 1 m w) as H.
    by destruct (retry_from fn d 1 m w) as [[r w'] ws]. }
  destruct (Hrun maxAttempts delay) as [Hwaits Hlen]. fold waits in Hwaits, Hlen.
  fold n in Hwaits, Hlen. split_and!.
  - rewrite Hwaits at 1. unfold schedule.
    rewrite <- (fmap_S_seq 0 n), <- list_fmap_compose.
    apply list_fmap_ext. intros _ k _. simpl. do 2 f_equal. lia.
  - done.
  - rewrite Hwaits at 1. apply total_schedule.
  - destruct (Hrun RECONNECT_ATTEMPTS RECONNECT_DELAY) as [Hw Hl].
    rewrite Hw, total_schedule. unfold RECONNECT_ATTEMPTS, RECONNECT_DELAY in *.
    simpl in Hl.
    destruct (length (retry fn 3 2000%Z w).2) as [|[|[|k]]]; simpl; lia.
Qed.

(** X17. [retry] stops at the first attempt that succeeds and gives up
    after [maxAttempts] failed ones.  For an operation that leaves one
    entry in the trace per call: it is called once more than there were
    delays, and at most [maxAttempts] times.  A value that the run
    returns is the value of its last call, and a first attempt that
    succeeds ends the run without a delay; an error that the run throws
    is the error of its last call, the [maxAttempts]-th; and with
    [maxAttempts = 0] the operation is not called at all and the result
    is [undefined]. *)
Theorem retry_stops {A : Type} (fn : M A) (maxAttempts : nat) (delay : Z)
    (w : World) :
  (∀ w0, length (trace (fn w0).2) = S (length (trace w0))) →
  let '(result, w', waits) := retry fn maxAttempts delay w in
  let calls := (length (trace w') - length (trace w))%nat in
  (calls ≤ maxAttempts)%nat
  ∧ calls = (if maxAttempts is O then O else S (length waits))
  ∧ (maxAttempts = O → result = Normal None ∧ w' = w)
  ∧ (∀ a w1, (0 < maxAttempts)%nat → fn w = (Normal a, w1) →
     result = Normal (Some a) ∧ w' = w1 ∧ waits = [])
  ∧ (result = Normal None → maxAttempts = O)
  ∧ (∀ a, result = Normal (Some a) → ∃ w0, fn w0 = (Normal a, w'))
  ∧ (∀ error, result = Throw error →
     calls = maxAttempts ∧ ∃ w0, fn w0 = (Throw error, w')).
Proof.
  intros Hlog. unfold retry.
  assert (∀ remaining attempt w0,
            let '(result, w', waits) := retry_from fn delay attempt remaining w0 in
            (length (trace w') = length (trace w0)
                                 + (if remaining is O then O else S (length waits)))%nat
            ∧ (length waits ≤ pred remaining)%nat
            ∧ (result = Normal None → remaining = O)
            ∧ (∀ a, result = Normal (Some a) → ∃ w1, fn w1 = (Normal a, w'))
            ∧ (∀ error, result = Throw error →
               S (length waits) = remaining ∧ ∃ w1, fn w1 = (Throw error, w'))) as Hrun.
  { induction remaining as [|remaining IH]; intros attempt w0.
    - simpl. split_and!; try done; lia.
    - simpl. pose proof (Hlog w0) as Hone.
      destruct (fn w0) as [[a|e] w1] eqn:Hfn; simpl in Hone.
      { split_and!; try done; try (simpl; lia).
        intros a' [= <-]. by exists w0. }
      destruct remaining as [|remaining].
      { split_and!; try done; try (simpl; lia).
        intros error [= <-]. split; [done|]. by exists w0. }
      specialize (IH (S attempt) w1).
      destruct (retry_from fn delay (S attempt) (S remaining) w1)
        as [[r w''] waits].
      destruct IH as (Htrace & Hlen & Hnone & Hsome & Hthrow).
      split_and!.
      + simpl. lia.
      + simpl in *. lia.
      + intros Hr. by apply Hnone in Hr.
      + done.
      + intros error Hr. destruct (Hthrow error Hr) as [Hcount Hlast].
        split; [simpl; by f_equal|done]. }
  specialize (Hrun maxAttempts 1%nat w).
  destruct (retry_from fn delay 1 maxAttempts w) as [[result w'] waits] eqn:Heq.
  destruct Hrun as (Htrace & Hlen & Hnone & Hsome & Hthrow).
  split_and!.
  - destruct maxAttempts; simpl in *; lia.
  - destruct maxAttempts; lia.
  - intros ->. simpl in Heq. by injection Heq as <- <- <-.
  - intros a w1 Hpos Hfn. destruct maxAttempts as [|m]; [lia|].
    simpl in Heq. rewrite Hfn in Heq. by injection Heq as <- <- <-.
  - done.
  - done.
  - intros error Hr. destruct (Hthrow error Hr) as [Hcount Hlast].
    split; [destruct maxAttempts; lia|done].
Qed.

(** An operation that reports and fails, tried three times. *)
Lemma retry_stops_witness :
  let log : M unit := trackEvent (str "net") (str "try") [];; throw (str "down") in
  retry log 3 2000 fresh
  = (Throw (str "down"),
     logged [ Track (str "net") (str "try") []; Track (str "net") (str "try") [];
              Track (str "net") (str "try") [] ] fresh,
     [2000; 4000]%Z)
  ∧ (length (trace (retry log 3 2000 fresh).1.2) - length (trace fresh) ≤ 3)%nat.
Proof.
  intros log. split; [vm_compute; reflexivity|].
  pose proof (retry_stops log 3 2000 fresh) as H.
  destruct (retry log 3 2000 fresh) as [[result w'] waits].
  apply H. intros w0. unfold log. page. rewrite length_app. simpl. lia.
Defined.

(** *** The colour theme *)

#[local] Opaque str.

(** X18. When [localStorage] works, the theme that [toggleTheme] chose
    is light or dark, it is the other one than the theme shown before,
    and [initTheme] brings it back after a reload of the page, whatever
    the system prefers.  Toggling twice returns to a light or dark
    theme. *)
Theorem toggleTheme_survives_reload (p : ThemePage) (dark : bool) :
  readThrows (storage p) = false → writeThrows (storage p) = false →
  let newTheme := (toggleTheme p).1 in
  let p' := (toggleTheme p).2 in
  (newTheme = str "light" ∨ newTheme = str "dark")
  ∧ dataTheme p ≠ Some newTheme
  ∧ dataTheme p' = Some newTheme
  ∧ dataTheme (initTheme (Some dark) (reload p')) = Some newTheme
  ∧ (dataTheme p = Some (str "light") ∨ dataTheme p = Some (str "dark") →
     dataTheme (toggleTheme p').2 = dataTheme p).
Proof.
  destruct p as [attribute [saved reads writes]]. cbn [storage readThrows writeThrows].
  intros -> ->.
  unfold toggleTheme, initTheme, reload, setTheme, setItem.
  simpl.
  assert (bool_decide (str "light" = str "light") = true) as Hlight
    by (by apply bool_decide_eq_true_2).
  assert (bool_decide (str "dark" = str "light") = false) as Hdark
    by (apply bool_decide_eq_false_2; by vm_compute).
  assert (falsy (str "light") = false ∧ falsy (str "dark") = false) as [Hl Hd]
    by (by vm_compute).
  destruct attribute as [attribute|]; simpl.
  - destruct (falsy attribute) eqn:Hfalsy.
    + destruct attribute; [|done].
      rewrite Hlight. simpl. rewrite Hd, Hdark. simpl.
      split_and!; try done; [by right|]. by intros [[=]|[=]].
    + destruct (decide (attribute = str "light")) as [->|Hne].
      * rewrite Hlight. simpl. rewrite Hd, Hdark. simpl.
        split_and!; try done; by right.
      * rewrite (bool_decide_eq_false_2 _ Hne). simpl.
        rewrite Hl, Hlight. simpl.
        split_and!; try done; [by left|congruence|].
        intros [[= ->]|[= ->]]; [by destruct Hne|reflexivity].
  - rewrite Hlight. simpl. rewrite Hd, Hdark. simpl.
    split_and!; try done; [by right|]. by intros [[=]|[=]].
Qed.

(** A page shown in the light theme, on a system that prefers light. *)
Lemma toggleTheme_survives_reload_witness :
  let p := mkThemePage (Some (str "light")) (mkStorage None false false) in
  (toggleTheme p).1 = str "dark"
  ∧ dataTheme (initTheme (Some false) (reload (toggleTheme p).2))
    = Some (str "dark").
Proof.
  intros p.
  destruct (toggleTheme_survives_reload p false eq_refl eq_refl)
    as (_ & _ & _ & Hreload & _).
  split; [vm_compute; reflexivity|]. rewrite Hreload. vm_compute. reflexivity.
Defined.

End HelpersFacts.

(** ** The facilitator page *)

Module FacilitatorFacts.
Import Js Store JsObject Eff FirebaseService Workshop Facilitator Samples.
Import MoreSamples StoreFacts FirebaseFacts JsObjectFacts WorkshopFacts.

#[local] Opaque str.
#[local] Arguments validPathString : simpl never.
#[local] Arguments segments : simpl never.
#[local] Arguments Store.update : simpl never.
#[local] Arguments integer : simpl never.
#[local] Arguments genCode : simpl never.
#[local] Arguments timerText : simpl never.
#[local] Arguments timerStyle : simpl never.

(** *** The countdown *)

(** On a connected store the request of [updateTimer] goes out, whether
    the store then accepts it or not. *)
Lemma updateTimer_sent code active duration w db :
  database w = Some db →
  validPathString (str "sessions/" ++ code) = true →
  ∃ accepted db',
    trace (updateTimer code active duration w).2
    = trace w ++ [StoreRequest
                    (UpdateFields (str "sessions/" ++ code)
                       (timerFields active duration)) accepted]
    ∧ database (updateTimer code active duration w).2 = Some db'.
Proof.
  intros Hdb Hvalid.
  unfold updateTimer, tryCatch, Eff.update, request. unfold mbind, M_bind.
  rewrite Hdb, Hvalid. simpl.
  destruct (default false (head (rejections w))); simpl; by eexists _, _.
Qed.

Lemma tellTimer_sent active duration st session db :
  sessionData st = Some session →
  database (world st) = Some db →
  validPathString (str "sessions/" ++ genCode session) = true →
  ∃ accepted db',
    trace (tellTimer active duration st)
    = trace (world st)
      ++ [StoreRequest
            (UpdateFields (str "sessions/" ++ genCode session)
               (timerFields active duration)) accepted]
    ∧ database (tellTimer active duration st) = Some db'.
Proof.
  intros Hsession Hdb Hvalid. unfold tellTimer, notAwaited. rewrite Hsession.
  by apply (updateTimer_sent _ _ _ _ db).
Qed.

Lemma updateTimerDisplay_sessionData st :
  sessionData (updateTimerDisplay st) = sessionData st.
Proof. unfold updateTimerDisplay. by destruct (display st). Qed.

Lemma updateTimerDisplay_timerInterval st :
  timerInterval (updateTimerDisplay st) = timerInterval st.
Proof. unfold updateTimerDisplay. by destruct (display st). Qed.

Lemma updateTimerDisplay_timerSeconds st :
  timerSeconds (updateTimerDisplay st) = timerSeconds st.
Proof. unfold updateTimerDisplay. by destruct (display st). Qed.

Lemma updateTimerDisplay_nextInterval st :
  nextInterval (updateTimerDisplay st) = nextInterval st.
Proof. unfold updateTimerDisplay. by destruct (display st). Qed.

Lemma updateTimerDisplay_world st :
  world (updateTimerDisplay st) = world st.
Proof. unfold updateTimerDisplay. by destruct (display st). Qed.

Ltac display_kept :=
  rewrite ?updateTimerDisplay_sessionData, ?updateTimerDisplay_timerInterval,
    ?updateTimerDisplay_timerSeconds, ?updateTimerDisplay_nextInterval,
    ?updateTimerDisplay_world;
  cbn [sessionData timerInterval timerSeconds nextInterval world].

(** A tick before the last second only counts down. *)
Lemma tick_counts st id :
  timerInterval st = Some id → (1 < timerSeconds st)%Z →
  sessionData (tick st) = sessionData st
  ∧ timerInterval (tick st) = Some id
  ∧ timerSeconds (tick st) = (timerSeconds st - 1)%Z
  ∧ world (tick st) = world st.
Proof.
  intros Hid Hs. unfold tick, tickCallback. rewrite Hid. cbv zeta.
  display_kept.
  destruct (Z.leb_spec (timerSeconds st - 1) 0) as [Hle|_]; [lia|].
  by display_kept.
Qed.

Lemma ticks_count (k : nat) st id :
  timerInterval st = Some id → (Z.of_nat k < timerSeconds st)%Z →
  sessionData (Nat.iter k tick st) = sessionData st
  ∧ timerInterval (Nat.iter k tick st) = Some id
  ∧ timerSeconds (Nat.iter k tick st) = (timerSeconds st - Z.of_nat k)%Z
  ∧ world (Nat.iter k tick st) = world st.
Proof.
  intros Hid. induction k as [|k IH]; intros Hk.
  - simpl. split_and!; try done. lia.
  - destruct IH as (H1 & H2 & H3 & H4); [lia|].
    destruct (tick_counts (Nat.iter k tick st) id H2) as (T1 & T2 & T3 & T4);
      [lia|].
    simpl. rewrite T1, T2, T3, T4, H1, H3, H4. split_and!; try done. lia.
Qed.

(** X19. A countdown of [n] seconds that the facilitator starts runs for
    exactly [n] ticks of its interval: before the last tick the interval
    is set and the seconds left go down by one per tick, without any
    request to the store; the last tick stops the interval, sets the
    seconds to 0 and shows 'Timer finished!'; later ticks change
    nothing.  On a connected store the session is told twice in all:
    the timer is active with the full duration at the start, and
    inactive with duration 0 at the end. *)
Theorem countdown_runs_n_ticks (n : nat) (session db : Json) (st : State) :
  sessionData st = Some session → timerInterval st = None →
  database (world st) = Some db →
  validPathString (str "sessions/" ++ genCode session) = true →
  let seconds := Z.of_nat (S n) in
  let running k := Nat.iter k tick (startTimer seconds st) in
  let path := str "sessions/" ++ genCode session in
  (∀ k, (k ≤ n)%nat →
     timerSeconds (running k) = (seconds - Z.of_nat k)%Z
     ∧ is_Some (timerInterval (running k))
     ∧ world (running k) = world (running 0%nat))
  ∧ timerSeconds (running (S n)) = 0%Z
  ∧ timerInterval (running (S n)) = None
  ∧ omap requestOf (newEvents (world st) (world (running (S n))))
    = [ UpdateFields path (timerFields true seconds);
        UpdateFields path (timerFields false 0) ]
  ∧ Toast SuccessToast (str "Timer finished!")
    ∈ newEvents (world st) (world (running (S n)))
  ∧ ∀ k, running (S n + k)%nat = running (S n).
Proof.
  intros Hsession Hnone Hdb Hvalid seconds running path.
  set (st0 := startTimer seconds st) in *.
  (* the state after the start *)
  assert (sessionData st0 = Some session
          ∧ timerInterval st0 = Some (nextInterval st)
          ∧ timerSeconds st0 = seconds
          ∧ ∃ accepted db0,
              trace (world st0)
              = trace (world st)
                ++ [ StoreRequest (UpdateFields path (timerFields true seconds))
                       accepted;
                     Activity (str "Timer started: " ++ integer (seconds / 60)
                               ++ str " minutes") ]
              ∧ database (world st0) = Some db0)
    as (S1 & S2 & S3 & accepted0 & db0 & S4 & S5).
  { unfold st0, startTimer. rewrite Hnone. cbv zeta.
    set (st1 := updateTimerDisplay _).
    set (st2 := mkState (sessionData st1) (Some (nextInterval st1))
                  (timerSeconds st1) (Pos.succ (nextInterval st1))
                  (display st1) (world st1)).
    destruct (tellTimer_sent true seconds st2 session db)
      as (accepted & db' & Htrace & Hdb');
      [unfold st2, st1; by display_kept|unfold st2, st1; by display_kept|done|].
    simpl. unfold st1. display_kept. split_and!; try done.
    exists accepted, db'. split; [|done].
    unfold notAwaited, addActivity, emit. simpl. rewrite Htrace.
    unfold st2, st1. display_kept. by rewrite <- app_assoc. }
  clearbody st0.
  (* the ticks before the last *)
  assert (∀ k, (k ≤ n)%nat →
            sessionData (running k) = Some session
            ∧ timerInterval (running k) = Some (nextInterval st)
            ∧ timerSeconds (running k) = (seconds - Z.of_nat k)%Z
            ∧ world (running k) = world st0) as Hbefore.
  { intros k Hk.
    destruct (ticks_count k st0 _ S2) as (H1 & H2 & H3 & H4);
      [rewrite S3; unfold seconds; lia|].
    unfold running. by rewrite H1, H2, H3, H4, S1, S3. }
  (* the last tick *)
  destruct (Hbefore n) as (L1 & L2 & L3 & L4); [done|].
  assert (timerSeconds (running (S n)) = 0%Z
          ∧ timerInterval (running (S n)) = None
          ∧ ∃ accepted,
              trace (world (running (S n)))
              = trace (world st0)
                ++ [ StoreRequest (UpdateFields path (timerFields false 0))
                       accepted;
                     Activity (str "Timer stopped");
                     Toast SuccessToast (str "Timer finished!");
                     Activity (str "Timer finished") ])
    as (E1 & E2 & accepted1 & E3).
  { change (running (S n)) with (tick (running n)).
    unfold tick, tickCallback. rewrite L2. cbv zeta. display_kept.
    destruct (Z.leb_spec (timerSeconds (running n) - 1) 0) as [_|Hgt];
      [|rewrite L3 in Hgt; unfold seconds in Hgt; lia].
    set (st1 := updateTimerDisplay _).
    destruct (tellTimer_sent false 0 st1 session db0)
      as (accepted & db' & Htrace & Hdb');
      [unfold st1; by display_kept|unfold st1; display_kept; congruence|done|].
    unfold stopTimer. cbv zeta. display_kept. split_and!; try done.
    exists accepted. unfold notAwaited. page. rewrite Htrace.
    unfold st1. display_kept. rewrite L4. by rewrite <- !app_assoc. }
  split_and!.
  - intros k Hk. destruct (Hbefore k Hk) as (H1 & H2 & H3 & H4).
    split_and!; try done.
  - done.
  - done.
  - unfold newEvents. rewrite E3, S4, <- !app_assoc, drop_trace. reflexivity.
  - unfold newEvents. rewrite E3, S4, <- !app_assoc, drop_trace.
    cbn [app]. rewrite !elem_of_cons. tauto.
  - intros k. induction k as [|k IH]; [by rewrite Nat.add_0_r|].
    replace (S n + S k)%nat with (S (S n + k)%nat) by lia.
    change (running (S (S n + k)%nat)) with (tick (running (S n + k)%nat)).
    rewrite IH. unfold tick. by rewrite E2.
Qed.

(** A countdown of three seconds on the page of the session [code1]. *)
Lemma countdown_runs_n_ticks_witness :
  let running k := Nat.iter k tick (startTimer 3 page1) in
  timerSeconds (running 2%nat) = 1%Z
  ∧ timerInterval (running 3%nat) = None
  ∧ omap requestOf (newEvents created (world (running 3%nat)))
    = [ UpdateFields (str "sessions/ABC234") (timerFields true 3);
        UpdateFields (str "sessions/ABC234") (timerFields false 0) ].
Proof.
  intros running.
  destruct (countdown_runs_n_ticks 2 session1
              (default JNull (database created)) page1)
    as (Hbefore & _ & Hnone & Hrequests & _);
    [reflexivity|reflexivity|reflexivity|vm_compute; reflexivity|].
  destruct (Hbefore 2%nat) as (Hseconds & _); [lia|].
  split; [exact Hseconds|]. split; [exact Hnone|].
  refine (eq_trans Hrequests _). vm_compute. reflexivity.
Defined.

(** *** The timer display *)

Lemma two_digits (r : Z) :
  (0 ≤ r < 60)%Z →
  length (padStart 2 48 (integer r)) = 2%nat
  ∧ parseInt (padStart 2 48 (integer r)) = Int r.
Proof.
  intros Hr.
  assert (forallb
            (fun k =>
               let two := padStart 2 48 (integer (Z.of_nat k)) in
               (length two =? 2)%nat
               && match parseInt two with
                  | Int z => (z =? Z.of_nat k)%Z
                  | NaN => false
                  end)
            (seq 0 60) = true) as Hall by (vm_compute; reflexivity).
  rewrite forallb_forall in Hall.
  assert (In (Z.to_nat r) (seq 0 60)) as Hin by (apply in_seq; lia).
  specialize (Hall _ Hin). cbv zeta in Hall. rewrite Z2Nat.id in Hall by lia.
  apply andb_true_iff in Hall as [Hlen Hparse].
  split; [by apply Nat.eqb_eq|].
  destruct (parseInt _) as [z|]; [|done]. by apply Z.eqb_eq in Hparse as ->.
Qed.

(** X20. For a countdown that has not run out, the timer display shows
    the minutes, a colon and the seconds in exactly two digits, and the
    two numbers read back to the seconds left. *)
Theorem timerText_reads_back (timerSeconds : Z) :
  (0 ≤ timerSeconds)%Z →
  ∃ minutes seconds,
    timerText timerSeconds = minutes ++ str ":" ++ seconds
    ∧ length seconds = 2%nat
    ∧ ∃ m s, parseInt minutes = Int m ∧ parseInt seconds = Int s
             ∧ (0 ≤ s < 60)%Z ∧ (60 * m + s = timerSeconds)%Z.
Proof.
  intros Hs. unfold timerText. eexists _, _. split; [reflexivity|].
  rewrite Z.rem_mod_nonneg by lia.
  destruct (two_digits (timerSeconds `mod` 60)) as [Hlen Hparse].
  { apply Z.mod_pos_bound. lia. }
  split; [done|].
  exists (timerSeconds `div` 60)%Z, (timerSeconds `mod` 60)%Z.
  split; [apply parseInt_integer|]. split; [done|].
  split; [apply Z.mod_pos_bound; lia|].
  rewrite (Z.div_mod timerSeconds 60) at 3 by lia. lia.
Qed.

(** Five minutes, and 65 seconds. *)
Lemma timerText_reads_back_witness :
  timerText 300 = str "5:00" ∧ timerText 65 = str "1:05"
  ∧ ∃ minutes seconds,
      timerText 65 = minutes ++ str ":" ++ seconds ∧ length seconds = 2%nat.
Proof.
  split; [vm_compute; reflexivity|]. split; [vm_compute; reflexivity|].
  destruct (timerText_reads_back 65) as (minutes & seconds & Htext & Hlen & _);
    [lia|].
  by exists minutes, seconds.
Defined.

(** *** Phase changes *)

(** X21. [handlePhaseChange] does not look at what [updatePhase]
    answers.  With a session on the page it always ends with the
    activity entry and the toast 'Moved to Phase ...'; when the chosen
    value is not a number, or the store does not take the write, the
    store holds what it held before, under the same success message. *)
Theorem handlePhaseChange_reports_success (value : jsstring) (session : Json)
    (w : World) :
  let newPhase := parseInt value in
  let path := str "sessions/" ++ genCode session ++ str "/phase" in
  ∃ w' before,
    handlePhaseChange value (Some session) w = (Normal (), w')
    ∧ newEvents w w' = before ++ phaseChanged newPhase
    ∧ Toast SuccessToast (str "Moved to Phase " ++ numberToString (plusOne newPhase))
      ∈ newEvents w w'
    ∧ (newPhase = NaN ∨ accepts path w = false →
       database w' = database w
       ∧ Forall (fun e => e = StoreRequest (SetValue path
                                 (match newPhase with Int z => JNum z | NaN => JNull end))
                                 false) before)
    ∧ (∀ z db, newPhase = Int z → accepts path w = true → database w = Some db →
       database w' = Some (Store.set (segments path) (JNum z) db)).
Proof.
  intros newPhase path. unfold handlePhaseChange. fold newPhase.
  assert (∀ w1 es, trace w1 = trace w ++ es →
            newEvents w (logged (phaseChanged newPhase) w1)
            = es ++ phaseChanged newPhase) as Hnew.
  { intros w1 es Hes. unfold newEvents. simpl.
    by rewrite Hes, <- app_assoc, drop_trace. }
  assert (∀ before : list Event,
            Toast SuccessToast
              (str "Moved to Phase " ++ numberToString (plusOne newPhase))
            ∈ before ++ phaseChanged newPhase) as Htoast.
  { intros before. apply elem_of_app. right. unfold phaseChanged.
    rewrite !elem_of_cons. tauto. }
  destruct newPhase as [z|] eqn:Hphase; unfold updatePhaseTo.
  - unfold updatePhase, tryCatch. unfold mbind, M_bind. fold path.
    write_cases; page.
    + eexists _, [_; _]. split; [rewrite !logged_logged; reflexivity|].
      rewrite <- (logged_logged _ (phaseChanged (Int z))).
      rewrite (Hnew _ [StoreRequest (SetValue path (JNum z)) true;
                       Track (str "session") (str "phase_change")
                         (str "phase" ++ integer z)])
        by (simpl; by rewrite <- app_assoc).
      split; [done|]. split; [apply Htoast|]. split.
      * by intros [?|?].
      * intros z' db' [= <-] _ Hdb'. simpl. congruence.
    + eexists _, []. split; [rewrite !logged_logged; reflexivity|].
      rewrite (Hnew _ []) by (by rewrite app_nil_r).
      split; [done|]. split; [apply (Htoast [])|]. split; [done|].
      by intros z' db' _ [=].
    + eexists _, [_]. split; [rewrite !logged_logged; reflexivity|].
      rewrite (Hnew _ [StoreRequest (SetValue path (JNum z)) false]) by done.
      split; [done|]. split; [apply Htoast|]. split.
      * intros _. split; [done|]. by apply Forall_singleton.
      * by intros z' db' _ [=].
  - unfold tryCatch, throw. page.
    eexists _, []. split; [rewrite !logged_logged; reflexivity|].
    rewrite (Hnew _ []) by (by rewrite app_nil_r).
    split; [done|]. split; [apply (Htoast [])|]. split; [done|].
    by intros z' db' [=].
Qed.

(** The store rejects the write of phase 2: the page says 'Moved to
    Phase 3' and the session is still in phase 0. *)
Lemma handlePhaseChange_reports_success_witness :
  let w' := (handlePhaseChange (str "2") (Some session1) (createdWith [true])).2 in
  Toast SuccessToast (str "Moved to Phase 3") ∈ newEvents (createdWith [true]) w'
  ∧ sessionField code1 (str "phase") w' = JNum 0.
Proof.
  intros w'.
  destruct (handlePhaseChange_reports_success (str "2") session1
              (createdWith [true]))
    as (w1 & before & Hrun & _ & Htoast & Hsame & _).
  assert (w' = w1) as -> by (unfold w'; by rewrite Hrun).
  split; [exact Htoast|].
  destruct Hsame as [Hdb _]; [right; vm_compute; reflexivity|].
  unfold sessionField. rewrite Hdb. vm_compute. reflexivity.
Defined.

(** *** Theme generation when the query or the grouping fails *)

Lemma getTranscripts_refused code filter w :
  accepts (str "transcripts/" ++ code) w = false →
  ∃ w1 reads,
    getTranscripts code filter w = (Normal [], w1)
    ∧ trace w1 = trace w ++ reads
    ∧ Forall (fun e => isRead e = true) reads
    ∧ database w1 = database w.
Proof.
  intros Hacc. unfold getTranscripts, tryCatch, onceChildren. unfold mbind, M_bind.
  set (op := Once _ _).
  destruct (request_refused _ op w Hacc) as (e & w1 & -> & [->| ->]).
  - exists w, []. by rewrite app_nil_r.
  - eexists _, [_]. split_and!; try done. by apply Forall_singleton.
Qed.

(** X22. [getTranscripts] never throws: when the store is not connected,
    refuses the path or rejects the read, it answers with the empty
    list.  The theme generation cannot tell this from a phase without
    transcripts: it shows 'No transcripts found for this phase', calls
    the proxy not once and writes nothing. *)
Theorem failed_query_reads_as_no_transcripts (session : Json) (phase : Z)
    (w : World) :
  accepts (str "transcripts/" ++ genCode session) w = false →
  (getTranscripts (genCode session) (Some phase) w).1 = Normal []
  ∧ ∃ w' reads,
      handleGenerateThemes (Some session) phase w = (Normal (), w')
      ∧ newEvents w w' = generating :: reads ++ noTranscripts
      ∧ Forall (fun e => isRead e = true) reads
      ∧ database w' = database w.
Proof.
  intros Hacc. split.
  - by destruct (getTranscripts_refused _ (Some phase) w Hacc) as (w1 & reads & -> & _).
  - destruct (getTranscripts_refused (genCode session) (Some phase)
                (logged [generating] w))
      as (w1 & reads & Hq & Htrace & Hreads & Hdb); [done|].
    rewrite (handleGenerateThemes_after _ _ _ _ _ Hq). simpl.
    eexists _, reads. split; [done|]. split_and!; try done.
    unfold newEvents. simpl. rewrite Htrace. simpl.
    by rewrite <- !app_assoc, drop_trace.
Qed.

(** The store holds transcripts of phase 0 and rejects the read. *)
Lemma failed_query_reads_as_no_transcripts_witness :
  let w := mkWorld (database recorded) [true] [] (clock recorded) (pushed recorded) [] in
  size (Views.transcripts code1 w) = 4%nat
  ∧ Toast ErrorToast (str "No transcripts found for this phase")
    ∈ newEvents w (handleGenerateThemes (Some session1) 0 w).2.
Proof.
  intros w. split; [vm_compute; reflexivity|].
  destruct (failed_query_reads_as_no_transcripts session1 0 w)
    as (_ & w' & reads & Hrun & Hnew & _); [vm_compute; reflexivity|].
  rewrite Hrun. simpl. rewrite Hnew. right. apply elem_of_app. right. by left.
Defined.

Lemma groupByTable_inherited ts o :
  (∃ t, t ∈ ts ∧ inherited (tableKey t) = true) → groupByTable ts o = None.
Proof.
  revert o. induction ts as [|t ts IH]; intros o (t' & Hin & Hkey).
  - by apply elem_of_nil in Hin.
  - simpl. destruct (inherited (tableKey t)) eqn:Ht; [done|].
    apply IH. exists t'. split; [|done].
    apply elem_of_cons in Hin as [->|Hin]; [congruence|done].
Qed.

(** X23. A transcript whose table number reads as the name of a property
    that every object inherits ('constructor', 'toString', ...) makes
    the grouping throw.  The handler then shows 'Failed to generate
    themes'; no table is processed, also not the well-formed ones: the
    proxy is not called and nothing is written. *)
Theorem inherited_table_name_fails (session : Json) (phase : Z) (w : World)
    (ts : list (jsstring * Json)) :
  (getTranscripts (genCode session) (Some phase) w).1 = Normal ts →
  (∃ t, t ∈ ts ∧ inherited (tableKey t) = true) →
  ∃ w' reads,
    handleGenerateThemes (Some session) phase w = (Normal (), w')
    ∧ newEvents w w' = generating :: reads ++ generateFailed
    ∧ Forall (fun e => isRead e = true) reads
    ∧ Forall (fun e => isFetch e = false ∧ isWrite e = false) (newEvents w w')
    ∧ database w' = database w.
Proof.
  intros Hts Hbad.
  destruct (getTranscripts_total (genCode session) (Some phase)
              (logged [generating] w))
    as (ts' & w1 & Hq & Hdb & _ & _ & reads & Htrace & Hreads).
  assert (ts' = ts) as ->.
  { pose proof (getTranscripts_logged (genCode session) (Some phase)
                  [generating] w) as Heq.
    rewrite Hq, Hts in Heq. by injection Heq. }
  rewrite (handleGenerateThemes_after _ _ _ _ _ Hq).
  rewrite (groupByTable_inherited ts [] Hbad).
  destruct ts as [|t ts]; [destruct Hbad as (t & Hin & _); by apply elem_of_nil in Hin|].
  cbn [length Nat.eqb].
  eexists _, reads. split; [done|].
  assert (newEvents w (logged generateFailed w1)
          = generating :: reads ++ generateFailed) as ->.
  { unfold newEvents. simpl. rewrite Htrace. simpl.
    by rewrite <- !app_assoc, drop_trace. }
  split_and!; try done.
  apply Forall_cons. split; [done|]. apply Forall_app. split.
  - by apply reads_only.
  - by repeat constructor.
Qed.

(** A transcript filed under the table 'constructor'. *)
Lemma inherited_table_name_fails_witness :
  let w' := (handleGenerateThemes (Some session1) 0 oddTable).2 in
  Toast ErrorToast (str "Failed to generate themes") ∈ newEvents oddTable w'
  ∧ Forall (fun e => isFetch e = false ∧ isWrite e = false) (newEvents oddTable w').
Proof.
  let r := eval vm_compute in
      (getTranscripts (genCode session1) (Some 0%Z) oddTable).1 in
  match r with Normal ?l => pose (ts := l) | _ => fail end.
  destruct (inherited_table_name_fails session1 0 oddTable ts)
    as (w' & reads & Hrun & Hnew & _ & Hnone & _).
  - vm_compute. reflexivity.
  - subst ts. eexists. split; [by left|]. vm_compute. reflexivity.
  - rewrite Hrun. simpl. split; [|exact Hnone].
    rewrite Hnew. right. apply elem_of_app. right. by left.
Defined.

End FacilitatorFacts.

(** ** More on the serverless proxies *)

Module ProxyMoreFacts.
Import Js Store Proxy.

#[local] Arguments pair {A B} & _ _.

(** X25. Both proxies call the upstream API only for a POST request and
    only with a configured key.  Any other method is answered from the
    method alone, OPTIONS with 204 and an empty body, everything else
    with 405, whatever the key, the body and the upstream would say;
    and a key that is absent, empty or still a build placeholder never
    leaves the function. *)
Theorem upstream_needs_post_and_key
    (key : option jsstring) (te : ThemeEvent) (ae : AudioEvent)
    (tr : Reply Completion) (ar : Reply (Json * Json)) :
  ((openaiHandler key te tr).2 ≠ [] →
   themeMethod te = str "POST" ∧ keyMissing key = false)
  ∧ ((whisperHandler key ae ar).2 ≠ [] →
     audioMethod ae = str "POST" ∧ keyMissing key = false)
  ∧ (themeMethod te ≠ str "POST" →
     openaiHandler key te tr
     = (if bool_decide (themeMethod te = str "OPTIONS") then preflight
        else methodNotAllowed, []))
  ∧ (audioMethod ae ≠ str "POST" →
     whisperHandler key ae ar
     = (if bool_decide (audioMethod ae = str "OPTIONS") then preflight
        else methodNotAllowed, [])).
Proof.
  unfold openaiHandler, whisperHandler. split_and!.
  - case_bool_decide; [done|]. case_bool_decide; [|done]. simpl.
    destruct (keyMissing key); [done|]. done.
  - case_bool_decide; [done|]. case_bool_decide; [|done]. simpl.
    destruct (keyMissing key); [done|]. done.
  - intros Hmethod. case_bool_decide; [done|].
    by rewrite bool_decide_eq_false_2.
  - intros Hmethod. case_bool_decide; [done|].
    by rewrite bool_decide_eq_false_2.
Qed.

(** A GET request with a valid key and prompt, and a POST request whose
    key is a placeholder. *)
Lemma upstream_needs_post_and_key_witness :
  openaiHandler (Some (str "sk-live"))
    {| themeMethod := str "GET";
       themeBody := Parsed (Some (str "Extract themes")) None |} Aborted
  = (methodNotAllowed, [])
  ∧ (whisperHandler (Some (str "{{OPENAI_API_KEY}}"))
       {| audioMethod := str "POST";
          contentType := Some (str "multipart/form-data; boundary=x");
          audioBody := Some (str "UklGRg==") |} (Success (inr (JNull, JNull)))).2
    = [].
Proof.
  destruct (upstream_needs_post_and_key (Some (str "sk-live"))
              {| themeMethod := str "GET";
                 themeBody := Parsed (Some (str "Extract themes")) None |}
              {| audioMethod := str "GET"; contentType := None; audioBody := None |}
              Aborted Aborted) as (_ & _ & Hget & _).
  split; [rewrite Hget; [vm_compute; reflexivity|vm_compute; discriminate]|].
  destruct (upstream_needs_post_and_key (Some (str "{{OPENAI_API_KEY}}"))
              {| themeMethod := str "POST"; themeBody := Parsed None None |}
              {| audioMethod := str "POST";
                 contentType := Some (str "multipart/form-data; boundary=x");
                 audioBody := Some (str "UklGRg==") |}
              Aborted (Success (inr (JNull, JNull)))) as (_ & Hkey & _).
  destruct (whisperHandler _ _ _).2 as [|c calls] eqn:Hcalls; [done|].
  destruct Hkey as [_ Hkey]; [done|]. vm_compute in Hkey. discriminate Hkey.
Defined.

End ProxyMoreFacts.

(** ** From a generated code to a joined participant *)

Module FlowFacts.
Import Js Store Eff Utils FirebaseService Views Samples.
Import UtilsFacts StoreFacts FirebaseFacts AdapterFacts ValidationFacts.

#[local] Opaque str.
#[local] Arguments validPathString : simpl never.
#[local] Arguments segments : simpl never.
#[local] Arguments Store.set : simpl never.
#[local] Arguments get : simpl never.
#[local] Arguments obj : simpl never.
#[local] Arguments participantData : simpl never.

Lemma generateRoomCode_chars random :
  (∀ k, (0 <= random k)%Q ∧ (random k < 1)%Q) →
  Forall (fun c => isCodeChar c = true) (generateRoomCode random)
  ∧ length (generateRoomCode random) = CONFIG.APP.SESSION_CODE_LENGTH.
Proof.
  intros Hrandom.
  destruct (generateRoomCode_loop_spec random 0 CONFIG.APP.SESSION_CODE_LENGTH []
              Hrandom) as [Hall Hlen]; [done|].
  split; [|done]. unfold generateRoomCode.
  eapply Forall_impl; [exact Hall|]. intros c Hc.
  pose proof chars_code as Hchars. rewrite Forall_forall in Hchars.
  by destruct (Hchars c Hc).
Qed.

Lemma accepts_connected path w db :
  database w = Some db → validPathString path = true →
  default false (head (rejections w)) = false →
  accepts path w = true.
Proof. intros. apply accepts_true. by exists db. Qed.

(** X24. From creating a session to joining it.  On a connected store
    that rejects nothing, a facilitator creates a session under a
    generated code; the code passes the room-code validator unchanged;
    and a participant who joins with it is admitted: the session is
    active and holds this one participant. *)
Theorem created_session_can_be_joined
    (toUpperCase : jsstring → jsstring) (random : nat → Q)
    (facilitatorId facilitatorName id name : jsstring) (w : World) (db : Json) :
  (∀ s, Forall (fun c => isCodeChar c = true) s → toUpperCase s = s) →
  (∀ k, (0 <= random k)%Q ∧ (random k < 1)%Q) →
  database w = Some db → rejections w = [] →
  isKey id → Forall (fun c => invalidPathChar c = false) id →
  let code := generateRoomCode random in
  let w1 := (createSession code facilitatorId facilitatorName w).2 in
  let w2 := (joinSession code id name w1).2 in
  (createSession code facilitatorId facilitatorName w).1 = Normal (JBool true)
  ∧ validateRoomCode toUpperCase code = Accepted code
  ∧ (joinSession code id name w1).1 = Normal (JBool true)
  ∧ participants code w2 = {[ id := participantData id name (clock w) ]}
  ∧ sessionField code (str "status") w2 = JStr (str "active").
Proof.
  intros Hup Hrandom Hdb Hrej Hid Hidchars code w1 w2.
  destruct (generateRoomCode_chars random Hrandom) as [Hchars Hlen].
  fold code in Hchars, Hlen.
  assert (Forall (fun c => invalidPathChar c = false) code) as Hvalid.
  { eapply Forall_impl; [exact Hchars|]. apply isCodeChar_valid. }
  assert (isKey code) as Hcode.
  { split; [by destruct code|]. intros Hs.
    rewrite Forall_forall in Hchars. apply Hchars, isCodeChar_range in Hs.
    unfold slash in Hs. lia. }
  assert (validPathString (str "sessions/" ++ code) = true) as Hpath
    by (apply validPathString_app; [by vm_compute|done]).
  assert (validPathString (str "sessions/" ++ code ++ str "/participants/" ++ id)
          = true) as Hpath'.
  { rewrite !app_assoc. apply validPathString_app; [|done].
    apply validPathString_app; [|by apply (bool_decide_unpack _); vm_compute].
    exact Hpath. }
  (* the session is created *)
  assert (accepts (str "sessions/" ++ code) w = true) as Hacc
    by (apply (accepts_connected _ _ db); [done|done|by rewrite Hrej]).
  assert (createSession code facilitatorId facilitatorName w
          = (Normal (JBool true), w1)
          ∧ rejections w1 = [] ∧ clock w1 = clock w
          ∧ ∃ db1, database w1 = Some db1
                   ∧ exists_ (segments (str "sessions/" ++ code)) db1 = true
                   ∧ get (segments (str "sessions/" ++ code) ++ [str "status"]) db1
                     = JStr (str "active"))
    as (Hcreate & Hrej1 & Hclock1 & db1 & Hdb1 & Hexists & Hstatus).
  { unfold w1, createSession, tryCatch. unfold mbind, M_bind, timestamp.
    rewrite (set_accepted _ _ _ db Hdb Hacc). page.
    split; [done|]. split; [by rewrite Hrej|]. split; [done|].
    eexists. split; [done|]. split.
    - unfold exists_. rewrite get_set. unfold obj.
      cbn [foldl put isNull fst snd]. by rewrite node_insert.
    - rewrite get_app, get_set, get_cons, get_nil. by read_literal. }
  (* the participant joins *)
  assert (accepts (str "sessions/" ++ code) w1 = true) as Hacc1
    by (apply (accepts_connected _ _ db1); [done|done|by rewrite Hrej1]).
  pose proof (sessionExists_accepted _ _ _ Hdb1 Hacc1) as Hex.
  rewrite Hexists in Hex.
  assert ((joinSession code id name w1).1 = Normal (JBool true)) as Hjoin.
  { rewrite (joinSession_after _ _ _ _ _ _ Hex).
    rewrite (set_accepted _ _ _ db1); [done|done|].
    apply (accepts_connected _ _ db1); [done|done|]. simpl. by rewrite Hrej1. }
  split_and!.
  - by rewrite Hcreate.
  - by apply validateRoomCode_fixes.
  - done.
  - unfold w2. rewrite joinSession_record by done.
    unfold w1. rewrite createSession_participants by (by rewrite Hcreate).
    fold w1. by rewrite Hclock1.
  - destruct (joinSession_true _ _ _ _ Hjoin) as (db1' & Hdb1' & Hdb2).
    fold w2 in Hdb2. unfold sessionField. rewrite Hdb2.
    rewrite segments_field_key by key_literal.
    rewrite segments_participants_id by done.
    change (str "/participants") with (str "/" ++ str "participants").
    rewrite segments_field_key by key_literal.
    rewrite get_set_diverge.
    + rewrite Hdb1 in Hdb1'. by injection Hdb1' as <-.
    + rewrite <- app_assoc. apply (diverge_after _ _ _ [id] []). literal_ne.
Qed.

(** A session under a generated code, created on the empty store and
    joined by Bob. *)
Lemma created_session_can_be_joined_witness :
  let random := fun k : nat => Z.of_nat (k * 7 mod 32) # 32 in
  let code := generateRoomCode random in
  let w1 := (createSession code (str "f1") (str "Ann") fresh).2 in
  let w2 := (joinSession code (str "p1") (str "Bob") w1).2 in
  code = str "AHQX6D"
  ∧ (joinSession code (str "p1") (str "Bob") w1).1 = Normal (JBool true)
  ∧ size (participants code w2) = 1%nat.
Proof.
  intros random code w1 w2.
  destruct (created_session_can_be_joined asciiUpper random (str "f1") (str "Ann")
              (str "p1") (str "Bob") fresh JNull)
    as (_ & _ & Hjoin & Hparticipants & _).
  - apply asciiUpper_code.
  - intros k. unfold random, Qle, Qlt. simpl.
    pose proof (Nat.mod_upper_bound (k * 7) 32). lia.
  - reflexivity.
  - reflexivity.
  - key_literal.
  - apply (bool_decide_unpack _). vm_compute. reflexivity.
  - split; [vm_compute; reflexivity|]. split; [exact Hjoin|].
    unfold w2, w1, code. rewrite Hparticipants. apply map_size_singleton.
Defined.

End FlowFacts.

(** ** Initialisation and listeners of the adapter *)

Module ClientFacts.
Import Js Store Eff Client Samples FirebaseFacts.

(** X26. [init] sets [firebaseApp] before it tests the connection.  With
    a placeholder left in the configuration it refuses without touching
    the SDK: it answers [false], shows the connection error and stays
    uninitialised.  It answers [true] only when the configuration has no
    placeholder and the SDK and the connection test succeed.  But when
    [firebase.database()] throws or the connection test rejects, the
    call answers [false] and every later call answers [true] at once,
    without a new attempt and without a message. *)
Theorem init_after_failure (config : list jsstring) (sdk : Sdk) (remote : Json)
    (st : App) :
  firebaseApp st = false →
  let ok := (init config sdk remote st).1 in
  let st' := (init config sdk remote st).2 in
  (hasPlaceholders config = true →
   ok = false ∧ firebaseApp st' = false
   ∧ database (page st') = database (page st)
   ∧ newEvents (page st) (page st') = connecting :: connectFailed)
  ∧ (ok = true ↔ hasPlaceholders config = false ∧ sdk = Ready)
  ∧ (hasPlaceholders config = false → sdk = DatabaseThrows ∨ sdk = TestRejects →
     ok = false
     ∧ ∀ config' sdk' remote', init config' sdk' remote' st' = (true, st')).
Proof.
  intros Happ. unfold init. rewrite Happ. simpl.
  destruct (hasPlaceholders config) eqn:Hph; simpl.
  - split_and!.
    + intros _. split_and!; try done.
      unfold newEvents. simpl. by rewrite <- app_assoc, drop_trace.
    + split; [done|]. by intros [? _].
    + done.
  - split_and!.
    + done.
    + destruct sdk; simpl; split; try done; by intros [_ ?].
    + intros _ [-> | ->]; simpl; (split; [done|]); intros config' sdk' remote';
        reflexivity.
Qed.

(** A build that left a placeholder in the configuration; and a
    connection test that fails on a complete configuration. *)
Lemma init_after_failure_witness :
  let st := mkApp false (mkWorld None [] [] 0 0 []) in
  let complete := [str "AIzaSy"; str "workshop.firebaseapp.com"] in
  (init [str "AIzaSy"; str "{{FIREBASE_AUTH_DOMAIN}}"] Ready JNull st).1 = false
  ∧ (init complete TestRejects JNull st).1 = false
  ∧ (init complete TestRejects JNull (init complete TestRejects JNull st).2).1
    = true.
Proof.
  intros st complete.
  destruct (init_after_failure [str "AIzaSy"; str "{{FIREBASE_AUTH_DOMAIN}}"]
              Ready JNull st eq_refl) as (Hplaceholder & _).
  destruct (init_after_failure complete TestRejects JNull st eq_refl)
    as (_ & _ & Hfailed).
  split; [apply Hplaceholder; vm_compute; reflexivity|].
  destruct Hfailed as [Hfalse Hlater];
    [vm_compute; reflexivity|by right|].
  split; [exact Hfalse|]. by rewrite Hlater.
Defined.

(** *** Listeners *)

Lemma filter_all {A} (P : A → bool) (l : list A) :
  (∀ x, P x = true) → List.filter P l = l.
Proof.
  intros HP. induction l as [|x l IH]; [done|].
  cbn [List.filter]. by rewrite HP, IH.
Qed.

Lemma filter_filter {A} (P Q : A → bool) (l : list A) :
  List.filter P (List.filter Q l) = List.filter (fun x => Q x && P x) l.
Proof.
  induction l as [|x l IH]; [done|].
  cbn [List.filter]. destruct (Q x); cbn [List.filter andb]; by rewrite IH.
Qed.

Lemma registered_off st ls :
  registered (foldl off st ls)
  = List.filter (fun l => bool_decide (l ∉ ls)) (registered st)
  ∧ activeListeners (foldl off st ls) = activeListeners st
  ∧ nextCallback (foldl off st ls) = nextCallback st.
Proof.
  revert st. induction ls as [|l ls IH]; intros st.
  - cbn [foldl]. split; [|done]. symmetry. apply filter_all.
    intros x. apply bool_decide_eq_true_2, not_elem_of_nil.
  - cbn [foldl]. destruct (IH (off st l)) as (-> & -> & ->).
    split; [|done]. unfold off. cbn [registered].
    rewrite filter_filter. apply List.filter_ext. intros x.
    destruct (decide (x = l)) as [->|Hne].
    + rewrite (bool_decide_eq_true_2 (l = l)) by done. cbn [negb andb].
      symmetry. apply bool_decide_eq_false_2. intros Hnot. apply Hnot. by left.
    + rewrite (bool_decide_eq_false_2 (x = l)) by done. cbn [negb andb].
      apply bool_decide_ext. rewrite not_elem_of_cons. tauto.
Qed.

Lemma tracked_off st ls : tracked st → tracked (foldl off st ls).
Proof.
  intros Hst l. destruct (registered_off st ls) as (-> & -> & _).
  rewrite list_elem_of_In. intros [Hin _]%List.filter_In.
  apply Hst. by apply list_elem_of_In.
Qed.

Lemma tracked_step connected st handles c :
  tracked st → tracked (step connected (st, handles) c).1.
Proof.
  intros Hst. destruct c as [code|code|code|i|]; cbn [step].
  - unfold listenToSession. destruct (refThrows _ _); [done|]. cbn.
    intros l [Hl|Hl]%elem_of_app; apply elem_of_app; [left; by apply Hst|by right].
  - unfold listenToParticipants. destruct (refThrows _ _); [done|]. cbn.
    intros l. rewrite <- app_assoc. intros [Hl|Hl]%elem_of_app; apply elem_of_app;
      [left; by apply Hst|by right].
  - unfold listenToThemes. destruct (refThrows _ _); [done|]. cbn.
    intros l [Hl|Hl]%elem_of_app; apply elem_of_app; [left; by apply Hst|by right].
  - by apply tracked_off.
  - intros l. unfold cleanup. cbn [fst registered activeListeners].
    destruct (registered_off st (activeListeners st)) as (-> & _ & _).
    rewrite list_elem_of_In. intros [Hin Hout]%List.filter_In.
    apply bool_decide_eq_true in Hout. destruct Hout.
    apply Hst. by apply list_elem_of_In.
Qed.

Lemma tracked_run connected calls acc :
  tracked acc.1 → tracked (foldl (step connected) acc calls).1.
Proof.
  revert acc. induction calls as [|c calls IH]; intros [st handles]; [done|].
  cbn [foldl]. intros Hst. apply IH. by apply tracked_step.
Qed.

(** The array keeps what was handed out, until [cleanup]. *)
Lemma held_step connected st handles c :
  c ≠ Cleanup → held (st, handles) → held (step connected (st, handles) c).
Proof.
  intros Hc Hheld. unfold held in *.
  destruct c as [code|code|code|i|]; cbn [step]; try done.
  - unfold listenToSession. destruct (refThrows _ _); [done|]. cbn.
    intros h l [Hh|Hh]%elem_of_app Hl; apply elem_of_app.
    + left. by apply (Hheld h).
    + right. by apply list_elem_of_singleton in Hh as ->.
  - unfold listenToParticipants. destruct (refThrows _ _); [done|]. cbn.
    intros h l [Hh|Hh]%elem_of_app Hl; apply elem_of_app.
    + left. by apply (Hheld h).
    + right. by apply list_elem_of_singleton in Hh as ->.
  - unfold listenToThemes. destruct (refThrows _ _); [done|]. cbn.
    intros h l [Hh|Hh]%elem_of_app Hl; apply elem_of_app.
    + left. by apply (Hheld h).
    + right. by apply list_elem_of_singleton in Hh as ->.
  - unfold unsubscribe. cbn [fst snd].
    destruct (registered_off st (default [] (handles !! i))) as (_ & -> & _).
    done.
Qed.

Lemma held_run connected calls acc :
  Forall (fun c => c ≠ Cleanup) calls → held acc →
  held (foldl (step connected) acc calls).
Proof.
  intros Hcalls. revert acc.
  induction Hcalls as [|c calls Hc _ IH]; intros [st handles] Hheld; [done|].
  cbn [foldl]. apply IH. by apply held_step.
Qed.

(** X27. [cleanup] leaves no listener behind: after any sequence of
    [listenToSession], [listenToParticipants] and [listenToThemes]
    calls, individual unsubscriptions and earlier cleanups, the client
    library holds no listener of the adapter and [activeListeners] is
    empty.  Until then the array only grows: the function that a
    [listenTo...] call hands back removes its listeners from the library
    but not their entries from the array. *)
Theorem cleanup_leaves_no_listener (connected : bool) (calls : list Call) :
  let st := (run connected calls).1 in
  let handles := (run connected calls).2 in
  registered (cleanup st) = []
  ∧ activeListeners (cleanup st) = []
  ∧ (∀ l, l ∈ registered st → l ∈ activeListeners st)
  ∧ (Forall (fun c => c ≠ Cleanup) calls →
     ∀ handle l, handle ∈ handles → l ∈ handle →
       l ∈ activeListeners st
       ∧ l ∈ activeListeners (unsubscribe handle st)
       ∧ l ∉ registered (unsubscribe handle st)).
Proof.
  intros st handles.
  assert (tracked st) as Htracked.
  { apply (tracked_run connected calls (mkSubscriptions [] [] 0, [])).
    intros l Hl. by apply elem_of_nil in Hl. }
  split_and!.
  - unfold cleanup. cbn [registered].
    destruct (registered_off st (activeListeners st)) as (-> & _ & _).
    destruct (List.filter _ _) as [|l ls] eqn:Hf; [done|].
    assert (In l (l :: ls)) as Hin by (by left).
    rewrite <- Hf in Hin. apply List.filter_In in Hin as [Hin Hout].
    apply bool_decide_eq_true in Hout. destruct Hout.
    apply Htracked. by apply list_elem_of_In.
  - done.
  - exact Htracked.
  - intros Hcalls handle l Hhandle Hl.
    assert (held (st, handles)) as Hheld.
    { unfold st, handles. rewrite <- surjective_pairing.
      apply held_run; [done|]. intros h l' Hh. by apply elem_of_nil in Hh. }
    unfold unsubscribe.
    destruct (registered_off st handle) as (-> & -> & _).
    split_and!.
    + by apply (Hheld handle).
    + by apply (Hheld handle).
    + rewrite list_elem_of_In. intros [_ Hout]%List.filter_In.
      by apply bool_decide_eq_true in Hout.
Qed.

(** A participant page: it listens to the session and the themes, stops
    listening to the themes, and cleans up on leaving. *)
Lemma cleanup_leaves_no_listener_witness :
  let calls := [ListenToSession code1; ListenToThemes code1; Unsubscribe 1] in
  let st := (run true calls).1 in
  length (registered st) = 1%nat
  ∧ length (activeListeners st) = 2%nat
  ∧ registered (cleanup st) = [].
Proof.
  intros calls st.
  destruct (cleanup_leaves_no_listener true calls) as (Hnone & _).
  split; [vm_compute; reflexivity|]. split; [vm_compute; reflexivity|].
  exact Hnone.
Defined.

End ClientFacts.

(** ** Theme generation, table by table *)

Module ThemesFacts.
Import Js Store JsObject Eff FirebaseService Workshop Views Samples ThemeSamples
  StoreFacts FirebaseFacts JsObjectFacts WorkshopFacts AdapterFacts
  ValidationFacts.

#[local] Opaque str.
#[local] Arguments validPathString : simpl never.
#[local] Arguments segments : simpl never.
#[local] Arguments obj : simpl never.
#[local] Arguments themeData : simpl never.
#[local] Arguments Store.set : simpl never.
#[local] Arguments get : simpl never.
#[local] Arguments query : simpl never.
#[local] Arguments integer : simpl never.
#[local] Arguments numberToString : simpl never.
#[local] Arguments parseInt : simpl never.
#[local] Arguments join : simpl never.
#[local] Arguments themesOf : simpl never.
#[local] Arguments themesPath : simpl never.
#[local] Arguments accepts : simpl never.

(** *** Table numbers as property keys *)





(** *** The query that found transcripts *)




(** *** One table on a connected store *)


(** *** The loop *)


(** *** The trace of the loop *)









End ThemesFacts.
